(** * Numainda: the retrieval-augmented generation pipeline

    A shallow embedding of the ingestion, embedding, retrieval, query
    classification and context assembly code of the repository
    (lib/ai/embedding.ts, app/api/chat/route.tsx, scripts/batch-ingest.ts),
    with the properties its specification states about them, followed by
    the code around it: the command line of the batch script, its
    summaries, the single-file ingestion script, the script that embeds
    the representatives' profiles, the province fix and the filter
    route. *)

From Stdlib Require Import String Ascii List Bool Arith ZArith Lia.
From Stdlib Require Import QArith Permutation Sorted.
Import ListNotations.

Local Close Scope Q_scope.
Local Open Scope string_scope.
Local Open Scope list_scope.

(** ** Values exchanged with the outside world *)

(** A dense vector as the embedding provider returns it. *)
Definition Vector := list Q.

(** The value [JSON.parse] produces. *)
#[warnings="-register-all"]
Inductive JSON : Type :=
| JNull
| JBool (b : bool)
| JNumber (q : Q)
| JString (s : string)
| JArray (items : list JSON)
| JObject (fields : list (string * JSON)).

(** What a rejected promise or a throw carries. *)
Inductive Exn : Type :=
| TypeError (msg : string)
| ApiCallError (service : string)
| DatabaseError (table : string)
| FileError (path : string).

Inductive Outcome (A : Type) : Type :=
| Ok (a : A)
| Throw (e : Exn).
Arguments Ok {A} a.
Arguments Throw {A} e.

(** Calls that leave the process, in the order they are issued. *)
Inductive ApiCall : Type :=
| EmbedCall (value : string)
| GenerateTextCall (prompt : string).

(** ** The database *)

(** Metadata bag stored with a chunk embedding. *)
Record ChunkMetadata := mkChunkMetadata {
  pageNumber : nat;
  section : option string;
  timestamp : option string
}.

Record DocumentRow := mkDocumentRow {
  doc_id : nat;
  doc_title : string;
  doc_type : string;
  doc_content : string;
  originalFileName : string
}.

Record EmbeddingRow := mkEmbeddingRow {
  emb_id : nat;
  resourceId : nat;
  emb_embedding : Vector;
  emb_content : string;
  emb_metadata : ChunkMetadata
}.

Record BillRow := mkBillRow {
  bill_title : string;
  bill_status : string;
  bill_summary : string;
  bill_originalText : string
}.

Record ProceedingRow := mkProceedingRow {
  proc_title : string;
  proc_date : string;
  proc_summary : string;
  proc_originalText : string
}.

(** The columns of [representatives] the chat route reads. *)
Record RepresentativeRow := mkRepresentativeRow {
  rep_id : nat;
  nameClean : string;
  rep_constituency : string;
  rep_constituencyCode : string;
  rep_constituencyName : option string;
  rep_district : option string;
  rep_province : option string;
  rep_party : string;
  rep_phone : option string;
  rep_permanentAddress : option string;
  rep_islamabadAddress : option string
}.

Record RepresentativeEmbeddingRow := mkRepresentativeEmbeddingRow {
  repemb_id : nat;
  representativeId : nat;
  repemb_content : string;
  repemb_embedding : Vector
}.

(** Every table is kept in insertion order; [apiCalls] is the log of the
    calls issued so far and [nextId] feeds the generated keys. *)
Record World := mkWorld {
  documents : list DocumentRow;
  embeddings : list EmbeddingRow;
  bills : list BillRow;
  proceedings : list ProceedingRow;
  representatives : list RepresentativeRow;
  representativeEmbeddings : list RepresentativeEmbeddingRow;
  apiCalls : list ApiCall;
  nextId : nat
}.

Definition emptyWorld : World :=
  mkWorld [] [] [] [] [] [] [] 0.

(** ** Asynchronous code as state passing with exceptions *)

Definition M (A : Type) : Type := World -> Outcome A * World.

Definition ret {A} (a : A) : M A := fun w => (Ok a, w).

Definition throw {A} (e : Exn) : M A := fun w => (Throw e, w).

Definition bind {A B} (m : M A) (k : A -> M B) : M B :=
  fun w =>
    match m w with
    | (Ok a, w') => k a w'
    | (Throw e, w') => (Throw e, w')
    end.

Notation "x <- m ;; k" := (bind m (fun x => k))
  (at level 61, m at next level, right associativity).
Notation "m ;;; k" := (bind m (fun _ => k))
  (at level 61, right associativity).

Definition getWorld : M World := fun w => (Ok w, w).

Definition modifyWorld (f : World -> World) : M unit := fun w => (Ok tt, f w).

(** [Promise.all] over promises that were all created before the await:
    every one of them runs, and the result is rejected as soon as one of
    them is. *)
Fixpoint promiseAll {A} (ps : list (M A)) : M (list A) :=
  fun w =>
    match ps with
    | [] => (Ok [], w)
    | p :: rest =>
        match p w with
        | (Ok a, w1) =>
            match promiseAll rest w1 with
            | (Ok l, w2) => (Ok (a :: l), w2)
            | (Throw e, w2) => (Throw e, w2)
            end
        | (Throw e, w1) => (Throw e, snd (promiseAll rest w1))
        end
    end.

Definition logCall (c : ApiCall) : M unit :=
  modifyWorld (fun w =>
    mkWorld (documents w) (embeddings w) (bills w) (proceedings w)
            (representatives w) (representativeEmbeddings w)
            (apiCalls w ++ [c]) (nextId w)).

(** ** External collaborators *)

(** An [ORDER BY ... DESC] of the database engine: the rows come back as
    a rearrangement of the input in which keys never increase.  Nothing
    else is promised about rows with equal keys. *)
Record SqlEngine := mkSqlEngine {
  orderByDesc : forall R : Type, (R -> Q) -> list R -> list R;
  orderByDesc_perm :
    forall R (key : R -> Q) (rows : list R),
      Permutation (orderByDesc R key rows) rows;
  orderByDesc_sorted :
    forall R (key : R -> Q) (rows : list R),
      StronglySorted (fun a b => key b <= key a)%Q (orderByDesc R key rows)
}.

(** A text chunk as the splitter hands it over. *)
Record SplitDocument := mkSplitDocument {
  split_pageContent : string;
  split_pageNumber : option nat
}.

Record Services := mkServices {
  (** the embedding model: [None] when the call is rejected *)
  embed : string -> option Vector;
  (** the chat model asked to classify a query *)
  generateText : string -> option string;
  JSON_parse : string -> option JSON;
  (** the [<=>] operator of the vector column *)
  cosineDistance : Vector -> Vector -> Q;
  sql : SqlEngine;
  (** whether the database answers a select on the named table *)
  selectAnswered : string -> bool;
  (** PDFLoader, joined page by page *)
  extractTextFromPDF : string -> option string;
  basename : string -> string;
  createDocuments : string -> list SplitDocument;
  detectSection : string -> option string;
  detectTimestamp : string -> option string;
  generateBillSummary : string -> string;
  generateProceedingSummary : string -> string;
  extractDateFromFilename : string -> string
}.

(** ** lib/ai/embedding.ts (src/unnamed/part_015) *)

Module Embedding.

Record Chunk (Meta : Type) := mkChunk {
  pageContent : string;
  metadata : Meta
}.
Arguments mkChunk {Meta} _ _.
Arguments pageContent {Meta} _.
Arguments metadata {Meta} _.

Record Embedded (Meta : Type) := mkEmbedded {
  content : string;
  embedding : Vector;
  e_metadata : Meta
}.
Arguments mkEmbedded {Meta} _ _ _.
Arguments content {Meta} _.
Arguments embedding {Meta} _.
Arguments e_metadata {Meta} _.

Section WithServices.

Variable svc : Services.

(** The [embed] call of the SDK: logged, then answered by the provider. *)
Definition embedCall (value : string) : M Vector :=
  logCall (EmbedCall value) ;;;
  match embed svc value with
  | Some v => ret v
  | None => throw (ApiCallError "embedding")
  end.

Definition generateEmbedding (text : string) : M Vector :=
  embedCall text.

Definition generateEmbeddings {Meta} (chunk : Chunk Meta)
  : M (list (Embedded Meta)) :=
  e <- embedCall (pageContent chunk) ;;
  ret [ mkEmbedded (pageContent chunk) e (metadata chunk) ].

(** *** Query routing *)

Definition generateTextCall (query : string) : M string :=
  logCall (GenerateTextCall query) ;;;
  match generateText svc query with
  | Some t => ret t
  | None => throw (ApiCallError "generateText")
  end.

(** [type === 'representative' || type === 'bill' || type === 'document'] *)
Definition isQueryType (t : JSON) : bool :=
  match t with
  | JString s =>
      String.eqb s "representative" || String.eqb s "bill"
      || String.eqb s "document"
  | _ => false
  end.

(** The try block and the fallback after it, on the text the model
    returned. *)
Definition queryTypesOf (analysis : string) : list JSON :=
  match JSON_parse svc analysis with
  | Some (JArray (x :: items)) =>
      match filter isQueryType (x :: items) with
      | [] => [JString "document"]
      | valid => valid
      end
  | _ => [JString "document"]
  end.

Definition detectQueryTypes (query : string) : M (list JSON) :=
  analysis <- generateTextCall query ;;
  ret (queryTypesOf analysis).

(** *** Similarity search *)

(** [a > b] on the values the database compares. *)
Definition Qgtb (a b : Q) : bool := negb (Qle_bool a b).

(** [embeddings LEFT JOIN documents ON resourceId = documents.id]. *)
Definition leftJoin {L R} (on : L -> R -> bool) (ls : list L) (rs : list R)
  : list (L * option R) :=
  flat_map (fun l =>
    match filter (on l) rs with
    | [] => [(l, None)]
    | matches => map (fun r => (l, Some r)) matches
    end) ls.

Record ContentHit := mkContentHit {
  hit_content : string;
  hit_similarity : Q;
  documentTitle : option string;
  documentType : option string;
  hit_metadata : ChunkMetadata;
  hit_pageNumber : nat;
  hit_section : option string
}.

Record RepresentativeHit := mkRepresentativeHit {
  rhit_name : option string;
  rhit_constituency : option string;
  rhit_constituencyCode : option string;
  rhit_constituencyName : option string;
  rhit_district : option string;
  rhit_province : option string;
  rhit_party : option string;
  rhit_phone : option string;
  rhit_permanentAddress : option string;
  rhit_islamabadAddress : option string;
  rhit_content : string;
  rhit_similarity : Q
}.

(** [1 - (embedding <=> query)] *)
Definition similarityTo (query : Vector) (v : Vector) : Q :=
  (1 - cosineDistance svc v query)%Q.

Definition contentSimilarity (query : Vector)
  (row : EmbeddingRow * option DocumentRow) : Q :=
  similarityTo query (emb_embedding (fst row)).

Definition selectContent (query : Vector)
  (row : EmbeddingRow * option DocumentRow) : ContentHit :=
  let e := fst row in
  mkContentHit (emb_content e) (contentSimilarity query row)
    (option_map doc_title (snd row)) (option_map doc_type (snd row))
    (emb_metadata e) (pageNumber (emb_metadata e))
    (section (emb_metadata e)).

Definition contentThreshold : Q := 0.75%Q.
Definition contentLimit : nat := 6.

Definition queryContent (query : Vector) (w : World) : list ContentHit :=
  let joined :=
    leftJoin (fun e d => Nat.eqb (resourceId e) (doc_id d))
             (embeddings w) (documents w) in
  let matching :=
    filter (fun r => Qgtb (contentSimilarity query r) contentThreshold)
           joined in
  map (selectContent query)
    (firstn contentLimit
       (orderByDesc (sql svc) _ (contentSimilarity query) matching)).

Definition findRelevantContent (userQuery : string) : M (list ContentHit) :=
  userQueryEmbedded <-
    generateEmbeddings (mkChunk userQuery (mkChunkMetadata 1 None None)) ;;
  match userQueryEmbedded with
  | first :: _ =>
      w <- getWorld ;;
      if selectAnswered svc "embeddings"
      then ret (queryContent (embedding first) w)
      else throw (DatabaseError "embeddings")
  | [] => throw (TypeError "userQueryEmbedded[0] is undefined")
  end.

Definition representativeSimilarity (query : Vector)
  (row : RepresentativeEmbeddingRow * option RepresentativeRow) : Q :=
  similarityTo query (repemb_embedding (fst row)).

Definition selectRepresentative (query : Vector)
  (row : RepresentativeEmbeddingRow * option RepresentativeRow)
  : RepresentativeHit :=
  let r := snd row in
  let col {A} (f : RepresentativeRow -> A) := option_map f r in
  let ncol (f : RepresentativeRow -> option string) :=
    match r with Some x => f x | None => None end in
  mkRepresentativeHit
    (col nameClean) (col rep_constituency) (col rep_constituencyCode)
    (ncol rep_constituencyName) (ncol rep_district) (ncol rep_province)
    (col rep_party) (ncol rep_phone) (ncol rep_permanentAddress)
    (ncol rep_islamabadAddress)
    (repemb_content (fst row)) (representativeSimilarity query row).

Definition representativeThreshold : Q := 0.70%Q.
Definition representativeLimit : nat := 5.

Definition queryRepresentatives (query : Vector) (w : World)
  : list RepresentativeHit :=
  let joined :=
    leftJoin (fun e r => Nat.eqb (representativeId e) (rep_id r))
             (representativeEmbeddings w) (representatives w) in
  let matching :=
    filter (fun r =>
              Qgtb (representativeSimilarity query r) representativeThreshold)
           joined in
  map (selectRepresentative query)
    (firstn representativeLimit
       (orderByDesc (sql svc) _ (representativeSimilarity query) matching)).

Definition findRelevantRepresentatives (userQuery : string)
  : M (list RepresentativeHit) :=
  userQueryEmbedded <-
    generateEmbeddings (mkChunk userQuery (mkChunkMetadata 1 None None)) ;;
  match userQueryEmbedded with
  | first :: _ =>
      w <- getWorld ;;
      if selectAnswered svc "representative_embeddings"
      then ret (queryRepresentatives (embedding first) w)
      else throw (DatabaseError "representative_embeddings")
  | [] => throw (TypeError "userQueryEmbedded[0] is undefined")
  end.

End WithServices.

End Embedding.

(** ** app/api/chat/route.tsx (src/unnamed/part_002) *)

Module ChatRoute.

Import Embedding.

Record Message := mkMessage {
  role : string;
  msg_content : string
}.

(** What [streamText] is given: the conversation and the retrieved
    context placed in the system prompt. *)
Record Response := mkResponse {
  resp_messages : list Message;
  contextString : string
}.

Inductive SearchResult : Type :=
| RepresentativeResult (data : list RepresentativeHit)
| DocumentResult (data : list ContentHit).

Definition newline : string := String (ascii_of_nat 10) EmptyString.

(** A nullable column inside a template literal. *)
Definition show (v : option string) : string :=
  match v with
  | Some s => s
  | None => "null"
  end.

(** [a || b] on nullable strings. *)
Definition orElse (a b : option string) : option string :=
  match a with
  | Some s => if String.eqb s "" then b else a
  | None => b
  end.

Definition formatRepresentative (rep : RepresentativeHit) : string :=
  "Representative: " ++ show (rhit_name rep) ++ newline ++
  "Constituency: " ++ show (rhit_constituencyCode rep) ++ " - " ++
    show (orElse (rhit_constituencyName rep) (rhit_constituency rep))
    ++ newline ++
  "District: " ++ show (orElse (rhit_district rep) (Some "N/A")) ++ newline ++
  "Province: " ++ show (rhit_province rep) ++ newline ++
  "Party: " ++ show (rhit_party rep) ++ newline ++
  "Phone: " ++ show (orElse (rhit_phone rep) (Some "Not available"))
    ++ newline ++
  "Permanent Address: " ++
    show (orElse (rhit_permanentAddress rep) (Some "Not available"))
    ++ newline ++
  "Islamabad Address: " ++
    show (orElse (rhit_islamabadAddress rep) (Some "Not available"))
    ++ newline ++
  "---".

Definition formatDocument (c : ContentHit) : string :=
  "Document: " ++ show (documentTitle c) ++ newline ++
  "Type: " ++ show (documentType c) ++ newline ++
  "Content: " ++ hit_content c ++ newline ++
  "---".

Definition blankLine : string := newline ++ newline.

Definition repContext (reps : list RepresentativeHit) : string :=
  String.concat blankLine (map formatRepresentative reps).

Definition docContext (docs : list ContentHit) : string :=
  String.concat blankLine (map formatDocument docs).

Definition sourceSeparator : string :=
  blankLine ++ "=== DIFFERENT SOURCE TYPE ===" ++ blankLine.

(** One turn of the formatting loop: what the result pushes onto
    [contextParts]. *)
Definition contextPartsOf (result : SearchResult) : list string :=
  match result with
  | RepresentativeResult [] => []
  | RepresentativeResult reps => [repContext reps]
  | DocumentResult [] => []
  | DocumentResult docs => [docContext docs]
  end.

Definition assembleContext (results : list SearchResult) : string :=
  String.concat sourceSeparator (flat_map contextPartsOf results).

(** [queryTypes.includes(tag)] *)
Definition includes (queryTypes : list JSON) (tag : string) : bool :=
  existsb (fun t => match t with
                    | JString s => String.eqb s tag
                    | _ => false
                    end) queryTypes.

(** [messages[i]] for a JavaScript index. *)
Definition at_index {A} (l : list A) (i : Z) : option A :=
  if (i <? 0)%Z then None else nth_error l (Z.to_nat i).

Section Handler.

Variable detectQueryTypes : string -> M (list JSON).
Variable findRelevantRepresentatives : string -> M (list RepresentativeHit).
Variable findRelevantContent : string -> M (list ContentHit).

Definition searchPromises (queryTypes : list JSON) (query : string)
  : list (M SearchResult) :=
  (if includes queryTypes "representative"
   then [ reps <- findRelevantRepresentatives query ;;
          ret (RepresentativeResult reps) ]
   else [])
  ++
  (if includes queryTypes "bill" || includes queryTypes "document"
   then [ docs <- findRelevantContent query ;;
          ret (DocumentResult docs) ]
   else []).

Definition POST_with (messages : list Message) : M Response :=
  match at_index messages (Z.of_nat (length messages) - 1) with
  | None =>
      throw (TypeError
               "Cannot read properties of undefined (reading 'content')")
  | Some lastMessage =>
      let query := msg_content lastMessage in
      queryTypes <- detectQueryTypes query ;;
      results <- promiseAll (searchPromises queryTypes query) ;;
      ret (mkResponse messages (assembleContext results))
  end.

End Handler.

Definition POST (svc : Services) : list Message -> M Response :=
  POST_with (Embedding.detectQueryTypes svc)
            (Embedding.findRelevantRepresentatives svc)
            (Embedding.findRelevantContent svc).

End ChatRoute.

(** ** scripts/batch-ingest.ts (src/unnamed/part_016) *)

Module BatchIngest.

Import Embedding.

Record Options := mkOptions {
  filePath : string;
  title : string;
  type : string;
  status : option string;
  date : option string;
  skipExisting : bool
}.

Inductive IngestResult : Type :=
| Skipped
| Ingested (documentId : nat) (embeddingsCount : nat).

Definition batchSize : nat := 5.

(** [array.slice(from, to)] *)
Definition slice {A} (l : list A) (from to : nat) : list A :=
  firstn (to - from) (skipn from l).

(** The values [i] takes in [for (i = 0; i < length; i += batchSize)]. *)
Definition batchStarts (len : nat) : list nat :=
  map (fun k => k * batchSize) (seq 0 ((len + (batchSize - 1)) / batchSize)).

(** [a || b] on a nullable string option of the command line. *)
Definition orDefault (a : option string) (b : string) : string :=
  match a with
  | Some s => if String.eqb s "" then b else s
  | None => b
  end.

Section WithServices.

Variable svc : Services.

Definition checkIfProcessed (fileName : string) : M bool :=
  w <- getWorld ;;
  ret (negb (Nat.eqb
    (length (firstn 1
       (filter (fun d => String.eqb (originalFileName d) fileName)
               (documents w)))) 0)).

Definition insertDocument (title type text fileName : string)
  : M DocumentRow :=
  fun w =>
    let row := mkDocumentRow (nextId w) title type text fileName in
    (Ok row,
     mkWorld (documents w ++ [row]) (embeddings w) (bills w) (proceedings w)
             (representatives w) (representativeEmbeddings w)
             (apiCalls w) (S (nextId w))).

(** [chunk.metadata.pageNumber || 1] *)
Definition pageNumberOr1 (p : option nat) : nat :=
  match p with
  | Some (S n) => S n
  | _ => 1
  end.

Definition embedChunk (chunk : SplitDocument)
  : M (list (Embedded ChunkMetadata)) :=
  generateEmbeddings svc
    (mkChunk (split_pageContent chunk)
       (mkChunkMetadata (pageNumberOr1 (split_pageNumber chunk))
          (detectSection svc (split_pageContent chunk))
          (detectTimestamp svc (split_pageContent chunk)))).

(** The batch loop: one [Promise.all] per slice of five chunks, each
    result appended to [embeddingsArray]. *)
Fixpoint embedLoop (chunks : list SplitDocument) (starts : list nat)
  (embeddingsArray : list (list (Embedded ChunkMetadata)))
  : M (list (list (Embedded ChunkMetadata))) :=
  match starts with
  | [] => ret embeddingsArray
  | i :: rest =>
      batchEmbeddings <-
        promiseAll (map embedChunk (slice chunks i (i + batchSize))) ;;
      embedLoop chunks rest (embeddingsArray ++ batchEmbeddings)
  end.

(** Rows of one grouped insert, each with a generated key. *)
Fixpoint embeddingRows (key : nat) (resource : nat)
  (items : list (Embedded ChunkMetadata)) : list EmbeddingRow :=
  match items with
  | [] => []
  | x :: rest =>
      mkEmbeddingRow key resource (embedding x) (content x) (e_metadata x)
      :: embeddingRows (S key) resource rest
  end.

(** [db.insert(embeddingsTable).values(rows)]: one grouped write; the
    query builder refuses an empty list of rows. *)
Definition insertEmbeddings (resource : nat)
  (items : list (Embedded ChunkMetadata)) : M unit :=
  match items with
  | [] =>
      throw (DatabaseError "values() must be called with at least one value")
  | _ =>
      modifyWorld (fun w =>
        mkWorld (documents w)
                (embeddings w ++ embeddingRows (nextId w) resource items)
                (bills w) (proceedings w)
                (representatives w) (representativeEmbeddings w)
                (apiCalls w) (nextId w + length items))
  end.

Definition insertBill (row : BillRow) : M unit :=
  modifyWorld (fun w =>
    mkWorld (documents w) (embeddings w) (bills w ++ [row]) (proceedings w)
            (representatives w) (representativeEmbeddings w)
            (apiCalls w) (nextId w)).

Definition createProceeding (row : ProceedingRow) : M unit :=
  modifyWorld (fun w =>
    mkWorld (documents w) (embeddings w) (bills w) (proceedings w ++ [row])
            (representatives w) (representativeEmbeddings w)
            (apiCalls w) (nextId w)).

Definition readPDF (path : string) : M string :=
  match extractTextFromPDF svc path with
  | Some text => ret text
  | None => throw (FileError path)
  end.

(** Everything after the skip check. *)
Definition ingestFresh (options : Options) (fileName : string)
  : M IngestResult :=
  text <- readPDF (filePath options) ;;
  document <- insertDocument (title options) (type options) text fileName ;;
  let chunks := createDocuments svc text in
  embeddingsArray <- embedLoop chunks (batchStarts (length chunks)) [] ;;
  insertEmbeddings (doc_id document) (concat embeddingsArray) ;;;
  (if String.eqb (type options) "bill" then
     insertBill (mkBillRow (title options)
                   (orDefault (status options) "passed")
                   (generateBillSummary svc text) text)
   else if String.eqb (type options) "parliamentary_bulletin" then
     createProceeding (mkProceedingRow (title options)
                   (orDefault (date options)
                      (extractDateFromFilename svc fileName))
                   (generateProceedingSummary svc text) text)
   else ret tt) ;;;
  ret (Ingested (doc_id document) (length (concat embeddingsArray))).

Definition ingestDocument (options : Options) : M IngestResult :=
  let fileName := basename svc (filePath options) in
  if skipExisting options then
    processed <- checkIfProcessed fileName ;;
    if processed then ret Skipped else ingestFresh options fileName
  else ingestFresh options fileName.

End WithServices.

End BatchIngest.

(** ** The text splitter

    [ingestDocument] only configures and calls the chunker: it is the
    [RecursiveCharacterTextSplitter] class of the langchain package, whose
    code is not among the sources.  This module models it from the
    recursive separator cascade of section 4.1 of the spec, with the
    parameters [ingestDocument] passes (chunk size 1500, overlap 300, the
    eight separators, separators kept), and follows the package where the
    spec is silent. *)

Module TextSplitter.

Abbreviation text := (list ascii) (only parsing).

(** The characters [String.prototype.trim] removes. *)
Definition isSpace (c : ascii) : bool :=
  let n := nat_of_ascii c in
  (Nat.leb 9 n && Nat.leb n 13) || Nat.eqb n 32 || Nat.eqb n 160.

Fixpoint trimStart (t : text) : text :=
  match t with
  | c :: rest => if isSpace c then trimStart rest else t
  | [] => []
  end.

Definition trim (t : text) : text :=
  rev (trimStart (rev (trimStart t))).

Fixpoint startsWith (t prefix : text) : bool :=
  match prefix, t with
  | [], _ => true
  | p :: prefix', c :: t' => Ascii.eqb p c && startsWith t' prefix'
  | _ :: _, [] => false
  end.

(** [t.includes(s)] *)
Fixpoint includes (t s : text) : bool :=
  startsWith t s
  || match t with
     | [] => false
     | _ :: t' => includes t' s
     end.

(** [t.split(/(?=separator)/)] for a non-empty separator: the text is cut
    in front of every occurrence of the separator past its first
    character. *)
Fixpoint splitBefore (separator t : text) : list text :=
  match t with
  | [] => [[]]
  | c :: rest =>
      if startsWith rest separator then [c] :: splitBefore separator rest
      else match splitBefore separator rest with
           | piece :: pieces => (c :: piece) :: pieces
           | [] => [[c]]
           end
  end.

Definition nonEmpty (t : text) : bool :=
  match t with
  | [] => false
  | _ => true
  end.

(** [splitOnSeparator] with [keepSeparator] set. *)
Definition splitOnSeparator (t separator : text) : list text :=
  filter nonEmpty
    (match separator with
     | [] => map (fun c => [c]) t
     | _ => splitBefore separator t
     end).

(** [docs.join(separator)] *)
Fixpoint join (docs : list text) (separator : text) : text :=
  match docs with
  | [] => []
  | [d] => d
  | d :: rest => d ++ separator ++ join rest separator
  end.

Definition optList {A} (o : option A) : list A :=
  match o with
  | Some a => [a]
  | None => []
  end.

Section Splitter.

Variables chunkSize chunkOverlap : nat.

(** What becomes of a joined chunk: [Some] of its final text, or [None]
    when it is dropped. *)
Variable finish : text -> option text.

Definition joinDocs (docs : list text) (separator : text) : option text :=
  finish (join docs separator).

Record MergeState := mkMergeState {
  docs : list text;
  currentDoc : list text;
  total : nat
}.

(** The inner while loop of [mergeSplits]: pieces leave the front of
    [currentDoc] until what is left fits the overlap and the next piece. *)
Fixpoint shiftWhile (len sepLen : nat) (current : list text) (tot : nat)
  : list text * nat :=
  match current with
  | [] => ([], tot)
  | first :: rest =>
      if Nat.ltb chunkOverlap tot
         || (Nat.ltb chunkSize (tot + len + length current * sepLen)
             && Nat.ltb 0 tot)
      then shiftWhile len sepLen rest (tot - length first)
      else (current, tot)
  end.

Definition mergeStep (separator : text) (st : MergeState) (d : text)
  : MergeState :=
  let len := length d in
  if Nat.ltb chunkSize
       (total st + len + length (currentDoc st) * length separator)
  then
    match currentDoc st with
    | [] => mkMergeState (docs st) [d] (total st + len)
    | _ =>
        let shifted :=
          shiftWhile len (length separator) (currentDoc st) (total st) in
        mkMergeState (docs st ++ optList (joinDocs (currentDoc st) separator))
                     (fst shifted ++ [d]) (snd shifted + len)
    end
  else mkMergeState (docs st) (currentDoc st ++ [d]) (total st + len).

(** Modelled from the spec: [mergeSplits] of the splitter class, which is
    missing from the sources.  Pieces are joined into a chunk until the
    next piece would pass the chunk size (the spec's target chunk size);
    the chunk is then emitted, and the pieces at its end that fit the
    overlap open the next chunk (the spec's overlap between consecutive
    chunks). *)
Definition mergeSplits (splits : list text) (separator : text) : list text :=
  let st := fold_left (mergeStep separator) splits (mkMergeState [] [] 0) in
  docs st ++ optList (joinDocs (currentDoc st) separator).

(** [if (goodSplits.length) finalChunks.push(...mergeSplits(goodSplits, ""))] *)
Definition flush (goodSplits : list text) : list text :=
  match goodSplits with
  | [] => []
  | _ => mergeSplits goodSplits []
  end.

(** The loop of [_splitText] over the pieces; [newSeparators] is the
    recursive call on the remaining separators, when there is one. *)
Fixpoint collect (newSeparators : option (text -> list text))
  (splits goodSplits : list text) : list text :=
  match splits with
  | [] => flush goodSplits
  | s :: rest =>
      if Nat.ltb (length s) chunkSize
      then collect newSeparators rest (goodSplits ++ [s])
      else flush goodSplits
           ++ match newSeparators with
              | None => [s]
              | Some recurse => recurse s
              end
           ++ collect newSeparators rest []
  end.

Definition chunksWith (separator : text)
  (newSeparators : option (text -> list text)) (t : text) : list text :=
  collect newSeparators (splitOnSeparator t separator) [].

(** Modelled from the spec: [_splitText] of the splitter class, which is
    missing from the sources; the spec's recursive separator cascade.  The
    first separator that is empty or occurs in the text is used, the last
    one of the list ([fallback]) when none does; pieces that are still too
    long are split again with the separators after it, and the empty
    separator cuts character by character. *)
Fixpoint splitTextFrom (separators : list text) (fallback : text) (t : text)
  {struct separators} : list text :=
  match separators with
  | [] => chunksWith fallback None t
  | [] :: _ => chunksWith [] None t
  | s :: rest =>
      if includes t s
      then chunksWith s (Some (splitTextFrom rest (last rest []))) t
      else splitTextFrom rest fallback t
  end.

Definition splitTextWith (separators : list text) (t : text) : list text :=
  splitTextFrom separators (last separators []) t.

End Splitter.

(** Modelled from the spec: [joinDocs] of the splitter class, which is
    missing from the sources.  The spec does not say what becomes of the
    whitespace at the ends of a chunk; the package trims the joined text
    and drops it when nothing is left. *)
Definition trimmed (t : text) : option text :=
  match trim t with
  | [] => None
  | t' => Some t'
  end.

(** The splitter as [ingestDocument] constructs it. *)
Definition chunkSize : nat := 1500.
Definition chunkOverlap : nat := 300.

Definition separators : list text :=
  map list_ascii_of_string
    [ String (ascii_of_nat 10) (String (ascii_of_nat 10) EmptyString);
      String (ascii_of_nat 10) EmptyString;
      "."; "!"; "?"; ","; " "; "" ].

(** Modelled from the spec: [splitText] of the splitter that
    [ingestDocument] constructs; the class is missing from the sources. *)
Definition splitText (t : text) : list text :=
  splitTextWith chunkSize chunkOverlap trimmed separators t.

(** [splitter.createDocuments([text])]: one document per chunk; the
    splitter records line positions and no page number. *)
Definition createDocuments (t : string) : list SplitDocument :=
  map (fun chunk => mkSplitDocument (string_of_list_ascii chunk) None)
      (splitText (list_ascii_of_string t)).

End TextSplitter.

(** ** JavaScript strings

    The string methods the scripts call, on a string taken as the list
    of its code units.  Case mapping is the one of the ASCII letters;
    code units above 127 are left as they are. *)

Module Js.

Abbreviation text := (list ascii) (only parsing).

Definition chars (s : string) : text := list_ascii_of_string s.

Definition str (t : text) : string := string_of_list_ascii t.

Definition code (c : ascii) : nat := nat_of_ascii c.

Definition between (low high : nat) (c : ascii) : bool :=
  Nat.leb low (code c) && Nat.leb (code c) high.

(** [\d] *)
Definition isDigit : ascii -> bool := between 48 57.

Definition isUpper : ascii -> bool := between 65 90.

Definition isLower : ascii -> bool := between 97 122.

Definition isAscii (c : ascii) : bool := Nat.leb (code c) 127.

Definition toUpper (c : ascii) : ascii :=
  if isLower c then ascii_of_nat (code c - 32) else c.

Definition toLower (c : ascii) : ascii :=
  if isUpper c then ascii_of_nat (code c + 32) else c.

Definition toUpperCase (t : text) : text := map toUpper t.

Definition toLowerCase (t : text) : text := map toLower t.

Fixpoint startsWith (t searchString : text) : bool :=
  match searchString, t with
  | [], _ => true
  | p :: ps, c :: cs => Ascii.eqb c p && startsWith cs ps
  | _ :: _, [] => false
  end.

Definition endsWith (t searchString : text) : bool :=
  startsWith (rev t) (rev searchString).

(** [t.includes(searchString)] *)
Fixpoint includes (t searchString : text) : bool :=
  startsWith t searchString
  || match t with
     | [] => false
     | _ :: rest => includes rest searchString
     end.

(** [t.substring(from, to)] for [0 <= from <= to]. *)
Definition substring (t : text) (from to : nat) : text :=
  firstn (to - from) (skipn from t).

(** [t.split(separator)] for a separator of one character. *)
Fixpoint split (t : text) (separator : ascii) : list text :=
  match t with
  | [] => [[]]
  | c :: rest =>
      if Ascii.eqb c separator then [] :: split rest separator
      else match split rest separator with
           | part :: parts => (c :: part) :: parts
           | [] => [[c]]
           end
  end.

(** [parts.join(separator)] *)
Fixpoint join (parts : list text) (separator : text) : text :=
  match parts with
  | [] => []
  | [part] => part
  | part :: rest => part ++ separator ++ join rest separator
  end.

(** White space and line terminators among the code units below 256. *)
Definition isWhiteSpace (c : ascii) : bool :=
  between 9 13 c || Nat.eqb (code c) 32 || Nat.eqb (code c) 160.

Fixpoint trimStart (t : text) : text :=
  match t with
  | c :: rest => if isWhiteSpace c then trimStart rest else t
  | [] => []
  end.

Definition trim (t : text) : text := rev (trimStart (rev (trimStart t))).

(** The default order of [Array.prototype.sort] on strings: by code
    units. *)
Fixpoint insertSorted (s : string) (sorted : list string) : list string :=
  match sorted with
  | [] => [s]
  | x :: rest =>
      if String.leb s x then s :: x :: rest else x :: insertSorted s rest
  end.

Definition sort (l : list string) : list string :=
  fold_right insertSorted [] l.

End Js.

(** ** scripts/batch-ingest.ts: the command line (src/unnamed/part_016) *)

Module BatchScript.

Import Js.

(** *** Titles and dates read off a file name *)

(** [title.replace(/\.pdf$/i, '')] *)
Definition removePdfExtension (fileName : text) : text :=
  if endsWith (toLowerCase fileName) (chars ".pdf")
  then firstn (length fileName - 4) fileName
  else fileName.

(** [title.replace(/[_-]/g, ' ')] *)
Definition spaceOut (c : ascii) : ascii :=
  if Ascii.eqb c "_" || Ascii.eqb c "-" then " "%char else c.

(** [word.charAt(0).toUpperCase() + word.slice(1).toLowerCase()] *)
Definition capitalize (word : text) : text :=
  toUpperCase (firstn 1 word) ++ toLowerCase (skipn 1 word).

Definition extractTitle (fileName : string) : string :=
  let title := removePdfExtension (chars fileName) in
  let title := map spaceOut title in
  str (join (map capitalize (split title " ")) (chars " ")).

(** A regular expression that is a sequence of one-character classes. *)
Definition Pattern := list (ascii -> bool).

Fixpoint matchesAt (pattern : Pattern) (t : text) : bool :=
  match pattern, t with
  | [], _ => true
  | class :: classes, c :: cs => class c && matchesAt classes cs
  | _ :: _, [] => false
  end.

(** [t.match(pattern)]: the leftmost place where the pattern matches. *)
Fixpoint search (pattern : Pattern) (t : text) : option text :=
  if matchesAt pattern t then Some (firstn (length pattern) t)
  else match t with
       | [] => None
       | _ :: rest => search pattern rest
       end.

Definition dash (c : ascii) : bool := Ascii.eqb c "-".

(** [/(\d{4}-\d{2}-\d{2})/] *)
Definition yearFirst : Pattern :=
  [isDigit; isDigit; isDigit; isDigit; dash; isDigit; isDigit; dash;
   isDigit; isDigit].

(** [/(\d{2}-\d{2}-\d{4})/] *)
Definition dayFirst : Pattern :=
  [isDigit; isDigit; dash; isDigit; isDigit; dash; isDigit; isDigit;
   isDigit; isDigit].

(** [/(\d{8})/] *)
Definition eightDigits : Pattern := repeat isDigit 8.

Definition patterns : list Pattern := [yearFirst; dayFirst; eightDigits].

(** One turn of a loop whose body may return, throw or fall through. *)
Inductive Step (A : Type) : Type :=
| Return (a : A)
| Raise (e : Exn)
| Next.
Arguments Return {A} a.
Arguments Raise {A} e.
Arguments Next {A}.

(** The body of the loop once the pattern has matched [dateStr]. *)
Definition formatMatch (dateStr : text) : Step text :=
  if Nat.eqb (length dateStr) 8 then
    Return (substring dateStr 0 4 ++ chars "-" ++ substring dateStr 4 6
            ++ chars "-" ++ substring dateStr 6 8)
  else if includes dateStr (chars "-") then
    match split dateStr "-" with
    | first :: rest =>
        if Nat.eqb (length first) 4 then Return dateStr
        else
          match rest with
          | second :: third :: _ =>
              if Nat.eqb (length third) 4
              then Return (third ++ chars "-" ++ second ++ chars "-" ++ first)
              else Next
          | _ =>
              Raise (TypeError
                "Cannot read properties of undefined (reading 'length')")
          end
    | [] =>
        Raise (TypeError
          "Cannot read properties of undefined (reading 'length')")
    end
  else Next.

Fixpoint firstDate (patterns : list Pattern) (fileName : text) : Step text :=
  match patterns with
  | [] => Next
  | pattern :: rest =>
      match search pattern fileName with
      | Some dateStr =>
          match formatMatch dateStr with
          | Next => firstDate rest fileName
          | step => step
          end
      | None => firstDate rest fileName
      end
  end.

(** [today] is [new Date().toISOString().split('T')[0]]. *)
Definition extractDateFromFilename (today : string) (fileName : string)
  : Outcome string :=
  match firstDate patterns (chars fileName) with
  | Return d => Ok (str d)
  | Raise e => Throw e
  | Next => Ok today
  end.

(** *** The arguments *)

Module Cli.

Record Options := mkOptions {
  directory : string;
  type : option string;
  status : option string;
  date : option string;
  (** [None] stands for [null] and for [NaN] *)
  limit : option Z;
  skipExisting : bool;
  dryRun : bool
}.

Definition defaults : Options :=
  mkOptions "./docs" (Some "bill") (Some "passed") None None false false.

Definition withDirectory (v : string) (o : Options) : Options :=
  mkOptions v (type o) (status o) (date o) (limit o) (skipExisting o)
            (dryRun o).

Definition withType (v : option string) (o : Options) : Options :=
  mkOptions (directory o) v (status o) (date o) (limit o) (skipExisting o)
            (dryRun o).

Definition withStatus (v : option string) (o : Options) : Options :=
  mkOptions (directory o) (type o) v (date o) (limit o) (skipExisting o)
            (dryRun o).

Definition withDate (v : option string) (o : Options) : Options :=
  mkOptions (directory o) (type o) (status o) v (limit o) (skipExisting o)
            (dryRun o).

Definition withLimit (v : option Z) (o : Options) : Options :=
  mkOptions (directory o) (type o) (status o) (date o) v (skipExisting o)
            (dryRun o).

Definition withSkipExisting (o : Options) : Options :=
  mkOptions (directory o) (type o) (status o) (date o) (limit o) true
            (dryRun o).

Definition withDryRun (o : Options) : Options :=
  mkOptions (directory o) (type o) (status o) (date o) (limit o)
            (skipExisting o) true.

(** What [parseArgs] does: print the usage text and leave with status 0,
    or return the options. *)
Inductive Parsed : Type :=
| Usage
| Parse (options : Options).

Section WithParseInt.

(** [parseInt(value, 10)] of a string or of [undefined]; [None] is
    [NaN]. *)
Variable parseInt : option string -> option Z.

(** The flag loop from index [i] on: [args] is what is left of the
    array. *)
Fixpoint parseFlags (args : list string) (options : Options) : Options :=
  match args with
  | [] => options
  | arg :: rest =>
      if String.eqb arg "--type" then
        match rest with
        | value :: rest' => parseFlags rest' (withType (Some value) options)
        | [] => withType None options
        end
      else if String.eqb arg "--status" then
        match rest with
        | value :: rest' => parseFlags rest' (withStatus (Some value) options)
        | [] => withStatus None options
        end
      else if String.eqb arg "--date" then
        match rest with
        | value :: rest' => parseFlags rest' (withDate (Some value) options)
        | [] => withDate None options
        end
      else if String.eqb arg "--limit" then
        match rest with
        | value :: rest' =>
            parseFlags rest' (withLimit (parseInt (Some value)) options)
        | [] => withLimit (parseInt None) options
        end
      else if String.eqb arg "--skip-existing" then
        parseFlags rest (withSkipExisting options)
      else if String.eqb arg "--dry-run" then
        parseFlags rest (withDryRun options)
      else parseFlags rest options
  end.

Definition has (args : list string) (flag : string) : bool :=
  existsb (String.eqb flag) args.

(** [args] is [process.argv.slice(2)]. *)
Definition parseArgs (args : list string) : Parsed :=
  if has args "--help" || has args "-h" then Usage
  else
    let options :=
      match args with
      | first :: _ =>
          if negb (String.eqb first "") && negb (String.prefix "--" first)
          then withDirectory first defaults
          else defaults
      | [] => defaults
      end in
    Parse (parseFlags args options).

End WithParseInt.

End Cli.

(** *** The run *)

(** The object [main] hands to [ingestDocument]. *)
Record IngestCall := mkIngestCall {
  filePath : string;
  title : string;
  type : option string;
  status : option string;
  date : option string;
  skipExisting : bool
}.

Record Counts := mkCounts {
  processed : nat;
  skipped : nat;
  failed : nat
}.

(** One entry of the dry-run listing. *)
Record PreviewLine := mkPreviewLine {
  wouldSkip : bool;
  line_fileName : string;
  line_title : string
}.

(** What a run prints last. *)
Inductive Report : Type :=
| UsageShown
| NoFiles (directory : string)
| Preview (lines : list PreviewLine)
| Summary (counts : Counts) (total : nat)
| Fatal (e : Exn).

Record Exit := mkExit {
  report : Report;
  exitCode : nat
}.

Section Script.

Variable parseInt : option string -> option Z.
(** [fs.readdirSync]; [None] when it throws *)
Variable readdirSync : string -> option (list string).
(** [path.join] and [path.basename] *)
Variable pathJoin : string -> string -> string.
Variable basename : string -> string.
Variable checkIfProcessed : string -> M bool.
Variable ingestDocument : IngestCall -> M BatchIngest.IngestResult.

Definition isPdf (file : string) : bool :=
  endsWith (toLowerCase (chars file)) (chars ".pdf").

Definition getPDFFiles (directory : string) : list string :=
  match readdirSync directory with
  | Some files => sort (map (pathJoin directory) (filter isPdf files))
  | None => []
  end.

(** [pdfFiles.slice(0, options.limit)] when the limit is set and
    positive. *)
Definition applyLimit (limit : option Z) (pdfFiles : list string)
  : list string :=
  match limit with
  | Some n => if (0 <? n)%Z then firstn (Z.to_nat n) pdfFiles else pdfFiles
  | None => pdfFiles
  end.

(** The loop of the dry run. *)
Fixpoint preview (options : Cli.Options) (pdfFiles : list string)
  : M (list PreviewLine) :=
  match pdfFiles with
  | [] => ret []
  | file :: rest =>
      let fileName := basename file in
      let title := extractTitle fileName in
      alreadyProcessed <- checkIfProcessed fileName ;;
      lines <- preview options rest ;;
      ret (mkPreviewLine (alreadyProcessed && Cli.skipExisting options)
             fileName title :: lines)
  end.

Definition callFor (options : Cli.Options) (file : string) : IngestCall :=
  mkIngestCall file (extractTitle (basename file)) (Cli.type options)
    (Cli.status options) (Cli.date options) (Cli.skipExisting options).

(** One turn of the ingestion loop: the call inside [try], the counters
    after it. *)
Definition ingestOne (options : Cli.Options) (file : string)
  (counts : Counts) : M Counts :=
  fun w =>
    match ingestDocument (callFor options file) w with
    | (Ok BatchIngest.Skipped, w') =>
        (Ok (mkCounts (processed counts) (S (skipped counts))
               (failed counts)), w')
    | (Ok (BatchIngest.Ingested _ _), w') =>
        (Ok (mkCounts (S (processed counts)) (skipped counts)
               (failed counts)), w')
    | (Throw _, w') =>
        (Ok (mkCounts (processed counts) (skipped counts)
               (S (failed counts))), w')
    end.

Fixpoint ingestAll (options : Cli.Options) (pdfFiles : list string)
  (counts : Counts) : M Counts :=
  match pdfFiles with
  | [] => ret counts
  | file :: rest =>
      counts' <- ingestOne options file counts ;;
      ingestAll options rest counts'
  end.

Definition main (args : list string) : M Exit :=
  match Cli.parseArgs parseInt args with
  | Cli.Usage => ret (mkExit UsageShown 0)
  | Cli.Parse options =>
      let pdfFiles := getPDFFiles (Cli.directory options) in
      if Nat.eqb (length pdfFiles) 0
      then ret (mkExit (NoFiles (Cli.directory options)) 1)
      else
        let pdfFiles := applyLimit (Cli.limit options) pdfFiles in
        if Cli.dryRun options then
          lines <- preview options pdfFiles ;;
          ret (mkExit (Preview lines) 0)
        else
          counts <- ingestAll options pdfFiles (mkCounts 0 0 0) ;;
          ret (mkExit (Summary counts (length pdfFiles))
                 (if Nat.ltb 0 (failed counts) then 1 else 0))
  end.

(** [main().catch(...)]: what the process exits with. *)
Definition run (args : list string) (w : World) : Exit * World :=
  match main args w with
  | (Ok exit, w') => (exit, w')
  | (Throw e, w') => (mkExit (Fatal e) 1, w')
  end.

End Script.

(** The script's own [checkIfProcessed] and [ingestDocument].  A run
    whose [--type] came last, without a value, calls [ingestDocument]
    with an undefined type; what the insert of its document row does
    then is decided by the schema of the documents table, which is not
    among the sources, and is left to [untyped]. *)
Definition ingestDocumentOf (svc : Services)
  (untyped : IngestCall -> M BatchIngest.IngestResult) (call : IngestCall)
  : M BatchIngest.IngestResult :=
  match type call with
  | Some t =>
      BatchIngest.ingestDocument svc
        (BatchIngest.mkOptions (filePath call) (title call) t (status call)
           (date call) (skipExisting call))
  | None => untyped call
  end.

End BatchScript.

(** ** scripts/batch-ingest.ts: the summaries (src/unnamed/part_016)

    [generateBillSummary] and [generateProceedingSummary] post one chat
    completion request and read the answer inside a [try] block. *)

Module Summaries.

Import Js.

Record ChatRequest := mkChatRequest {
  url : string;
  authorization : string;
  model : string;
  systemContent : string;
  userContent : string;
  temperature : Q;
  max_tokens : nat;
  (** [AbortSignal.timeout], in milliseconds *)
  timeout : nat
}.

(** What awaiting [fetch] gives: a rejection (network error, abort), or
    a response with its [ok] flag, its status and the value
    [response.json()] resolves to, [None] when that is rejected. *)
Inductive Fetched : Type :=
| Rejected (message : string)
| Responded (ok : bool) (status : nat) (body : option JSON).

(** The properties the code reads. *)
Inductive Key : Type :=
| choices
| first
| message
| content.

Definition keyName (key : Key) : string :=
  match key with
  | choices => "choices"
  | first => "0"
  | message => "message"
  | content => "content"
  end.

(** The member of an object: of several members with one name the
    parser keeps the last. *)
Fixpoint member (fields : list (string * JSON)) (name : string)
  : option JSON :=
  match fields with
  | [] => None
  | (k, v) :: rest =>
      match member rest name with
      | Some later => Some later
      | None => if String.eqb k name then Some v else None
      end
  end.

Definition cannotRead (key : string) : Exn :=
  TypeError ("Cannot read properties of undefined (reading '" ++ key ++ "')").

(** [v[key]], where [None] is [undefined]. *)
Definition get (v : option JSON) (key : Key) : Outcome (option JSON) :=
  match v with
  | None => Throw (cannotRead (keyName key))
  | Some JNull => Throw (cannotRead (keyName key))
  | Some (JObject fields) => Ok (member fields (keyName key))
  | Some (JArray items) =>
      Ok match key with
         | first => nth_error items 0
         | _ => None
         end
  | Some (JString s) =>
      Ok match key, s with
         | first, String c _ => Some (JString (String c EmptyString))
         | _, _ => None
         end
  | Some (JBool _) => Ok None
  | Some (JNumber _) => Ok None
  end.

(** [v.trim()] *)
Definition callTrim (v : option JSON) : Outcome string :=
  match v with
  | Some (JString s) => Ok (str (trim (chars s)))
  | None => Throw (cannotRead "trim")
  | Some JNull => Throw (cannotRead "trim")
  | Some _ => Throw (TypeError "trim is not a function")
  end.

Definition andThen {A B} (a : Outcome A) (k : A -> Outcome B) : Outcome B :=
  match a with
  | Ok x => k x
  | Throw e => Throw e
  end.

Definition failedText : string := "Summary generation failed.".

Section WithFetch.

(** [process.env.OPENAI_API_KEY] *)
Variable apiKey : option string.
Variable fetch : ChatRequest -> Fetched.

Definition bearer : string :=
  "Bearer " ++ match apiKey with
               | Some key => key
               | None => "undefined"
               end.

(** The body of the [try] block, once the request is made up. *)
Definition complete (request : ChatRequest) : Outcome string :=
  match fetch request with
  | Rejected reason => Throw (ApiCallError reason)
  | Responded ok status body =>
      if negb ok then Throw (ApiCallError "OpenAI API error")
      else
        match body with
        | None => Throw (ApiCallError "response.json()")
        | Some data =>
            andThen (get (Some data) choices) (fun v =>
            andThen (get v first) (fun v =>
            andThen (get v message) (fun v =>
            andThen (get v content) callTrim)))
        end
  end.

#[warnings="-abstract-large-number"]
Definition billRequest (text : string) : ChatRequest :=
  mkChatRequest "https://api.openai.com/v1/chat/completions" bearer "gpt-4o"
    "You are a legal expert specializing in summarizing legislative bills. Create clear, concise summaries that highlight the key points, main objectives, and potential impacts of the bill."
    ("Please provide a concise summary of this bill: "
     ++ str (substring (chars text) 0 8000))
    0.3%Q 500 30000.

Definition generateBillSummary (text : string) : string :=
  match complete (billRequest text) with
  | Ok summary => summary
  | Throw _ => failedText
  end.

#[warnings="-abstract-large-number"]
Definition proceedingRequest (text : string) : ChatRequest :=
  mkChatRequest "https://api.openai.com/v1/chat/completions" bearer "gpt-4o"
    "You are an expert in parliamentary proceedings. Summarize the key discussions, decisions, and actions from this parliamentary bulletin in a detailed manner."
    ("Please provide a detailed summary of this parliamentary proceeding: "
     ++ str (substring (chars text) 0 8000))
    0.3%Q 800 30000.

Definition generateProceedingSummary (text : string) : string :=
  match complete (proceedingRequest text) with
  | Ok summary => summary
  | Throw _ => failedText
  end.

End WithFetch.

End Summaries.

(** ** The script that moves the capital's constituencies to their
    province (src/unnamed/part_016) *)

Module FixIctProvinces.

Import Js.

(** [column LIKE '%ICT%'] *)
Definition likeICT (column : string) : bool :=
  includes (chars column) (chars "ICT").

(** The [WHERE] clause; a [LIKE] on a null district is null, and the
    [OR] then holds only if the constituency matches. *)
Definition inICT (r : RepresentativeRow) : bool :=
  likeICT (rep_constituency r)
  || match rep_district r with
     | Some district => likeICT district
     | None => false
     end.

Definition setProvince (province : string) (r : RepresentativeRow)
  : RepresentativeRow :=
  mkRepresentativeRow (rep_id r) (nameClean r) (rep_constituency r)
    (rep_constituencyCode r) (rep_constituencyName r) (rep_district r)
    (Some province) (rep_party r) (rep_phone r) (rep_permanentAddress r)
    (rep_islamabadAddress r).

(** What the script prints: the number of rows the update matched and
    the rows of the select that follows it. *)
Record FixReport := mkFixReport {
  rowCount : nat;
  ictReps : list RepresentativeRow
}.

Definition fixICTProvinces : M FixReport :=
  fun w =>
    let updated :=
      map (fun r => if inICT r
                    then setProvince "Islamabad Capital Territory" r
                    else r) (representatives w) in
    (Ok (mkFixReport
           (length (filter inICT (representatives w)))
           (filter (fun r => likeICT (rep_constituency r)) updated)),
     mkWorld (documents w) (embeddings w) (bills w) (proceedings w)
             updated (representativeEmbeddings w) (apiCalls w) (nextId w)).

End FixIctProvinces.

(** ** app/api/representatives/filters/route.ts (src/unnamed/part_002) *)

Module FiltersRoute.

(** [ORDER BY column] on a text column: the rows come back arranged by
    the collation of the database. *)
Record Collation := mkCollation {
  precedes : string -> string -> Prop;
  orderBy : list string -> list string;
  orderBy_perm : forall rows, Permutation (orderBy rows) rows;
  orderBy_sorted : forall rows, Sorted precedes (orderBy rows)
}.

Inductive FiltersResponse : Type :=
| FilterOptions (provinces parties districts : list string)
| FilterError (error : string) (status : nat).

Definition notNull (value : option string) : list string :=
  match value with
  | Some v => [v]
  | None => []
  end.

Section WithDatabase.

Variable svc : Services.
Variable collation : Collation.

(** [selectDistinct({c: column}).where(column IS NOT NULL)
    .orderBy(column)]: one row per value, each with a nullable field. *)
Definition selectDistinct (column : RepresentativeRow -> option string)
  (w : World) : list (option string) :=
  map Some
    (orderBy collation
       (nodup string_dec (flat_map (fun r => notNull (column r))
                                   (representatives w)))).

(** [.map((r) => r.column).filter((p) => p !== null)] *)
Definition values (rows : list (option string)) : list string :=
  flat_map notNull rows.

Definition GET : M FiltersResponse :=
  w <- getWorld ;;
  if selectAnswered svc "representatives" then
    let provincesResult := selectDistinct rep_province w in
    let partiesResult := selectDistinct (fun r => Some (rep_party r)) w in
    let districtsResult := selectDistinct rep_district w in
    ret (FilterOptions (values provincesResult) (values partiesResult)
           (values districtsResult))
  else ret (FilterError "Failed to fetch filter options" 500).

End WithDatabase.

End FiltersRoute.

(** ** scripts/generate-representative-embeddings.ts

    The caller of [generateEmbedding]: one profile embedding for every
    representative that has none yet. *)

Module RepresentativeEmbeddingsScript.

(** The argument of [createProfileEmbeddingContent].  A date is kept as
    [toLocaleDateString] renders it. *)
Module Profile.

Record t := make {
  name : string;
  nameClean : string;
  constituency : string;
  constituencyName : option string;
  party : string;
  province : option string;
  district : option string;
  phone : option string;
  permanentAddress : option string;
  islamabadAddress : option string;
  fatherName : option string;
  oathTakingDate : option string
}.

End Profile.

(** [if (value) parts.push(label + value)] *)
Definition pushed (label : string) (value : option string) : list string :=
  match value with
  | Some v => if String.eqb v "" then [] else [(label ++ v)%string]
  | None => []
  end.

Definition createProfileEmbeddingContent (rep : Profile.t) : string :=
  String.concat ChatRoute.newline
    ([("Representative: " ++ Profile.name rep)%string]
     ++ pushed "Father: " (Profile.fatherName rep)
     ++ [("Constituency: " ++ Profile.constituency rep)%string]
     ++ pushed "Area: " (Profile.constituencyName rep)
     ++ pushed "District: " (Profile.district rep)
     ++ pushed "Province: " (Profile.province rep)
     ++ [("Party: " ++ Profile.party rep)%string]
     ++ match Profile.oathTakingDate rep with
        | Some date => [("Oath Date: " ++ date)%string]
        | None => []
        end
     ++ pushed "Phone: " (Profile.phone rep)
     ++ pushed "Permanent Address: " (Profile.permanentAddress rep)
     ++ pushed "Islamabad Address: " (Profile.islamabadAddress rep)).

Definition BATCH_SIZE : nat := 5.

(** One entry of [errors]. *)
Record Failure := mkFailure {
  failedRep : string;
  error : string
}.

Record Tally := mkTally {
  processed : nat;
  errors : list Failure
}.

(** What the run prints last, and the status it exits with. *)
Inductive Report : Type :=
| UpToDate
| Generated (tally : Tally)
| FatalError (e : Exn).

Record Exit := mkExit {
  report : Report;
  exitCode : nat
}.

(** [error.message] *)
Definition messageOf (e : Exn) : string :=
  match e with
  | TypeError msg => msg
  | ApiCallError service => service
  | DatabaseError table => table
  | FileError path => path
  end.

Section Script.

Variable svc : Services.
(** The columns [name], [father_name] and [oath_taking_date] of a row,
    which [RepresentativeRow] does not hold. *)
Variable otherColumns :
  RepresentativeRow -> string * option string * option string.

Definition profileOf (rep : RepresentativeRow) : Profile.t :=
  let '(name, fatherName, oathTakingDate) := otherColumns rep in
  Profile.make name (nameClean rep) (rep_constituency rep)
    (rep_constituencyName rep) (rep_party rep) (rep_province rep)
    (rep_district rep) (rep_phone rep) (rep_permanentAddress rep)
    (rep_islamabadAddress rep) fatherName oathTakingDate.

Definition insertEmbedding (rep : RepresentativeRow) (content : string)
  (embedding : Vector) : M unit :=
  modifyWorld (fun w =>
    mkWorld (documents w) (embeddings w) (bills w) (proceedings w)
            (representatives w)
            (representativeEmbeddings w ++
             [mkRepresentativeEmbeddingRow (nextId w) (rep_id rep) content
                embedding])
            (apiCalls w) (S (nextId w))).

(** The task of one representative, with its own [try] and [catch]. *)
Definition processOne (rep : RepresentativeRow) (tally : Tally) : M Tally :=
  fun w =>
    let content := createProfileEmbeddingContent (profileOf rep) in
    match (embedding <- Embedding.generateEmbedding svc content ;;
           insertEmbedding rep content embedding) w with
    | (Ok _, w') => (Ok (mkTally (S (processed tally)) (errors tally)), w')
    | (Throw e, w') =>
        (Ok (mkTally (processed tally)
               (errors tally ++
                [mkFailure (nameClean rep ++ " ("
                            ++ rep_constituencyCode rep ++ ")")%string
                   (messageOf e)])), w')
    end.

(** [Promise.allSettled] over the tasks of one batch, taken in the
    order of the batch. *)
Fixpoint allSettled (batch : list RepresentativeRow) (tally : Tally)
  : M Tally :=
  match batch with
  | [] => ret tally
  | rep :: rest =>
      tally' <- processOne rep tally ;;
      allSettled rest tally'
  end.

(** The values [i] takes in the batch loop. *)
Definition batchStarts (len : nat) : list nat :=
  map (fun k => k * BATCH_SIZE)
      (seq 0 ((len + (BATCH_SIZE - 1)) / BATCH_SIZE)).

Fixpoint batchLoop (repsToProcess : list RepresentativeRow)
  (starts : list nat) (tally : Tally) : M Tally :=
  match starts with
  | [] => ret tally
  | i :: rest =>
      tally' <-
        allSettled (BatchIngest.slice repsToProcess i (i + BATCH_SIZE))
                   tally ;;
      batchLoop repsToProcess rest tally'
  end.

Definition select {A} (table : string) (rows : World -> list A)
  : M (list A) :=
  w <- getWorld ;;
  if selectAnswered svc table then ret (rows w)
  else throw (DatabaseError table).

(** [!existingIds.has(rep.id)] *)
Definition isMissing (existingIds : list nat) (rep : RepresentativeRow)
  : bool :=
  negb (existsb (Nat.eqb (rep_id rep)) existingIds).

(** The body of the outer [try]. *)
Definition generate : M Exit :=
  reps <- select "representatives" representatives ;;
  existing <- select "representative_embeddings"
                (fun w => map representativeId (representativeEmbeddings w)) ;;
  let repsToProcess := filter (isMissing existing) reps in
  if Nat.eqb (length repsToProcess) 0 then ret (mkExit UpToDate 0)
  else
    tally <- batchLoop repsToProcess (batchStarts (length repsToProcess))
               (mkTally 0 []) ;;
    ret (mkExit (Generated tally)
           (if Nat.ltb 0 (length (errors tally)) then 1 else 0)).

Definition generateRepresentativeEmbeddings : World -> Exit * World :=
  fun w =>
    match generate w with
    | (Ok exit, w') => (exit, w')
    | (Throw e, w') => (mkExit (FatalError e) 1, w')
    end.

End Script.

End RepresentativeEmbeddingsScript.

(** ** scripts/ingest-pdf.ts: the arguments
    (src/scripts/generate-representative-embeddings.ts, second part) *)

Module IngestPdf.

Record Options := mkOptions {
  filePath : string;
  title : option string;
  type : option string;
  billNumber : option string;
  sessionNumber : option string;
  status : option string;
  passageDate : option string;
  bulletinDate : option string
}.

(** [process.exit(code)], or the options returned. *)
Inductive Parsed : Type :=
| Exit (code : nat)
| Parse (options : Options).

(** [arg.replace(/^--/, '')] *)
Definition keyOf (arg : string) : string :=
  if String.prefix "--" arg
  then String.substring 2 (String.length arg - 2) arg
  else arg.

(** The [switch]. *)
Definition assign (key : string) (value : option string) (o : Options)
  : Options :=
  if String.eqb key "title" then
    mkOptions (filePath o) value (type o) (billNumber o) (sessionNumber o)
      (status o) (passageDate o) (bulletinDate o)
  else if String.eqb key "type" then
    mkOptions (filePath o) (title o) value (billNumber o) (sessionNumber o)
      (status o) (passageDate o) (bulletinDate o)
  else if String.eqb key "bill-number" then
    mkOptions (filePath o) (title o) (type o) value (sessionNumber o)
      (status o) (passageDate o) (bulletinDate o)
  else if String.eqb key "session-number" then
    mkOptions (filePath o) (title o) (type o) (billNumber o) value
      (status o) (passageDate o) (bulletinDate o)
  else if String.eqb key "status" then
    mkOptions (filePath o) (title o) (type o) (billNumber o)
      (sessionNumber o) value (passageDate o) (bulletinDate o)
  else if String.eqb key "passage-date" then
    mkOptions (filePath o) (title o) (type o) (billNumber o)
      (sessionNumber o) (status o) value (bulletinDate o)
  else if String.eqb key "date" then
    mkOptions (filePath o) (title o) (type o) (billNumber o)
      (sessionNumber o) (status o) (passageDate o) value
  else o.

(** The loop [for (i = 1; i < args.length; i += 2)], on what is left of
    the array from [i] on. *)
Fixpoint parsePairs (args : list string) (options : Options) : Options :=
  match args with
  | [] => options
  | arg :: rest =>
      match rest with
      | value :: rest' =>
          parsePairs rest' (assign (keyOf arg) (Some value) options)
      | [] => assign (keyOf arg) None options
      end
  end.

Definition validTypes : list string :=
  ["bill"; "constitution"; "election_law"; "parliamentary_bulletin"].

(** [!value] on a string that may be undefined. *)
Definition isMissing (value : option string) : bool :=
  match value with
  | Some v => String.eqb v ""
  | None => true
  end.

Section WithFiles.

Variable existsSync : string -> bool.

(** [args] is [process.argv.slice(2)]. *)
Definition parseArgs (args : list string) : Parsed :=
  match args with
  | [] => Exit 0
  | filePath :: rest =>
      if String.eqb filePath "--help" || String.eqb filePath "-h" then Exit 0
      else
        let options :=
          parsePairs rest
            (mkOptions filePath None None None None None None None) in
        if isMissing (title options) then Exit 1
        else if isMissing (type options) then Exit 1
        else if negb (existsb (fun valid =>
                                 match type options with
                                 | Some t => String.eqb valid t
                                 | None => false
                                 end) validTypes)
        then Exit 1
        else if negb (existsSync filePath) then Exit 1
        else Parse options
  end.

End WithFiles.

End IngestPdf.

(** * Properties *)

(** ** Two database engines

    Both sort by insertion; they differ only in where a row lands among
    rows of equal key, which [ORDER BY] leaves open. *)

Module Engines.

Section Insertion.

Context {R : Type}.
Variable key : R -> Q.
(** whether a row is placed ahead of already placed rows of equal key *)
Variable aheadOfTies : bool.

Definition goesBefore (x y : R) : bool :=
  if aheadOfTies then Qle_bool (key y) (key x)
  else negb (Qle_bool (key x) (key y)).

Fixpoint insertRow (x : R) (l : list R) : list R :=
  match l with
  | [] => [x]
  | y :: t => if goesBefore x y then x :: y :: t else y :: insertRow x t
  end.

Definition sortRows (l : list R) : list R := fold_right insertRow [] l.

Lemma goesBefore_le x y : goesBefore x y = true -> (key y <= key x)%Q.
Proof.
  unfold goesBefore. destruct aheadOfTies.
  - apply Qle_bool_iff.
  - intros H. apply negb_true_iff in H.
    destruct (Qlt_le_dec (key y) (key x)) as [Hlt | Hle].
    + now apply Qlt_le_weak.
    + apply Qle_bool_iff in Hle. congruence.
Qed.

Lemma not_goesBefore_le x y : goesBefore x y = false -> (key x <= key y)%Q.
Proof.
  unfold goesBefore. destruct aheadOfTies.
  - intros H. destruct (Qlt_le_dec (key x) (key y)) as [Hlt | Hle].
    + now apply Qlt_le_weak.
    + apply Qle_bool_iff in Hle. congruence.
  - intros H. apply negb_false_iff in H. now apply Qle_bool_iff.
Qed.

Lemma insertRow_perm x l : Permutation (insertRow x l) (x :: l).
Proof.
  induction l as [| y t IH]; simpl.
  - apply Permutation_refl.
  - destruct (goesBefore x y).
    + apply Permutation_refl.
    + eapply Permutation_trans.
      * apply perm_skip. exact IH.
      * apply perm_swap.
Qed.

Lemma sortRows_perm l : Permutation (sortRows l) l.
Proof.
  induction l as [| x t IH]; simpl.
  - apply perm_nil.
  - eapply Permutation_trans.
    + apply insertRow_perm.
    + now apply perm_skip.
Qed.

Lemma insertRow_sorted x l :
  StronglySorted (fun a b => key b <= key a)%Q l ->
  StronglySorted (fun a b => key b <= key a)%Q (insertRow x l).
Proof.
  induction l as [| y t IH]; simpl; intros Hs.
  - constructor; [constructor | constructor].
  - inversion Hs as [| ? ? Ht Hall]; subst.
    destruct (goesBefore x y) eqn:Hg.
    + constructor; [assumption |].
      apply goesBefore_le in Hg.
      constructor; [assumption |].
      eapply Forall_impl; [| exact Hall].
      intros b Hb. cbv beta in *. eapply Qle_trans; eassumption.
    + constructor; [now apply IH |].
      apply not_goesBefore_le in Hg.
      eapply Permutation_Forall.
      * apply Permutation_sym, insertRow_perm.
      * constructor; assumption.
Qed.

Lemma sortRows_sorted l :
  StronglySorted (fun a b => key b <= key a)%Q (sortRows l).
Proof.
  induction l as [| x t IH]; simpl.
  - constructor.
  - now apply insertRow_sorted.
Qed.

End Insertion.

(** Rows of equal key stay in table order. *)
Definition stableEngine : SqlEngine :=
  mkSqlEngine (fun R key => sortRows key true)
              (fun R key => sortRows_perm key true)
              (fun R key => sortRows_sorted key true).


(** Services for the worked examples: the distance of a stored vector is
    read off its first component, and the parser knows one text. *)
Definition exampleServices (engine : SqlEngine)
  (embedder : string -> option Vector) (answered : string -> bool)
  (splitter : string -> list SplitDocument) (answer : string) : Services :=
  mkServices
    embedder
    (fun _ => Some answer)
    (fun s => if String.eqb s "tags"
              then Some (JArray [JString "representative"; JNumber 1;
                                 JString "bill"])
              else None)
    (fun v _ => match v with d :: _ => d | [] => 1%Q end)
    engine
    answered
    (fun path => Some path)
    (fun path => path)
    splitter
    (fun _ => None)
    (fun _ => None)
    (fun _ => "Summary generation failed.")
    (fun _ => "Summary generation failed.")
    (fun _ => "2024-12-31").

End Engines.

(** ** Awaiting several promises *)

Module AsyncFacts.

(** A request is rejected as soon as one of the awaited promises is. *)
Lemma promiseAll_rejects {A} (ps : list (M A)) (p : M A) :
  In p ps ->
  (forall w, exists e w', p w = (Throw e, w')) ->
  forall w, exists e w', promiseAll ps w = (Throw e, w').
Proof.
  intros Hin Hp. induction ps as [| p0 rest IH]; [contradiction |].
  intros w. simpl.
  destruct (p0 w) as [[a | e] w1] eqn:Hp0.
  - destruct Hin as [-> | Hin].
    + destruct (Hp w) as (e & w' & Hthrow). congruence.
    + destruct (IH Hin w1) as (e & w' & Hrest). rewrite Hrest.
      now exists e, w'.
  - now exists e, (snd (promiseAll rest w1)).
Qed.

End AsyncFacts.

(** ** The embedding adapter and the classifier *)

Module EmbeddingSpec.

Import Embedding.

Definition logged (c : ApiCall) (w : World) : World :=
  mkWorld (documents w) (embeddings w) (bills w) (proceedings w)
          (representatives w) (representativeEmbeddings w)
          (apiCalls w ++ [c]) (nextId w).

Lemma embedCall_run svc value w :
  embedCall svc value w =
  (match embed svc value with
   | Some v => Ok v
   | None => Throw (ApiCallError "embedding")
   end, logged (EmbedCall value) w).
Proof.
  unfold embedCall, bind, logCall, modifyWorld, logged.
  destruct (embed svc value); reflexivity.
Qed.

Lemma generateEmbeddings_run {Meta} svc (chunk : Chunk Meta) w :
  generateEmbeddings svc chunk w =
  (match embed svc (pageContent chunk) with
   | Some e => Ok [mkEmbedded (pageContent chunk) e (metadata chunk)]
   | None => Throw (ApiCallError "embedding")
   end, logged (EmbedCall (pageContent chunk)) w).
Proof.
  unfold generateEmbeddings, bind. rewrite embedCall_run.
  destruct (embed svc (pageContent chunk)); reflexivity.
Qed.

(** C8. Given a chunk, [generateEmbeddings] issues exactly one embedding
    call, for the chunk's page content, and when that call produces a
    vector it returns a one-element array holding the page content
    unchanged as content, that vector, and the chunk's metadata
    unchanged. *)
Theorem generateEmbeddings_single_call_single_item :
  forall (Meta : Type) (svc : Services) (chunk : Chunk Meta)
         (e : Vector) (w : World),
    embed svc (pageContent chunk) = Some e ->
    exists w',
      generateEmbeddings svc chunk w =
        (Ok [mkEmbedded (pageContent chunk) e (metadata chunk)], w')
      /\ apiCalls w' = apiCalls w ++ [EmbedCall (pageContent chunk)]
      /\ documents w' = documents w /\ embeddings w' = embeddings w.
Proof.
  intros Meta svc chunk e w He.
  exists (logged (EmbedCall (pageContent chunk)) w).
  rewrite generateEmbeddings_run, He. repeat split.
Qed.

Lemma generateEmbeddings_single_call_single_item_witness :
  exists w',
    generateEmbeddings
      (Engines.exampleServices Engines.stableEngine
         (fun _ => Some [1%Q; 0%Q]) (fun _ => true) (fun _ => []) "tags")
      (mkChunk "Article 25" (mkChunkMetadata 3 None None)) emptyWorld =
      (Ok [mkEmbedded "Article 25" [1%Q; 0%Q] (mkChunkMetadata 3 None None)],
       w')
    /\ apiCalls w' = [EmbedCall "Article 25"]
    /\ documents w' = [] /\ embeddings w' = [].
Proof.
  exact (generateEmbeddings_single_call_single_item ChunkMetadata
           (Engines.exampleServices Engines.stableEngine
              (fun _ => Some [1%Q; 0%Q]) (fun _ => true) (fun _ => [])
              "tags")
           (mkChunk "Article 25" (mkChunkMetadata 3 None None))
           [1%Q; 0%Q] emptyWorld eq_refl).
Defined.

(** *** The classifier *)




Lemma filter_none {A} (f : A -> bool) l :
  Forall (fun x => f x = false) l -> filter f l = [].
Proof.
  induction 1 as [| x l Hx _ IH]; simpl; [reflexivity |].
  now rewrite Hx.
Qed.






Example detectQueryTypes_drops_invalid_entries :
  fst (detectQueryTypes
         (Engines.exampleServices Engines.stableEngine
            (fun _ => None) (fun _ => true) (fun _ => []) "tags")
         "Did MNA Y propose any bills?" emptyWorld)
  = Ok [JString "representative"; JString "bill"].
Proof. reflexivity. Qed.

End EmbeddingSpec.

(** ** Similarity retrieval *)

Module RetrievalSpec.

Import Embedding EmbeddingSpec.

Lemma Qgtb_lt a b : Qgtb a b = true -> (b < a)%Q.
Proof.
  unfold Qgtb. intros H. apply negb_true_iff in H.
  apply Qnot_le_lt. intros Hle. apply Qle_bool_iff in Hle. congruence.
Qed.


Lemma In_firstn_In {A} k (l : list A) y : In y (firstn k l) -> In y l.
Proof.
  revert l. induction k as [| k IH]; intros l Hy; [contradiction |].
  destruct l as [| z t]; [contradiction |].
  destruct Hy as [-> | Hy]; [now left | right; now apply IH].
Qed.



(** What [where(gt(key, threshold)).orderBy(desc(key)).limit(k)] returns,
    for any engine. *)
Section TopK.

Variable engine : SqlEngine.
Context {R : Type}.
Variable key : R -> Q.
Variable threshold : Q.
Variable k : nat.

Definition topK (rows : list R) : list R :=
  firstn k (orderByDesc engine R key
              (filter (fun r => Qgtb (key r) threshold) rows)).


Lemma topK_In rows r :
  In r (topK rows) -> In r rows /\ (threshold < key r)%Q.
Proof.
  unfold topK. intros Hin. apply In_firstn_In in Hin.
  apply (Permutation_in _ (orderByDesc_perm engine R key _)) in Hin.
  apply filter_In in Hin. destruct Hin as [Hin Hgt].
  split; [assumption | now apply Qgtb_lt].
Qed.



End TopK.

Lemma leftJoin_left {L R} (on : L -> R -> bool) ls rs row :
  In row (leftJoin on ls rs) -> In (fst row) ls.
Proof.
  unfold leftJoin. intros Hin. apply in_flat_map in Hin.
  destruct Hin as (l & Hl & Hrow).
  destruct (filter (on l) rs) as [| m ms].
  - destruct Hrow as [<- | []]. exact Hl.
  - apply in_map_iff in Hrow. destruct Hrow as (r & <- & _). exact Hl.
Qed.

Lemma findRelevantContent_run svc userQuery w :
  findRelevantContent svc userQuery w =
  (match embed svc userQuery with
   | Some qv =>
       if selectAnswered svc "embeddings"
       then Ok (queryContent svc qv (logged (EmbedCall userQuery) w))
       else Throw (DatabaseError "embeddings")
   | None => Throw (ApiCallError "embedding")
   end, logged (EmbedCall userQuery) w).
Proof.
  unfold findRelevantContent, bind. rewrite generateEmbeddings_run. simpl.
  destruct (embed svc userQuery); [| reflexivity].
  unfold getWorld. destruct (selectAnswered svc "embeddings"); reflexivity.
Qed.

Lemma findRelevantRepresentatives_run svc userQuery w :
  findRelevantRepresentatives svc userQuery w =
  (match embed svc userQuery with
   | Some qv =>
       if selectAnswered svc "representative_embeddings"
       then Ok (queryRepresentatives svc qv (logged (EmbedCall userQuery) w))
       else Throw (DatabaseError "representative_embeddings")
   | None => Throw (ApiCallError "embedding")
   end, logged (EmbedCall userQuery) w).
Proof.
  unfold findRelevantRepresentatives, bind. rewrite generateEmbeddings_run.
  simpl. destruct (embed svc userQuery); [| reflexivity].
  unfold getWorld.
  destruct (selectAnswered svc "representative_embeddings"); reflexivity.
Qed.

Lemma findRelevantContent_ok svc userQuery w hits w' :
  findRelevantContent svc userQuery w = (Ok hits, w') ->
  exists qv, embed svc userQuery = Some qv
             /\ hits = queryContent svc qv (logged (EmbedCall userQuery) w).
Proof.
  rewrite findRelevantContent_run. intros H.
  destruct (embed svc userQuery) as [qv |]; [| discriminate].
  destruct (selectAnswered svc "embeddings"); [| discriminate].
  exists qv. split; [reflexivity | congruence].
Qed.


Lemma queryContent_topK svc qv w :
  queryContent svc qv w =
  map (selectContent svc qv)
    (topK (sql svc) (contentSimilarity svc qv) 0.75%Q 6
       (leftJoin (fun e d => Nat.eqb (resourceId e) (doc_id d))
                 (embeddings w) (documents w))).
Proof. reflexivity. Qed.





Definition constituencyServices : Services :=
  Engines.exampleServices Engines.stableEngine (fun _ => Some [1%Q])
    (fun _ => true) (fun _ => []) "tags".


(** *** Ranking *)







End RetrievalSpec.

(** ** The chat route *)

Module ChatRouteSpec.

Import Embedding ChatRoute.

Lemma at_index_last {A} (l : list A) (m : A) :
  at_index (l ++ [m]) (Z.of_nat (length (l ++ [m])) - 1) = Some m.
Proof.
  unfold at_index. rewrite length_app. simpl.
  replace (Z.of_nat (length l + 1) - 1)%Z with (Z.of_nat (length l)) by lia.
  destruct (Z.ltb_spec (Z.of_nat (length l)) 0) as [Hneg | _]; [lia |].
  rewrite Nat2Z.id, nth_error_app2 by lia.
  now rewrite Nat.sub_diag.
Qed.

(** C10. With an empty message list there is no last message:
    [messages[messages.length - 1]] is undefined, and reading its content
    throws before any model or database call is made. *)
Theorem POST_empty_messages_throws :
  forall (svc : Services) (w : World),
    at_index (@nil Message) (Z.of_nat (length (@nil Message)) - 1) = None
    /\ POST svc [] w =
       (Throw (TypeError
                 "Cannot read properties of undefined (reading 'content')"),
        w).
Proof. intros svc w. split; reflexivity. Qed.

Section Handler.

Variable detect : string -> M (list JSON).
Variable findReps : string -> M (list RepresentativeHit).
Variable findDocs : string -> M (list ContentHit).

Lemma POST_with_run messages m tags w w1 :
  at_index messages (Z.of_nat (length messages) - 1) = Some m ->
  detect (msg_content m) w = (Ok tags, w1) ->
  POST_with detect findReps findDocs messages w =
  match promiseAll (searchPromises findReps findDocs tags (msg_content m)) w1
  with
  | (Ok results, w2) => (Ok (mkResponse messages (assembleContext results)), w2)
  | (Throw e, w2) => (Throw e, w2)
  end.
Proof.
  intros Hlast Hdetect. unfold POST_with, bind. rewrite Hlast, Hdetect.
  destruct (promiseAll _ w1) as [[results | e] w2]; reflexivity.
Qed.

(** The world in which the document search runs: after the
    representative search, when there is one. *)
Definition worldOfDocumentSearch (tags : list JSON) (query : string)
  (w1 : World) : World :=
  if includes tags "representative" then snd (findReps query w1) else w1.

Lemma searchPromises_reject tags query w1 :
  (includes tags "representative" = true
   /\ exists e w2, findReps query w1 = (Throw e, w2))
  \/ (includes tags "bill" || includes tags "document" = true
      /\ exists e w2,
           findDocs query (worldOfDocumentSearch tags query w1)
           = (Throw e, w2)) ->
  exists e w', promiseAll (searchPromises findReps findDocs tags query) w1
               = (Throw e, w').
Proof.
  unfold searchPromises, worldOfDocumentSearch.
  intros [[Hrep (e & w2 & Hfail)] | [Hdoc (e & w2 & Hfail)]].
  - rewrite Hrep. simpl. unfold bind at 1. rewrite Hfail.
    now eexists; eexists.
  - rewrite Hdoc.
    destruct (includes tags "representative"); simpl.
    + unfold bind at 1.
      destruct (findReps query w1) as [[reps | e1] wr];
        simpl in *; unfold bind; rewrite Hfail; simpl;
        now eexists; eexists.
    + unfold bind. rewrite Hfail. now eexists; eexists.
Qed.

(** C2 (as amended). Retriever failures are not isolated: the selected
    retrievers are awaited together, so when the retriever of a selected
    entity type fails, the whole request fails and no response is
    produced, whatever the other retriever returned. *)
Theorem retriever_failure_fails_request :
  forall (messages : list Message) (m : Message) (tags : list JSON)
         (w w1 : World),
    at_index messages (Z.of_nat (length messages) - 1) = Some m ->
    detect (msg_content m) w = (Ok tags, w1) ->
    (includes tags "representative" = true
     /\ exists e w2, findReps (msg_content m) w1 = (Throw e, w2))
    \/ (includes tags "bill" || includes tags "document" = true
        /\ exists e w2,
             findDocs (msg_content m)
                      (worldOfDocumentSearch tags (msg_content m) w1)
             = (Throw e, w2)) ->
    exists e w',
      POST_with detect findReps findDocs messages w = (Throw e, w').
Proof.
  intros messages m tags w w1 Hlast Hdetect Hfail.
  rewrite (POST_with_run messages m tags w w1 Hlast Hdetect).
  destruct (searchPromises_reject tags (msg_content m) w1 Hfail)
    as (e & w' & Hall).
  rewrite Hall. now exists e, w'.
Qed.

(** C9. When the retrievers of the requested entity types return, the
    context holds one block per non-empty result: nothing for a type
    that was requested and returned no record (or was not requested),
    the single block alone when only one result is non-empty, and the
    two blocks joined by the source separator when both are. *)
Theorem context_has_one_block_per_nonempty_result :
  forall (messages : list Message) (m : Message) (tags : list JSON)
         (reps : list RepresentativeHit) (docs : list ContentHit)
         (w w1 w2 w3 : World),
    at_index messages (Z.of_nat (length messages) - 1) = Some m ->
    detect (msg_content m) w = (Ok tags, w1) ->
    (if includes tags "representative"
     then findReps (msg_content m) w1 = (Ok reps, w2)
     else reps = [] /\ w2 = w1) ->
    (if includes tags "bill" || includes tags "document"
     then findDocs (msg_content m) w2 = (Ok docs, w3)
     else docs = [] /\ w3 = w2) ->
    exists response,
      POST_with detect findReps findDocs messages w = (Ok response, w3)
      /\ contextString response =
         match reps, docs with
         | [], [] => ""
         | _ :: _, [] => repContext reps
         | [], _ :: _ => docContext docs
         | _ :: _, _ :: _ =>
             (repContext reps ++ sourceSeparator ++ docContext docs)%string
         end.
Proof.
  intros messages m tags reps docs w w1 w2 w3 Hlast Hdetect Hreps Hdocs.
  rewrite (POST_with_run messages m tags w w1 Hlast Hdetect).
  unfold searchPromises.
  destruct (includes tags "representative");
    destruct (includes tags "bill" || includes tags "document");
    simpl; unfold bind.
  - rewrite Hreps. simpl. rewrite Hdocs. simpl.
    eexists. split; [reflexivity |].
    destruct reps as [| r reps], docs as [| d docs]; reflexivity.
  - destruct Hdocs as [-> ->]. rewrite Hreps. simpl.
    eexists. split; [reflexivity |].
    destruct reps as [| r reps]; reflexivity.
  - destruct Hreps as [-> ->]. rewrite Hdocs. simpl.
    eexists. split; [reflexivity |].
    destruct docs as [| d docs]; reflexivity.
  - destruct Hreps as [-> ->]. destruct Hdocs as [-> ->].
    eexists. split; reflexivity.
Qed.

End Handler.

(** Blocks of the assembled context never come from empty results. *)
Lemma assembleContext_skips_empty (before after : list SearchResult) :
  assembleContext (before ++ RepresentativeResult [] :: after)
  = assembleContext (before ++ after)
  /\ assembleContext (before ++ DocumentResult [] :: after)
     = assembleContext (before ++ after).
Proof.
  unfold assembleContext. rewrite !flat_map_app. split; reflexivity.
Qed.

(** A store in which the chunk table answers and the representative
    table does not. *)
Definition billWorld : World :=
  mkWorld
    [ mkDocumentRow 1 "Finance Bill 2024" "bill" "..." "finance-bill.pdf" ]
    [ mkEmbeddingRow 10 1 [0.10%Q] "The Finance Bill amends the tax code."
        (mkChunkMetadata 1 None None) ]
    [] [] [] [] [] 0.

Definition halfDownServices : Services :=
  Engines.exampleServices Engines.stableEngine (fun _ => Some [1%Q])
    (fun table => String.eqb table "embeddings") (fun _ => []) "tags".

Definition question : list Message :=
  [ mkMessage "user" "Did MNA Y propose any bills?" ].

(** C2, counterexample. The classifier asks for representatives and
    bills; the document retriever alone returns a record, the
    representative retriever fails, and the request fails with it instead
    of answering from the document record. *)
Lemma one_failed_retriever_fails_the_request :
  exists docs w1,
    findRelevantContent halfDownServices "Did MNA Y propose any bills?"
      billWorld = (Ok docs, w1)
    /\ map hit_content docs = ["The Finance Bill amends the tax code."]
    /\ fst (Embedding.detectQueryTypes halfDownServices
              "Did MNA Y propose any bills?" billWorld)
       = Ok [JString "representative"; JString "bill"]
    /\ fst (POST halfDownServices question billWorld)
       = Throw (DatabaseError "representative_embeddings").
Proof.
  eexists. eexists. split; [vm_compute; reflexivity |].
  repeat split; reflexivity.
Qed.

Lemma retriever_failure_fails_request_witness :
  exists e w', POST halfDownServices question billWorld = (Throw e, w').
Proof.
  eapply (retriever_failure_fails_request
            (Embedding.detectQueryTypes halfDownServices)
            (Embedding.findRelevantRepresentatives halfDownServices)
            (Embedding.findRelevantContent halfDownServices)
            question (mkMessage "user" "Did MNA Y propose any bills?")).
  - reflexivity.
  - vm_compute. reflexivity.
  - left. split; [reflexivity |].
    eexists. eexists. vm_compute. reflexivity.
Defined.

Definition allUpServices : Services :=
  Engines.exampleServices Engines.stableEngine (fun _ => Some [1%Q])
    (fun _ => true) (fun _ => []) "tags".

(** One representative profile and one bill chunk, both close to the
    query. *)
Definition mixedWorld : World :=
  mkWorld
    [ mkDocumentRow 1 "Finance Bill 2024" "bill" "..." "finance-bill.pdf" ]
    [ mkEmbeddingRow 10 1 [0.10%Q] "The Finance Bill amends the tax code."
        (mkChunkMetadata 1 None None) ]
    [] []
    [ mkRepresentativeRow 1 "Ayesha Khan" "NA-125 Lahore-IX" "NA-125"
        (Some "Lahore-IX") None (Some "Punjab") "IND" None None None ]
    [ mkRepresentativeEmbeddingRow 20 1 "Representative: Ayesha Khan"
        [0.18%Q] ]
    [] 0.

Lemma context_has_one_block_per_nonempty_result_witness :
  exists response w',
    POST allUpServices question mixedWorld = (Ok response, w')
    /\ contextString response =
       ("Representative: Ayesha Khan" ++ newline ++
        "Constituency: NA-125 - Lahore-IX" ++ newline ++
        "District: N/A" ++ newline ++
        "Province: Punjab" ++ newline ++
        "Party: IND" ++ newline ++
        "Phone: Not available" ++ newline ++
        "Permanent Address: Not available" ++ newline ++
        "Islamabad Address: Not available" ++ newline ++
        "---" ++
        newline ++ newline ++ "=== DIFFERENT SOURCE TYPE ===" ++
        newline ++ newline ++
        "Document: Finance Bill 2024" ++ newline ++
        "Type: bill" ++ newline ++
        "Content: The Finance Bill amends the tax code." ++ newline ++
        "---")%string.
Proof.
  edestruct (context_has_one_block_per_nonempty_result
               (Embedding.detectQueryTypes allUpServices)
               (Embedding.findRelevantRepresentatives allUpServices)
               (Embedding.findRelevantContent allUpServices)
               question (mkMessage "user" "Did MNA Y propose any bills?"))
    as (response & Hrun & Hcontext);
    [ reflexivity | vm_compute; reflexivity
    | vm_compute; reflexivity | vm_compute; reflexivity | ].
  exists response. eexists. split; [exact Hrun |].
  rewrite Hcontext. vm_compute. reflexivity.
Defined.

(** The same question against a store without representative profiles:
    the context is the document block alone. *)
Example context_without_representatives :
  option_map contextString
    (match fst (POST allUpServices question billWorld) with
     | Ok response => Some response
     | Throw _ => None
     end)
  = Some ("Document: Finance Bill 2024" ++ newline ++
          "Type: bill" ++ newline ++
          "Content: The Finance Bill amends the tax code." ++ newline ++
          "---")%string.
Proof. vm_compute. reflexivity. Qed.

End ChatRouteSpec.

(** ** Ingestion *)

Module BatchIngestSpec.

Import Embedding EmbeddingSpec BatchIngest.

(** The rows a computation leaves untouched. *)
Definition sameTables (w w' : World) : Prop :=
  documents w' = documents w
  /\ embeddings w' = embeddings w
  /\ bills w' = bills w
  /\ proceedings w' = proceedings w
  /\ nextId w' = nextId w.

Lemma sameTables_refl w : sameTables w w.
Proof. repeat split. Qed.

Lemma sameTables_trans w1 w2 w3 :
  sameTables w1 w2 -> sameTables w2 w3 -> sameTables w1 w3.
Proof.
  unfold sameTables. intros (H1 & H2 & H3 & H4 & H5) (K1 & K2 & K3 & K4 & K5).
  repeat split; congruence.
Qed.

Definition readsOnly {A} (m : M A) : Prop :=
  forall w, sameTables w (snd (m w)).

Lemma promiseAll_readsOnly {A} (ps : list (M A)) :
  Forall readsOnly ps -> readsOnly (promiseAll ps).
Proof.
  induction 1 as [| p rest Hp _ IH]; intros w; simpl.
  - apply sameTables_refl.
  - specialize (Hp w). destruct (p w) as [[a | e] w1]; simpl in Hp.
    + specialize (IH w1).
      destruct (promiseAll rest w1) as [[l | e] w2]; simpl in *;
        eapply sameTables_trans; eassumption.
    + simpl. eapply sameTables_trans; [exact Hp | apply IH].
Qed.

Section WithServices.

Variable svc : Services.

Lemma embedChunk_run chunk w :
  embedChunk svc chunk w =
  (match embed svc (split_pageContent chunk) with
   | Some e =>
       Ok [mkEmbedded (split_pageContent chunk) e
             (mkChunkMetadata (pageNumberOr1 (split_pageNumber chunk))
                (detectSection svc (split_pageContent chunk))
                (detectTimestamp svc (split_pageContent chunk)))]
   | None => Throw (ApiCallError "embedding")
   end, logged (EmbedCall (split_pageContent chunk)) w).
Proof. unfold embedChunk. now rewrite generateEmbeddings_run. Qed.

Lemma embedChunk_readsOnly chunk : readsOnly (embedChunk svc chunk).
Proof. intros w. rewrite embedChunk_run. repeat split. Qed.

Lemma embedBatch_readsOnly batch :
  readsOnly (promiseAll (map (embedChunk svc) batch)).
Proof.
  apply promiseAll_readsOnly, Forall_forall. intros p Hp.
  apply in_map_iff in Hp. destruct Hp as (c & <- & _).
  apply embedChunk_readsOnly.
Qed.

Lemma embedLoop_readsOnly chunks starts acc :
  readsOnly (embedLoop svc chunks starts acc).
Proof.
  revert acc. induction starts as [| i rest IH]; intros acc w; simpl.
  - apply sameTables_refl.
  - unfold bind.
    assert (Hb := embedBatch_readsOnly (slice chunks i (i + batchSize)) w).
    destruct (promiseAll _ w) as [[batch | e] w1]; simpl in Hb.
    + eapply sameTables_trans; [exact Hb | apply IH].
    + exact Hb.
Qed.

(** A batch with a chunk the provider rejects is rejected. *)
Lemma embedBatch_rejects batch chunk :
  In chunk batch -> embed svc (split_pageContent chunk) = None ->
  forall w, exists e w',
    promiseAll (map (embedChunk svc) batch) w = (Throw e, w').
Proof.
  intros Hin Hfail.
  apply (AsyncFacts.promiseAll_rejects _ (embedChunk svc chunk)).
  - now apply in_map.
  - intros w. rewrite embedChunk_run, Hfail. now eexists; eexists.
Qed.

Lemma embedLoop_rejects chunks starts chunk i :
  In i starts -> In chunk (slice chunks i (i + batchSize)) ->
  embed svc (split_pageContent chunk) = None ->
  forall acc w, exists e w',
    embedLoop svc chunks starts acc w = (Throw e, w').
Proof.
  intros Hi Hin Hfail.
  induction starts as [| j rest IH]; [contradiction |].
  intros acc w. simpl. unfold bind.
  destruct (promiseAll (map (embedChunk svc)
                             (slice chunks j (j + batchSize))) w)
    as [[batch | e] w1] eqn:Hbatch.
  - destruct Hi as [-> | Hi].
    + destruct (embedBatch_rejects _ chunk Hin Hfail w) as (e & w' & Hthrow).
      congruence.
    + apply (IH Hi).
  - now exists e, w1.
Qed.

End WithServices.

(** Every chunk falls in one of the batches of the loop. *)
Lemma batches_cover {A} (chunks : list A) (chunk : A) :
  In chunk chunks ->
  exists i, In i (batchStarts (length chunks))
            /\ In chunk (slice chunks i (i + batchSize)).
Proof.
  intros Hin. apply In_nth_error in Hin. destruct Hin as (k & Hk).
  assert (Hlt : k < length chunks).
  { apply nth_error_Some. congruence. }
  unfold batchStarts, slice, batchSize in *.
  exists (k / 5 * 5). split.
  - apply in_map_iff. exists (k / 5). split; [reflexivity |].
    apply in_seq. split; [lia |].
    change (5 - 1) with 4. rewrite Nat.add_0_l.
    apply Nat.Div0.div_lt_upper_bound.
    assert (H5 := Nat.div_mod_eq (length chunks + 4) 5).
    assert (Hm := Nat.mod_upper_bound (length chunks + 4) 5 ltac:(lia)).
    lia.
  - assert (K5 := Nat.div_mod_eq k 5).
    assert (Km := Nat.mod_upper_bound k 5 ltac:(lia)).
    replace (k / 5 * 5 + 5 - k / 5 * 5) with 5 by lia.
    apply (nth_error_In _ (k mod 5)).
    rewrite nth_error_firstn.
    destruct (Nat.ltb_spec (k mod 5) 5) as [_ | Hge]; [| lia].
    rewrite nth_error_skipn.
    replace (k / 5 * 5 + k mod 5) with k by lia. exact Hk.
Qed.

(** Whether a document row carries the file name. *)
Definition hasDocument (fileName : string) (w : World) : bool :=
  existsb (fun d => String.eqb (originalFileName d) fileName) (documents w).

Lemma checkIfProcessed_run fileName w :
  checkIfProcessed fileName w = (Ok (hasDocument fileName w), w).
Proof.
  unfold checkIfProcessed, bind, getWorld, ret, hasDocument. f_equal. f_equal.
  induction (documents w) as [| d rest IH]; [reflexivity |].
  simpl. destruct (String.eqb (originalFileName d) fileName); simpl.
  - reflexivity.
  - exact IH.
Qed.

Lemma hasDocument_after_insert fileName w w' row :
  documents w' = documents w ++ [row] ->
  originalFileName row = fileName ->
  hasDocument fileName w' = true.
Proof.
  unfold hasDocument. intros -> <-. rewrite existsb_app. simpl.
  rewrite String.eqb_refl. apply orb_true_iff. right. reflexivity.
Qed.

Definition withSkipExisting (options : Options) : Options :=
  mkOptions (filePath options) (title options) (type options)
            (status options) (date options) true.

(** C1 (as amended). When the provider rejects the embedding of one of
    the document's chunks, ingestion aborts and no chunk embedding, bill
    or proceeding row is written; the document row inserted before
    chunking stays, since nothing rolls it back, and a later run that
    skips existing files skips this one. *)
Theorem embedding_failure_keeps_document_row :
  forall (svc : Services) (options : Options) (w : World)
         (text : string) (chunk : SplitDocument),
    skipExisting options
      && hasDocument (basename svc (filePath options)) w = false ->
    extractTextFromPDF svc (filePath options) = Some text ->
    In chunk (createDocuments svc text) ->
    embed svc (split_pageContent chunk) = None ->
    exists e w',
      ingestDocument svc options w = (Throw e, w')
      /\ embeddings w' = embeddings w
      /\ bills w' = bills w
      /\ proceedings w' = proceedings w
      /\ documents w' =
           documents w ++
           [mkDocumentRow (nextId w) (title options) (type options) text
              (basename svc (filePath options))]
      /\ ingestDocument svc (withSkipExisting options) w' = (Ok Skipped, w').
Proof.
  intros svc options w text chunk Hfresh Htext Hin Hfail.
  set (fileName := basename svc (filePath options)) in *.
  set (row := mkDocumentRow (nextId w) (title options) (type options) text
                fileName).
  set (w1 := mkWorld (documents w ++ [row]) (embeddings w) (bills w)
               (proceedings w) (representatives w)
               (representativeEmbeddings w) (apiCalls w) (S (nextId w))).
  destruct (batches_cover (createDocuments svc text) chunk Hin)
    as (i & Hi & Hslice).
  destruct (embedLoop_rejects svc (createDocuments svc text)
              (batchStarts (length (createDocuments svc text))) chunk i
              Hi Hslice Hfail [] w1) as (e & w' & Hloop).
  assert (Hsame := embedLoop_readsOnly svc (createDocuments svc text)
                     (batchStarts (length (createDocuments svc text))) [] w1).
  rewrite Hloop in Hsame. simpl in Hsame.
  destruct Hsame as (Hdocs & Hembs & Hbills & Hprocs & _).
  assert (Hrun : ingestFresh svc options fileName w = (Throw e, w')).
  { unfold ingestFresh, bind, readPDF. rewrite Htext. simpl.
    fold row. fold w1. now rewrite Hloop. }
  exists e, w'. split.
  - unfold ingestDocument. fold fileName.
    destruct (skipExisting options); [| exact Hrun].
    unfold bind. rewrite checkIfProcessed_run.
    simpl in Hfresh. rewrite Hfresh. exact Hrun.
  - repeat split; try assumption.
    unfold ingestDocument, withSkipExisting. simpl. fold fileName.
    unfold bind. rewrite checkIfProcessed_run.
    now rewrite (hasDocument_after_insert fileName w w' row Hdocs eq_refl).
Qed.

(** A splitter that cuts every file into 35 chunks (7 batches), and a
    provider that rejects the thirteenth chunk, in batch 3. *)
Definition chunkText (k : nat) : string :=
  String (ascii_of_nat (65 + k)) EmptyString.

Definition flakyServices : Services :=
  Engines.exampleServices Engines.stableEngine
    (fun value => if String.eqb value (chunkText 12) then None
                  else Some [1%Q])
    (fun _ => true)
    (fun _ => map (fun k => mkSplitDocument (chunkText k) None) (seq 0 35))
    "tags".

Definition financeBill : Options :=
  mkOptions "finance-bill.pdf" "Finance Bill" "bill" (Some "passed") None
            false.

(** C1, counterexample. The provider fails in batch 3 of 7: the run
    aborts after 15 embedding calls, and the document row of the file is
    in the database afterwards. *)
Lemma failed_ingestion_leaves_document_row :
  exists e w',
    ingestDocument flakyServices financeBill emptyWorld = (Throw e, w')
    /\ length (batchStarts (length (createDocuments flakyServices ""))) = 7
    /\ length (apiCalls w') = 15
    /\ map originalFileName (documents w') = ["finance-bill.pdf"]
    /\ embeddings w' = [].
Proof.
  eexists. eexists. split; [vm_compute; reflexivity |].
  repeat split; reflexivity.
Qed.

Lemma embedding_failure_keeps_document_row_witness :
  exists e w',
    ingestDocument flakyServices financeBill emptyWorld = (Throw e, w')
    /\ embeddings w' = []
    /\ ingestDocument flakyServices (withSkipExisting financeBill) w'
       = (Ok Skipped, w').
Proof.
  destruct (embedding_failure_keeps_document_row flakyServices financeBill
              emptyWorld "finance-bill.pdf"
              (mkSplitDocument (chunkText 12) None))
    as (e & w' & Hrun & Hembs & _ & _ & _ & Hskip).
  - reflexivity.
  - reflexivity.
  - vm_compute. tauto.
  - reflexivity.
  - exists e, w'. repeat split; assumption.
Defined.

(** With a provider that answers every call the same file is ingested
    whole: 35 embedding rows, one document row, one bill row. *)
Example ingestion_succeeds_when_provider_answers :
  let svc :=
    Engines.exampleServices Engines.stableEngine (fun _ => Some [1%Q])
      (fun _ => true)
      (fun _ => map (fun k => mkSplitDocument (chunkText k) None) (seq 0 35))
      "tags" in
  let result := ingestDocument svc financeBill emptyWorld in
  fst result = Ok (Ingested 0 35)
  /\ length (documents (snd result)) = 1
  /\ length (embeddings (snd result)) = 35
  /\ length (bills (snd result)) = 1.
Proof. vm_compute. repeat split. Qed.

End BatchIngestSpec.

(** ** The text splitter *)

Module TextSplitterSpec.

Import TextSplitter.

(** *** Chunks that tile a text

    [Tiles overlap chunks t]: the chunks, each with the part it shares
    with its predecessor removed, concatenate to [t]; the shared part of
    two consecutive chunks is the end of the first and the start of the
    second, and is at most [overlap] characters long. *)
Inductive Tiles (overlap : nat) : list text -> text -> Prop :=
| tiles_nil : Tiles overlap [] []
| tiles_one : forall c, Tiles overlap [c] c
| tiles_next : forall c1 c2 rest t o,
    o <= overlap -> o <= length c1 -> o <= length c2 ->
    skipn (length c1 - o) c1 = firstn o c2 ->
    Tiles overlap (c2 :: rest) t ->
    Tiles overlap (c1 :: c2 :: rest) (c1 ++ skipn o t).

Section TilesFacts.

Variable overlap : nat.

Lemma Tiles_starts_with c cs t :
  Tiles overlap (c :: cs) t -> exists tail, t = c ++ tail.
Proof.
  intros H. inversion H; subst.
  - exists []. now rewrite app_nil_r.
  - now eexists.
Qed.

Lemma skipn_app_le {A} n (l1 l2 : list A) :
  n <= length l1 -> skipn n (l1 ++ l2) = skipn n l1 ++ l2.
Proof.
  intros Hn. rewrite skipn_app.
  replace (n - length l1) with 0 by lia. reflexivity.
Qed.

Lemma firstn_app_le {A} n (l1 l2 : list A) :
  n <= length l1 -> firstn n (l1 ++ l2) = firstn n l1.
Proof.
  intros Hn. rewrite firstn_app.
  replace (n - length l1) with 0 by lia. simpl. apply app_nil_r.
Qed.

Lemma Tiles_skip_tail c cs t o extra :
  Tiles overlap (c :: cs) t -> o <= length c ->
  skipn o (t ++ extra) = skipn o t ++ extra.
Proof.
  intros H Ho. destruct (Tiles_starts_with _ _ _ H) as (tail & ->).
  apply skipn_app_le. rewrite length_app. lia.
Qed.

(** Two tilings side by side tile the concatenated text; the chunks at
    the seam share nothing. *)
Lemma Tiles_app cs1 t1 cs2 t2 :
  Tiles overlap cs1 t1 -> Tiles overlap cs2 t2 ->
  Tiles overlap (cs1 ++ cs2) (t1 ++ t2).
Proof.
  intros H1 H2. induction H1 as [| c | c1 c2 rest t o Ho Ho1 Ho2 Hshare Ht IH].
  - exact H2.
  - destruct cs2 as [| c2 rest].
    + inversion H2; subst. rewrite !app_nil_r. constructor.
    + simpl. change t2 with (skipn 0 t2).
      apply tiles_next; try lia; [| exact H2].
      rewrite Nat.sub_0_r, skipn_all. reflexivity.
  - simpl. rewrite <- app_assoc.
    pose proof (Tiles_skip_tail c2 rest t o t2 Ht Ho2) as Hskip.
    rewrite <- Hskip. now apply tiles_next.
Qed.

(** One more chunk after a tiling, sharing [o] characters with the last
    chunk. *)
Lemma Tiles_snoc cs l t c o :
  Tiles overlap (cs ++ [l]) t ->
  o <= overlap -> o <= length l -> o <= length c ->
  skipn (length l - o) l = firstn o c ->
  Tiles overlap ((cs ++ [l]) ++ [c]) (t ++ skipn o c).
Proof.
  intros Ht Ho Hl Hc Hshare. revert t Ht.
  induction cs as [| c1 cs IH]; intros t Ht; simpl in *.
  - inversion Ht; subst. apply tiles_next; try assumption. constructor.
  - assert (Hnext : exists c2 rest, cs ++ [l] = c2 :: rest).
    { destruct cs; simpl; eauto. }
    destruct Hnext as (c2 & rest & Hcs). rewrite Hcs in *.
    inversion Ht as [| | ? ? ? t' o' Ho' Ho1 Ho2 Hsh Ht']; subst.
    rewrite <- app_assoc.
    pose proof (Tiles_skip_tail c2 rest t' o' (skipn o c) Ht' Ho2) as Hskip.
    rewrite <- Hskip. simpl.
    apply tiles_next; try assumption. now apply IH.
Qed.

(** A tiling never holds fewer characters than the text. *)
Lemma Tiles_length cs t :
  Tiles overlap cs t -> length t <= list_sum (map (@length ascii) cs).
Proof.
  induction 1 as [| c | c1 c2 rest t o Ho Ho1 Ho2 Hshare Ht IH]; simpl in *.
  - lia.
  - lia.
  - rewrite length_app, length_skipn. lia.
Qed.

End TilesFacts.

(** *** Merging pieces *)

Lemma join_nil docs : join docs [] = concat docs.
Proof.
  induction docs as [| d rest IH]; [reflexivity |].
  destruct rest as [| d' rest].
  - simpl. now rewrite app_nil_r.
  - change (join (d :: d' :: rest) []) with (d ++ [] ++ join (d' :: rest) []).
    rewrite IH. reflexivity.
Qed.

Section Merging.

Variables size overlap : nat.

(** The merge loop without trimming: every joined chunk is kept as it
    is. *)
Definition rawStep : MergeState -> text -> MergeState :=
  mergeStep size overlap Some [].

Lemma shiftWhile_cons len sepLen first rest tot :
  shiftWhile size overlap len sepLen (first :: rest) tot =
  if Nat.ltb overlap tot
     || (Nat.ltb size (tot + len + length (first :: rest) * sepLen)
         && Nat.ltb 0 tot)
  then shiftWhile size overlap len sepLen rest (tot - length first)
  else (first :: rest, tot).
Proof. reflexivity. Qed.

Lemma shiftWhile_spec len current tot kept tot' :
  shiftWhile size overlap len 0 current tot = (kept, tot') ->
  tot = length (concat current) ->
  exists dropped,
    current = dropped ++ kept
    /\ tot' = length (concat kept)
    /\ tot' <= overlap
    /\ (tot' + len <= size \/ tot' = 0).
Proof.
  revert tot. induction current as [| first rest IH]; intros tot Hrun Htot.
  - simpl in Hrun. injection Hrun as <- <-.
    exists []. simpl in *. subst. repeat split; lia.
  - rewrite shiftWhile_cons in Hrun.
    destruct (Nat.ltb overlap tot
              || (Nat.ltb size (tot + len + length (first :: rest) * 0)
                  && Nat.ltb 0 tot)) eqn:Hcond.
    + destruct (IH (tot - length first) Hrun) as (dropped & Hcur & Hrest).
      { simpl in Htot. rewrite length_app in Htot. lia. }
      exists (first :: dropped).
      split; [rewrite <- app_comm_cons; f_equal; exact Hcur | exact Hrest].
    + injection Hrun as <- <-. exists [].
      apply orb_false_iff in Hcond. destruct Hcond as [Hover Hfit].
      apply Nat.ltb_ge in Hover.
      split; [reflexivity |]. split; [exact Htot |]. split; [exact Hover |].
      apply andb_false_iff in Hfit. destruct Hfit as [Hfit | Hzero].
      * apply Nat.ltb_ge in Hfit. left. lia.
      * apply Nat.ltb_ge in Hzero. right. lia.
Qed.

(** How the pending pieces relate to the last chunk already emitted. *)
Definition overlapsLast (ds : list text) (o : nat) (c : text) : Prop :=
  match rev ds with
  | [] => o = 0
  | l :: _ =>
      o <= overlap /\ o <= length l /\ o <= length c
      /\ skipn (length l - o) l = firstn o c
  end.

Lemma Tiles_emit ds t o c :
  Tiles overlap ds t -> overlapsLast ds o c ->
  Tiles overlap (ds ++ [c]) (t ++ skipn o c).
Proof.
  unfold overlapsLast. intros Ht Hlast.
  destruct (rev ds) as [| l r] eqn:Hrev.
  - apply (f_equal (@rev text)) in Hrev. rewrite rev_involutive in Hrev.
    simpl in Hrev. subst. inversion Ht; subst. simpl. constructor.
  - apply (f_equal (@rev text)) in Hrev. rewrite rev_involutive in Hrev.
    simpl in Hrev. subst ds.
    destruct Hlast as (Ho & Hl & Hc & Hshare).
    now apply Tiles_snoc.
Qed.

Record RawInv (done : text) (st : MergeState) : Prop := mkRawInv {
  inv_total : total st = length (concat (currentDoc st));
  inv_fit : total st <= size;
  inv_docs : Forall (fun d => length d <= size) (docs st);
  inv_tiles :
    exists t o,
      Tiles overlap (docs st) t
      /\ overlapsLast (docs st) o (concat (currentDoc st))
      /\ done = t ++ skipn o (concat (currentDoc st))
}.

Lemma overlapsLast_grow ds o c d :
  overlapsLast ds o c -> o <= length c -> overlapsLast ds o (c ++ d).
Proof.
  unfold overlapsLast. destruct (rev ds) as [| l r]; [easy |].
  intros (Ho & Hl & Hc & Hshare) _.
  repeat split; try assumption.
  - rewrite length_app. lia.
  - now rewrite firstn_app_le.
Qed.

Lemma overlapsLast_le ds o c : overlapsLast ds o c -> o <= length c.
Proof.
  unfold overlapsLast. destruct (rev ds) as [| l r]; [lia | tauto].
Qed.

Lemma RawInv_push done st d :
  RawInv done st -> total st + length d <= size ->
  RawInv (done ++ d)
    (mkMergeState (docs st) (currentDoc st ++ [d]) (total st + length d)).
Proof.
  intros [Htot Hfit Hdocs (t & o & Ht & Hlast & Hdone)] Hroom.
  assert (Hcat : concat (currentDoc st ++ [d]) = concat (currentDoc st) ++ d).
  { rewrite concat_app. simpl. now rewrite app_nil_r. }
  constructor; simpl.
  - rewrite Hcat, length_app. lia.
  - exact Hroom.
  - exact Hdocs.
  - exists t, o. rewrite Hcat.
    assert (Ho := overlapsLast_le _ _ _ Hlast).
    split; [exact Ht |]. split; [now apply overlapsLast_grow |].
    rewrite skipn_app_le by exact Ho. rewrite Hdone. now rewrite app_assoc.
Qed.

Lemma rawStep_inv done st d :
  RawInv done st -> length d < size -> RawInv (done ++ d) (rawStep st d).
Proof.
  intros Hinv Hd. unfold rawStep, mergeStep.
  simpl length. rewrite Nat.mul_0_r, Nat.add_0_r.
  destruct (Nat.ltb_spec size (total st + length d)) as [Hfull | Hroom];
    [| now apply RawInv_push].
  destruct (currentDoc st) as [| p ps] eqn:Hcur.
  - assert (Htot := inv_total _ _ Hinv). rewrite Hcur in Htot.
    simpl in Htot.
    assert (Hpush : total st + length d <= size) by lia.
    apply (RawInv_push done st d Hinv) in Hpush.
    rewrite Hcur in Hpush. exact Hpush.
  - rewrite <- Hcur.
    destruct Hinv as [Htot Hfit Hdocs (t & o & Ht & Hlast & Hdone)].
    destruct (shiftWhile size overlap (length d) 0 (currentDoc st)
                (total st)) as [kept tot'] eqn:Hshift.
    destruct (shiftWhile_spec (length d) (currentDoc st) (total st)
                kept tot' Hshift Htot)
      as (dropped & Hsplit & Hkept & Hover & Hnext).
    simpl fst. simpl snd.
    unfold joinDocs. rewrite join_nil. simpl optList.
    assert (Hcat : concat (kept ++ [d]) = concat kept ++ d).
    { rewrite concat_app. simpl. now rewrite app_nil_r. }
    assert (Hwhole : concat (currentDoc st) = concat dropped ++ concat kept).
    { rewrite Hsplit at 1. apply concat_app. }
    constructor; simpl.
    + rewrite Hcat, length_app. lia.
    + lia.
    + apply Forall_app. split; [exact Hdocs |].
      constructor; [lia | constructor].
    + exists (t ++ skipn o (concat (currentDoc st))), tot'.
      split; [now apply Tiles_emit |].
      split.
      * unfold overlapsLast. rewrite rev_app_distr. simpl.
        rewrite Hcat, Hwhole, length_app.
        repeat split; try lia.
        -- rewrite length_app. lia.
        -- replace (length (concat dropped) + length (concat kept) - tot')
             with (length (concat dropped)) by lia.
           rewrite skipn_app_le by lia. rewrite skipn_all. simpl.
           rewrite Hkept, firstn_app_le by lia. now rewrite firstn_all.
      * rewrite Hcat, Hkept, skipn_app_le by lia.
        rewrite skipn_all. simpl. now rewrite Hdone.
Qed.

Lemma rawFold_inv splits done st :
  RawInv done st -> Forall (fun p => length p < size) splits ->
  RawInv (done ++ concat splits) (fold_left rawStep splits st).
Proof.
  intros Hinv Hshort. revert done st Hinv.
  induction Hshort as [| p rest Hp _ IH]; intros done st Hinv; simpl.
  - now rewrite app_nil_r.
  - rewrite app_assoc. apply IH. now apply rawStep_inv.
Qed.

(** Merged without trimming, short pieces give chunks that tile their
    concatenation and never exceed the chunk size. *)
Lemma mergeSplits_raw splits :
  Forall (fun p => length p < size) splits ->
  Tiles overlap (mergeSplits size overlap Some splits []) (concat splits)
  /\ Forall (fun c => length c <= size)
            (mergeSplits size overlap Some splits []).
Proof.
  intros Hshort. unfold mergeSplits.
  assert (Hinit : RawInv [] (mkMergeState [] [] 0)).
  { constructor; simpl; try lia; [constructor |].
    exists [], 0. repeat split. constructor. }
  destruct (rawFold_inv splits [] _ Hinit Hshort)
    as [Htot Hfit Hdocs (t & o & Ht & Hlast & Hdone)].
  fold rawStep. set (st := fold_left rawStep splits _) in *.
  unfold joinDocs. rewrite join_nil. simpl optList. simpl in Hdone.
  split.
  - rewrite Hdone. now apply Tiles_emit.
  - apply Forall_app. split; [exact Hdocs |].
    constructor; [lia | constructor].
Qed.

(** *** Finishing the merged chunks *)

Variable finish : text -> option text.

(** What the slices become once each joined chunk is finished. *)
Definition finished (slices : list text) : list text :=
  flat_map (fun slice => optList (finish slice)) slices.

Lemma finished_app a b : finished (a ++ b) = finished a ++ finished b.
Proof. apply flat_map_app. Qed.

(** A merge state seen through [finish]. *)
Definition view (st : MergeState) : MergeState :=
  mkMergeState (finished (docs st)) (currentDoc st) (total st).

Lemma mergeStep_view st d :
  mergeStep size overlap finish [] (view st) d = view (rawStep st d).
Proof.
  unfold rawStep, mergeStep, view. simpl.
  destruct (Nat.ltb size (total st + length d + length (currentDoc st) * 0));
    [| reflexivity].
  destruct (currentDoc st) as [| p ps]; [reflexivity |].
  unfold joinDocs. simpl. rewrite finished_app. simpl.
  now rewrite app_nil_r.
Qed.

Lemma fold_view splits st :
  fold_left (mergeStep size overlap finish []) splits (view st)
  = view (fold_left rawStep splits st).
Proof.
  revert st. induction splits as [| d rest IH]; intros st; simpl.
  - reflexivity.
  - rewrite mergeStep_view. apply IH.
Qed.

Lemma mergeSplits_view splits :
  mergeSplits size overlap finish splits []
  = finished (mergeSplits size overlap Some splits []).
Proof.
  unfold mergeSplits.
  change (mkMergeState [] [] 0) with (view (mkMergeState [] [] 0)).
  rewrite fold_view. fold rawStep.
  set (st := fold_left rawStep splits _).
  simpl. unfold joinDocs. rewrite finished_app. simpl.
  now rewrite app_nil_r.
Qed.

(** What the splitter promises of the chunks of a text: they are the
    finished forms of slices that tile the text and fit the chunk size. *)
Definition SlicedFrom (chunks : list text) (t : text) : Prop :=
  exists slices,
    Tiles overlap slices t
    /\ Forall (fun slice => length slice <= size) slices
    /\ chunks = finished slices.

Lemma SlicedFrom_nil : SlicedFrom [] [].
Proof. exists []. repeat split; constructor. Qed.

Lemma SlicedFrom_app c1 t1 c2 t2 :
  SlicedFrom c1 t1 -> SlicedFrom c2 t2 -> SlicedFrom (c1 ++ c2) (t1 ++ t2).
Proof.
  intros (s1 & Ht1 & Hs1 & ->) (s2 & Ht2 & Hs2 & ->).
  exists (s1 ++ s2). split; [now apply Tiles_app |].
  split; [apply Forall_app; now split | symmetry; apply finished_app].
Qed.

Lemma flush_sliced goodSplits :
  Forall (fun p => length p < size) goodSplits ->
  SlicedFrom (flush size overlap finish goodSplits) (concat goodSplits).
Proof.
  intros Hshort. destruct goodSplits as [| p ps]; [apply SlicedFrom_nil |].
  unfold flush. rewrite mergeSplits_view.
  destruct (mergeSplits_raw (p :: ps) Hshort) as [Htiles Hfit].
  now exists (mergeSplits size overlap Some (p :: ps) []).
Qed.

Lemma collect_short newSeparators splits goodSplits :
  Forall (fun p => length p < size) splits ->
  collect size overlap finish newSeparators splits goodSplits
  = flush size overlap finish (goodSplits ++ splits).
Proof.
  intros Hshort. revert goodSplits.
  induction Hshort as [| p rest Hp _ IH]; intros goodSplits; simpl.
  - now rewrite app_nil_r.
  - apply Nat.ltb_lt in Hp. rewrite Hp, IH, <- app_assoc. reflexivity.
Qed.

Lemma collect_sliced recurse splits goodSplits :
  (forall piece, SlicedFrom (recurse piece) piece) ->
  Forall (fun p => length p < size) goodSplits ->
  SlicedFrom (collect size overlap finish (Some recurse) splits goodSplits)
             (concat goodSplits ++ concat splits).
Proof.
  intros Hrec. revert goodSplits.
  induction splits as [| p rest IH]; intros goodSplits Hgood; simpl.
  - rewrite app_nil_r. now apply flush_sliced.
  - destruct (Nat.ltb_spec (length p) size) as [Hp | Hp].
    + replace (concat goodSplits ++ p ++ concat rest)
        with (concat (goodSplits ++ [p]) ++ concat rest).
      * apply IH. apply Forall_app. split; [exact Hgood |].
        constructor; [exact Hp | constructor].
      * rewrite concat_app. simpl. now rewrite app_nil_r, <- app_assoc.
    + apply SlicedFrom_app; [now apply flush_sliced |].
      apply SlicedFrom_app; [apply Hrec |].
      apply (IH [] (Forall_nil _)).
Qed.

(** *** Cutting at separators *)

Lemma concat_filter_nonEmpty pieces :
  concat (filter nonEmpty pieces) = concat pieces.
Proof.
  induction pieces as [| p rest IH]; [reflexivity |].
  destruct p as [| c p]; simpl; [exact IH | now rewrite IH].
Qed.

Lemma concat_splitBefore separator t :
  concat (splitBefore separator t) = t.
Proof.
  induction t as [| c rest IH]; [reflexivity |].
  simpl. destruct (startsWith rest separator).
  - simpl. now rewrite IH.
  - destruct (splitBefore separator rest) as [| piece pieces];
      simpl in *; now rewrite IH.
Qed.

Lemma concat_singletons (t : text) : concat (map (fun c => [c]) t) = t.
Proof. induction t as [| c rest IH]; simpl; [reflexivity | now rewrite IH]. Qed.

Lemma concat_splitOnSeparator t separator :
  concat (splitOnSeparator t separator) = t.
Proof.
  unfold splitOnSeparator. rewrite concat_filter_nonEmpty.
  destruct separator; [apply concat_singletons | apply concat_splitBefore].
Qed.

Lemma splitOnSeparator_empty (t : text) :
  splitOnSeparator t [] = map (fun c => [c]) t.
Proof.
  unfold splitOnSeparator.
  induction t as [| c rest IH]; simpl; [reflexivity | now rewrite IH].
Qed.

(** With the empty separator in the list the cascade always ends in
    single characters, so every chunk comes out of a merge. *)
Lemma splitTextFrom_sliced separators fallback t :
  1 < size -> In [] separators ->
  SlicedFrom (splitTextFrom size overlap finish separators fallback t) t.
Proof.
  intros Hsize. revert fallback t.
  induction separators as [| s rest IH]; intros fallback t Hin;
    [contradiction |].
  destruct s as [| c s].
  - simpl. unfold chunksWith. rewrite splitOnSeparator_empty.
    rewrite collect_short.
    + rewrite <- (concat_singletons t) at 2. apply flush_sliced.
      apply Forall_forall. intros p Hp. apply in_map_iff in Hp.
      destruct Hp as (x & <- & _). exact Hsize.
    + apply Forall_forall. intros p Hp. apply in_map_iff in Hp.
      destruct Hp as (x & <- & _). exact Hsize.
  - assert (Hrest : In [] rest).
    { destruct Hin as [Hin | Hin]; [discriminate | exact Hin]. }
    simpl. destruct (includes t (c :: s)).
    + unfold chunksWith.
      rewrite <- (concat_splitOnSeparator t (c :: s)) at 2.
      apply (collect_sliced _ _ []); [| constructor].
      intros piece. now apply IH.
    + now apply IH.
Qed.

End Merging.

(** *** Text without separators: fixed-width windows *)

Definition singles (t : text) : list text := map (fun c => [c]) t.

Lemma firstn_plus {A} a b (l : list A) :
  firstn (a + b) l = firstn a l ++ firstn b (skipn a l).
Proof.
  revert l. induction a as [| a IH]; intros l; [reflexivity |].
  destruct l as [| x l]; simpl.
  - now rewrite firstn_nil.
  - now rewrite IH.
Qed.

(** The window that starts [stride] characters after a window of [n]
    characters at [k]. *)
Lemma next_window {A} (t : list A) k n stride m :
  stride <= n ->
  skipn stride (firstn n (skipn k t)) ++ firstn m (skipn (k + n) t)
  = firstn (n - stride + m) (skipn (k + stride) t).
Proof.
  intros Hstride.
  rewrite skipn_firstn_comm, firstn_plus, !skipn_skipn.
  replace (stride + k) with (k + stride) by lia.
  replace (n - stride + (k + stride)) with (k + n) by lia. reflexivity.
Qed.

Section Windows.

Variables size overlap : nat.
Variable finish : text -> option text.
Hypothesis overlap_lt_size : overlap < size.

Lemma step_push ds u c :
  length u < size ->
  mergeStep size overlap finish [] (mkMergeState ds (singles u) (length u)) [c]
  = mkMergeState ds (singles (u ++ [c])) (length (u ++ [c])).
Proof.
  intros Hu. unfold mergeStep. simpl.
  rewrite Nat.mul_0_r, Nat.add_0_r.
  destruct (Nat.ltb_spec size (length u + 1)) as [Hfull | _]; [lia |].
  unfold singles. rewrite map_app, length_app. reflexivity.
Qed.

Lemma fold_fill ds u r1 r2 :
  length u + length r1 <= size ->
  fold_left (mergeStep size overlap finish []) (singles (r1 ++ r2))
    (mkMergeState ds (singles u) (length u))
  = fold_left (mergeStep size overlap finish []) (singles r2)
      (mkMergeState ds (singles (u ++ r1)) (length (u ++ r1))).
Proof.
  revert u. induction r1 as [| c r1 IH]; intros u Hroom.
  - simpl. now rewrite app_nil_r.
  - simpl in Hroom. simpl fold_left.
    rewrite step_push by lia.
    rewrite IH by (rewrite length_app; simpl; lia).
    now rewrite <- app_assoc.
Qed.

Lemma shiftWhile_singles u :
  overlap <= length u ->
  shiftWhile size overlap 1 0 (singles u) (length u)
  = (singles (skipn (length u - overlap) u), overlap).
Proof.
  induction u as [| c u IH]; intros Hu.
  - simpl in *. now replace overlap with 0 by lia.
  - unfold singles. cbn [map]. rewrite shiftWhile_cons.
    cbn [length]. rewrite Nat.mul_0_r, Nat.add_0_r.
    destruct (Nat.ltb_spec overlap (S (length u))) as [Hmore | Hstop].
    + cbn [orb]. replace (S (length u) - 1) with (length u) by lia.
      fold (singles u). rewrite IH by lia.
      replace (S (length u) - overlap) with (S (length u - overlap)) by lia.
      reflexivity.
    + assert (Heq : S (length u) = overlap) by (cbn [length] in Hu; lia).
      destruct (Nat.ltb_spec size (S (length u) + 1)) as [Hbig | _]; [lia |].
      cbn [orb andb]. rewrite Heq, Nat.sub_diag. reflexivity.
Qed.

Lemma step_emit ds u c :
  length u = size ->
  mergeStep size overlap finish [] (mkMergeState ds (singles u) (length u)) [c]
  = mkMergeState (ds ++ optList (finish u))
      (singles (skipn (size - overlap) u ++ [c]))
      (length (skipn (size - overlap) u ++ [c])).
Proof.
  intros Hu. unfold mergeStep. cbn [total currentDoc docs].
  change (length [c]) with 1. change (length (@nil ascii)) with 0.
  rewrite Nat.mul_0_r, Nat.add_0_r.
  destruct (Nat.ltb_spec size (length u + 1)) as [_ | Hroom]; [| lia].
  assert (Hjoin : joinDocs finish (singles u) [] = finish u).
  { unfold joinDocs, singles. now rewrite join_nil, concat_singletons. }
  rewrite shiftWhile_singles by lia. rewrite Hjoin, Hu. cbn [fst snd].
  destruct (singles u) as [| p ps] eqn:Hsingles.
  - destruct u; [simpl in Hu; lia | discriminate].
  - unfold singles. rewrite map_app, !length_app, length_skipn.
    cbn [map length]. f_equal. lia.
Qed.

(** A full window is emitted and the next one is filled. *)
Lemma fold_emit_fill ds u r1 r2 :
  length u = size -> 0 < length r1 <= size - overlap ->
  fold_left (mergeStep size overlap finish []) (singles (r1 ++ r2))
    (mkMergeState ds (singles u) (length u))
  = fold_left (mergeStep size overlap finish []) (singles r2)
      (mkMergeState (ds ++ optList (finish u))
         (singles (skipn (size - overlap) u ++ r1))
         (length (skipn (size - overlap) u ++ r1))).
Proof.
  intros Hu Hr1. destruct r1 as [| c r1]; [simpl in Hr1; lia |].
  simpl app. simpl fold_left. rewrite step_emit by exact Hu.
  rewrite fold_fill.
  - now rewrite <- app_assoc.
  - rewrite length_app, length_skipn. simpl in *. lia.
Qed.

(** A text a little longer than a window and two strides is merged
    into four windows, each starting one stride after the other. *)
Lemma merge_four_windows t :
  size + 2 * (size - overlap) < length t <= size + 3 * (size - overlap) ->
  mergeSplits size overlap finish (singles t) []
  = optList (finish (firstn size t))
    ++ optList (finish (firstn size (skipn (size - overlap) t)))
    ++ optList (finish (firstn size (skipn (2 * (size - overlap)) t)))
    ++ optList (finish (skipn (3 * (size - overlap)) t)).
Proof.
  set (stride := size - overlap). intros Hlen.
  set (a := firstn size t).
  set (b := firstn stride (skipn size t)).
  set (c := firstn stride (skipn (size + stride) t)).
  set (d := skipn (size + 2 * stride) t).
  assert (Ht : t = a ++ b ++ c ++ (d ++ [])).
  { unfold a, b, c, d. rewrite app_nil_r.
    rewrite <- (firstn_skipn size t) at 1. f_equal.
    rewrite <- (firstn_skipn stride (skipn size t)) at 1. f_equal.
    rewrite skipn_skipn.
    replace (stride + size) with (size + stride) by lia.
    rewrite <- (firstn_skipn stride (skipn (size + stride) t)) at 1. f_equal.
    rewrite skipn_skipn. f_equal. lia. }
  assert (Ha : length a = size).
  { unfold a. rewrite length_firstn. lia. }
  assert (Hb : length b = stride).
  { unfold b. rewrite length_firstn, length_skipn. lia. }
  assert (Hc : length c = stride).
  { unfold c. rewrite length_firstn, length_skipn. lia. }
  assert (Hd : 0 < length d <= stride).
  { unfold d. rewrite length_skipn. lia. }
  assert (Hu1 : skipn stride a ++ b = firstn size (skipn stride t)).
  { unfold a, b.
    pose proof (next_window t 0 size stride stride) as Hnext.
    cbn [skipn Nat.add] in Hnext. rewrite Hnext by (unfold stride; lia).
    f_equal. unfold stride. lia. }
  assert (Hu2 : skipn stride (firstn size (skipn stride t)) ++ c
                = firstn size (skipn (2 * stride) t)).
  { unfold c. replace (size + stride) with (stride + size) by lia.
    rewrite (next_window t stride size stride stride) by (unfold stride; lia).
    f_equal; [unfold stride; lia | f_equal; lia]. }
  assert (Hu3 : skipn stride (firstn size (skipn (2 * stride) t)) ++ d
                = skipn (3 * stride) t).
  { unfold d.
    rewrite <- (firstn_all (skipn (size + 2 * stride) t)).
    replace (size + 2 * stride) with (2 * stride + size) by lia.
    rewrite (next_window t (2 * stride) size stride) by (unfold stride; lia).
    replace (2 * stride + stride) with (3 * stride) by lia.
    apply firstn_all2. rewrite !length_skipn. unfold stride. lia. }
  assert (Hfold :
    fold_left (mergeStep size overlap finish []) (singles t)
      (mkMergeState [] [] 0)
    = mkMergeState
        ((([] ++ optList (finish a))
          ++ optList (finish (firstn size (skipn stride t))))
         ++ optList (finish (firstn size (skipn (2 * stride) t))))
        (singles (skipn (3 * stride) t))
        (length (skipn (3 * stride) t))).
  { rewrite Ht at 1.
    change (mkMergeState [] [] 0)
      with (mkMergeState [] (singles []) (length (@nil ascii))).
    rewrite fold_fill by (simpl; lia). rewrite app_nil_l.
    rewrite fold_emit_fill by (fold stride; lia). fold stride.
    rewrite Hu1.
    rewrite fold_emit_fill
      by (fold stride; rewrite ?length_firstn, ?length_skipn; lia).
    fold stride. rewrite Hu2.
    rewrite fold_emit_fill
      by (fold stride; rewrite ?length_firstn, ?length_skipn; lia).
    fold stride. rewrite Hu3. reflexivity. }
  unfold mergeSplits. cbv zeta. rewrite Hfold. cbn [docs currentDoc].
  unfold joinDocs, singles. rewrite join_nil, concat_singletons.
  cbn [app]. now rewrite <- !app_assoc.
Qed.

End Windows.

(** *** Trimming *)

Lemma trimStart_length t : length (trimStart t) <= length t.
Proof.
  induction t as [| c rest IH]; simpl; [lia |].
  destruct (isSpace c); simpl; lia.
Qed.

Lemma trim_length t : length (trim t) <= length t.
Proof.
  unfold trim. rewrite length_rev.
  etransitivity; [apply trimStart_length |].
  rewrite length_rev. apply trimStart_length.
Qed.

Lemma trimStart_clean t :
  Forall (fun c => isSpace c = false) t -> trimStart t = t.
Proof.
  intros Hclean. destruct Hclean as [| c rest Hc _]; simpl; [reflexivity |].
  now rewrite Hc.
Qed.

Lemma trim_clean t : Forall (fun c => isSpace c = false) t -> trim t = t.
Proof.
  intros Hclean. unfold trim. rewrite (trimStart_clean t Hclean).
  rewrite trimStart_clean; [apply rev_involutive |].
  now apply Forall_rev.
Qed.

Lemma finished_trimmed_length slices n :
  Forall (fun slice => length slice <= n) slices ->
  Forall (fun chunk => length chunk <= n) (finished trimmed slices).
Proof.
  induction 1 as [| slice rest Hslice _ IH]; [constructor |].
  change (finished trimmed (slice :: rest))
    with (optList (trimmed slice) ++ finished trimmed rest).
  apply Forall_app. split; [| exact IH].
  unfold trimmed. assert (Hlen := trim_length slice).
  destruct (trim slice); simpl; constructor; [simpl in *; lia | constructor].
Qed.

Lemma finished_trimmed_clean slices :
  Forall (Forall (fun c => isSpace c = false)) slices ->
  finished trimmed slices = filter nonEmpty slices.
Proof.
  induction 1 as [| slice rest Hslice _ IH]; [reflexivity |].
  change (finished trimmed (slice :: rest))
    with (optList (trimmed slice) ++ finished trimmed rest).
  rewrite IH. unfold trimmed.
  rewrite (trim_clean slice Hslice). now destruct slice.
Qed.

(** *** Tilings and empty or clean slices *)

Lemma Tiles_filter_nonEmpty overlap cs t :
  Tiles overlap cs t -> Tiles overlap (filter nonEmpty cs) t.
Proof.
  induction 1 as [| c | c1 c2 rest t o Ho Ho1 Ho2 Hshare Ht IH].
  - constructor.
  - destruct c; simpl; constructor.
  - destruct c1 as [| x c1].
    + assert (o = 0) by (simpl in Ho1; lia). subst o. exact IH.
    + destruct c2 as [| y c2].
      * assert (o = 0) by (simpl in Ho2; lia). subst o.
        simpl in IH. simpl filter. rewrite skipn_0.
        apply (Tiles_app overlap [x :: c1] (x :: c1) _ t);
          [constructor | exact IH].
      * simpl in IH. simpl filter. now apply tiles_next.
Qed.

Lemma Tiles_chars overlap cs t :
  Tiles overlap cs t -> Forall (fun c => incl c t) cs.
Proof.
  induction 1 as [| c | c1 c2 rest t o Ho Ho1 Ho2 Hshare Ht IH].
  - constructor.
  - constructor; [apply incl_refl | constructor].
  - assert (Hkeep : incl t (c1 ++ skipn o t)).
    { destruct (Tiles_starts_with _ _ _ _ Ht) as (tail & Htail).
      intros x Hx. rewrite <- (firstn_skipn o t) in Hx.
      apply in_app_or in Hx. apply in_or_app. destruct Hx as [Hx | Hx].
      - left. rewrite Htail, firstn_app_le in Hx by exact Ho2.
        rewrite <- Hshare in Hx.
        rewrite <- (firstn_skipn (length c1 - o) c1).
        apply in_or_app. now right.
      - now right. }
    constructor; [apply incl_appl, incl_refl |].
    eapply Forall_impl; [| exact IH].
    intros c Hc. cbv beta in Hc. exact (incl_tran Hc Hkeep).
Qed.

(** *** The splitter of [ingestDocument] *)

Lemma splitText_sliced t : SlicedFrom 1500 300 trimmed (splitText t) t.
Proof.
  unfold splitText, splitTextWith, chunkSize, chunkOverlap.
  apply splitTextFrom_sliced; [lia |].
  unfold separators. simpl. tauto.
Qed.

Lemma splitText_chunk_size t :
  Forall (fun chunk => length chunk <= 1500) (splitText t).
Proof.
  destruct (splitText_sliced t) as (slices & _ & Hfit & ->).
  now apply finished_trimmed_length.
Qed.

(** C7 (as amended). For any document text the chunks are the
    whitespace-trimmed forms of slices of the text that overlap by at
    most 300 characters and, with the overlaps removed, reconstruct the
    text exactly; whitespace at either end of a slice is dropped from its
    chunk, and a slice of whitespace only gives no chunk.  For a text
    without whitespace the chunks themselves reconstruct the text. *)
Theorem chunks_are_trimmed_tiles :
  forall t : text,
    (exists slices,
        Tiles chunkOverlap slices t
        /\ Forall (fun slice => length slice <= chunkSize) slices
        /\ splitText t = flat_map (fun slice => optList (trimmed slice)) slices)
    /\ (Forall (fun c => isSpace c = false) t ->
        Tiles chunkOverlap (splitText t) t).
Proof.
  intros t. destruct (splitText_sliced t) as (slices & Htiles & Hfit & Hchunks).
  split; [now exists slices |].
  intros Hclean. rewrite Hchunks, finished_trimmed_clean.
  - now apply Tiles_filter_nonEmpty.
  - eapply Forall_impl; [| apply (Tiles_chars _ _ _ Htiles)].
    intros slice Hincl. apply Forall_forall. intros c Hc.
    rewrite Forall_forall in Hclean. now apply Hclean, Hincl.
Qed.

(** Two runs of letters, 1499 each, with one space between them. *)
Definition twoWords : text :=
  repeat "a"%char 1499 ++ " "%char :: repeat "b"%char 1499.

(** C7, counterexample. The space between the two words is at the edge
    of a slice and is trimmed away: the chunks hold 2998 of the 2999
    characters, so no removal of overlaps gives the text back. *)
Lemma trimmed_space_is_lost :
  length twoWords = 2999
  /\ splitText twoWords = [repeat "a"%char 1499; repeat "b"%char 1499]
  /\ ~ Tiles chunkOverlap (splitText twoWords) twoWords.
Proof.
  assert (Hchunks : splitText twoWords
                    = [repeat "a"%char 1499; repeat "b"%char 1499])
    by (vm_compute; reflexivity).
  split; [vm_compute; reflexivity |]. split; [exact Hchunks |].
  intros Htiles. apply Tiles_length in Htiles.
  rewrite Hchunks in Htiles. vm_compute in Htiles. lia.
Qed.

Lemma chunks_are_trimmed_tiles_witness :
  Tiles chunkOverlap (splitText (repeat "a"%char 2000)) (repeat "a"%char 2000).
Proof.
  apply (proj2 (chunks_are_trimmed_tiles (repeat "a"%char 2000))).
  apply Forall_forall. intros c Hc. apply repeat_spec in Hc. now subst.
Defined.

(** *** Texts without separators *)

(** Neither whitespace nor one of the punctuation separators. *)
Definition plainChar (c : ascii) : bool :=
  negb (isSpace c)
  && negb (Ascii.eqb c "." || Ascii.eqb c "!" || Ascii.eqb c "?"
           || Ascii.eqb c ",")%char.

Definition newlineChar : ascii := ascii_of_nat 10.

Lemma separators_eq :
  separators =
  [ [newlineChar; newlineChar]; [newlineChar]; ["."%char]; ["!"%char];
    ["?"%char]; [","%char]; [" "%char]; [] ].
Proof. reflexivity. Qed.

Lemma includes_absent t c s :
  (forall x, In x t -> Ascii.eqb c x = false) -> includes t (c :: s) = false.
Proof.
  induction t as [| a rest IH]; intros Habsent; [reflexivity |].
  simpl. rewrite (Habsent a (or_introl eq_refl)). simpl.
  apply IH. intros x Hx. apply Habsent. now right.
Qed.

Lemma plain_excludes t c :
  Forall (fun x => plainChar x = true) t -> plainChar c = false ->
  forall x, In x t -> Ascii.eqb c x = false.
Proof.
  intros Hplain Hc x Hx. rewrite Forall_forall in Hplain.
  destruct (Ascii.eqb_spec c x) as [-> | _]; [| reflexivity].
  rewrite (Hplain x Hx) in Hc. discriminate.
Qed.

Lemma plain_clean t :
  Forall (fun x => plainChar x = true) t ->
  Forall (fun x => isSpace x = false) t.
Proof.
  apply Forall_impl. intros x Hx. unfold plainChar in Hx.
  apply andb_true_iff in Hx. destruct Hx as [Hx _].
  now apply negb_true_iff in Hx.
Qed.

(** A text without separators goes to the merge character by
    character. *)
Lemma splitText_plain t :
  Forall (fun x => plainChar x = true) t ->
  splitText t = flush chunkSize chunkOverlap trimmed (singles t).
Proof.
  intros Hplain. unfold splitText, splitTextWith. rewrite separators_eq.
  cbn [splitTextFrom].
  rewrite !includes_absent
    by (apply (plain_excludes t); [exact Hplain | reflexivity]).
  unfold chunksWith. rewrite splitOnSeparator_empty.
  rewrite collect_short; [reflexivity |].
  apply Forall_forall. intros p Hp. apply in_map_iff in Hp.
  destruct Hp as (x & <- & _). unfold chunkSize. simpl. lia.
Qed.

Lemma trimmed_plain t :
  Forall (fun x => plainChar x = true) t -> t <> [] -> trimmed t = Some t.
Proof.
  intros Hplain Hne. unfold trimmed.
  rewrite (trim_clean t (plain_clean t Hplain)).
  destruct t; [contradiction | reflexivity].
Qed.

Lemma Forall_cut {A} (P : A -> Prop) n l :
  Forall P l -> Forall P (firstn n l) /\ Forall P (skipn n l).
Proof.
  intros H. rewrite <- (firstn_skipn n l) in H.
  now apply Forall_app in H.
Qed.

Lemma window_plain t k n :
  Forall (fun c => plainChar c = true) t ->
  Forall (fun c => plainChar c = true) (firstn n (skipn k t))
  /\ Forall (fun c => plainChar c = true) (skipn k t).
Proof.
  intros Hplain. destruct (Forall_cut _ k t Hplain) as [_ Hskip].
  split; [now apply Forall_cut | exact Hskip].
Qed.

(** C6 (as amended). Every chunk of a 4000-character text has at most
    1500 characters; how many chunks there are depends on the text.  A
    text with no separator and no whitespace character is cut into
    exactly 4 chunks, which start at characters 0, 1200, 2400 and 3600,
    so that each consecutive pair overlaps by exactly 300 characters. *)
Theorem chunks_of_4000_characters :
  forall t : text,
    length t = 4000 ->
    Forall (fun chunk => length chunk <= 1500) (splitText t)
    /\ (Forall (fun c => plainChar c = true) t ->
        splitText t =
          [ firstn 1500 t; firstn 1500 (skipn 1200 t);
            firstn 1500 (skipn 2400 t); skipn 3600 t ]
        /\ skipn 1200 (firstn 1500 t) = firstn 300 (firstn 1500 (skipn 1200 t))
        /\ skipn 1200 (firstn 1500 (skipn 1200 t))
           = firstn 300 (firstn 1500 (skipn 2400 t))
        /\ skipn 1200 (firstn 1500 (skipn 2400 t))
           = firstn 300 (skipn 3600 t)).
Proof.
  intros t Hlen. split; [apply splitText_chunk_size |].
  intros Hplain. split.
  - rewrite (splitText_plain t Hplain).
    destruct (singles t) as [| p ps] eqn:Hsingles.
    { destruct t; [discriminate Hlen | discriminate Hsingles]. }
    rewrite <- Hsingles. unfold flush. rewrite Hsingles at 1.
    unfold chunkSize, chunkOverlap.
    rewrite merge_four_windows by (rewrite ?Hlen; lia).
    change (1500 - 300) with 1200.
    change (2 * 1200) with 2400. change (3 * 1200) with 3600.
    assert (Hne : forall k n, k < 4000 -> 0 < n ->
                    firstn n (skipn k t) <> [] /\ skipn k t <> []).
    { intros k n Hk Hn.
      split; intros Hempty; apply (f_equal (@length ascii)) in Hempty;
        rewrite ?length_firstn, length_skipn, Hlen in Hempty;
        change (length (@nil ascii)) with 0 in Hempty; lia. }
    rewrite (trimmed_plain (firstn 1500 t)).
    + rewrite (trimmed_plain (firstn 1500 (skipn 1200 t)));
        [| apply (window_plain t 1200 1500 Hplain) | apply Hne; lia].
      rewrite (trimmed_plain (firstn 1500 (skipn 2400 t)));
        [| apply (window_plain t 2400 1500 Hplain) | apply Hne; lia].
      rewrite (trimmed_plain (skipn 3600 t));
        [| apply (window_plain t 3600 0 Hplain) | apply (Hne 3600 1); lia].
      reflexivity.
    + now apply Forall_cut.
    + apply (Hne 0 1500); lia.
  - rewrite !skipn_firstn_comm, !skipn_skipn, !firstn_firstn.
    repeat split; reflexivity.
Qed.

(** C6, counterexample. A 4000-character text of one repeated letter
    gives 4 chunks, not 3. *)
Lemma four_chunks_not_three :
  length (repeat "a"%char 4000) = 4000
  /\ length (splitText (repeat "a"%char 4000)) = 4
  /\ map (@length ascii) (splitText (repeat "a"%char 4000))
     = [1500; 1500; 1500; 400].
Proof. vm_compute. repeat split. Qed.

Lemma chunks_of_4000_characters_witness :
  splitText (repeat "x"%char 4000) =
  [ firstn 1500 (repeat "x"%char 4000);
    firstn 1500 (skipn 1200 (repeat "x"%char 4000));
    firstn 1500 (skipn 2400 (repeat "x"%char 4000));
    skipn 3600 (repeat "x"%char 4000) ].
Proof.
  apply (proj2 (chunks_of_4000_characters (repeat "x"%char 4000)
                  (repeat_length "x"%char 4000))).
  apply Forall_forall. intros c Hc. apply repeat_spec in Hc. now subst.
Defined.

(** Five sentences of 700 characters and a last one of 500: the same
    4000 characters in 3 chunks that share nothing. *)
Example three_chunks_without_overlap :
  let sentence := repeat "a"%char 698 ++ ["."%char; " "%char] in
  let t := concat (repeat sentence 5) ++ repeat "a"%char 500 in
  length t = 4000
  /\ map (@length ascii) (splitText t) = [1398; 1400; 1202].
Proof. vm_compute. split; reflexivity. Qed.

(** The scenario end to end: a file of 4000 letters is ingested with this
    splitter and ends up as one document row and four embedding rows. *)
Example ingest_4000_characters :
  let svc :=
    mkServices (fun _ => Some [1%Q]) (fun _ => None) (fun _ => None)
      (fun _ _ => 0%Q) Engines.stableEngine (fun _ => true)
      (fun _ => Some (string_of_list_ascii (repeat "a"%char 4000)))
      (fun path => path) createDocuments
      (fun _ => None) (fun _ => None)
      (fun _ => "Summary generation failed.")
      (fun _ => "Summary generation failed.")
      (fun _ => "2024-12-31") in
  let result :=
    BatchIngest.ingestDocument svc
      (BatchIngest.mkOptions "act.pdf" "Act" "constitution" None None false)
      emptyWorld in
  fst result = Ok (BatchIngest.Ingested 0 4)
  /\ length (documents (snd result)) = 1
  /\ map (fun row => String.length (emb_content row))
         (embeddings (snd result))
     = [1500; 1500; 1500; 400].
Proof. vm_compute. repeat split. Qed.

End TextSplitterSpec.

(** ** Retrieval: what is returned and what is left out *)

Module RetrievalFacts.

Import Embedding EmbeddingSpec RetrievalSpec.



Section Best.

Variable engine : SqlEngine.
Context {R : Type}.
Variable key : R -> Q.
Variable threshold : Q.
Variable k : nat.


End Best.


Lemma leftJoin_right {L R} (on : L -> R -> bool) ls rs row :
  In row (leftJoin on ls rs) ->
  match snd row with
  | Some r => In r rs /\ on (fst row) r = true
  | None => forall r, In r rs -> on (fst row) r = false
  end.
Proof.
  unfold leftJoin. intros Hin. apply in_flat_map in Hin.
  destruct Hin as (l & _ & Hrow).
  destruct (filter (on l) rs) as [| m ms] eqn:Hf.
  - destruct Hrow as [<- | []]. simpl. intros r Hr.
    destruct (on l r) eqn:Hon; [| reflexivity].
    assert (Hin : In r (filter (on l) rs)) by (apply filter_In; auto).
    rewrite Hf in Hin. contradiction.
  - apply in_map_iff in Hrow. destruct Hrow as (r & <- & Hr). simpl.
    rewrite <- Hf in Hr. now apply filter_In in Hr.
Qed.




(** Where the title and the type of a hit come from. *)
Definition fromDocumentOf (w : World) (e : EmbeddingRow) (h : ContentHit)
  : Prop :=
  match documentTitle h with
  | Some t =>
      exists d, In d (documents w) /\ doc_id d = resourceId e
                /\ doc_title d = t /\ documentType h = Some (doc_type d)
  | None =>
      documentType h = None
      /\ forall d, In d (documents w) -> doc_id d <> resourceId e
  end.

(** X2. Every record [findRelevantContent] returns is a stored chunk:
    its page number and section are read off the chunk's metadata, and
    its title and type are those of the document row the chunk refers
    to.  A chunk whose document row is missing is returned all the same,
    with a null title and a null type. *)
Theorem hits_carry_their_document :
  forall (svc : Services) (userQuery : string) (w : World)
         (hits : list ContentHit) (w' : World),
    findRelevantContent svc userQuery w = (Ok hits, w') ->
    Forall (fun h =>
              exists e, In e (embeddings w)
                        /\ hit_content h = emb_content e
                        /\ hit_pageNumber h = pageNumber (emb_metadata e)
                        /\ hit_section h = section (emb_metadata e)
                        /\ fromDocumentOf w e h) hits.
Proof.
  intros svc userQuery w hits w' Hrun.
  apply findRelevantContent_ok in Hrun. destruct Hrun as (qv & Hqv & ->).
  rewrite queryContent_topK. apply Forall_map, Forall_forall.
  intros row Hrow. apply topK_In in Hrow. destruct Hrow as [Hrow _].
  exists (fst row). split; [now apply leftJoin_left in Hrow |].
  repeat split.
  apply leftJoin_right in Hrow. unfold fromDocumentOf, selectContent. simpl.
  destruct (snd row) as [d |]; simpl.
  - destruct Hrow as [Hd Hon]. apply Nat.eqb_eq in Hon.
    exists d. repeat split; auto.
  - split; [reflexivity |]. intros d Hd Heq.
    specialize (Hrow d Hd). apply Nat.eqb_neq in Hrow. congruence.
Qed.

(** A chunk whose document row is gone, close to every query. *)
Definition orphanWorld : World :=
  mkWorld []
    [ mkEmbeddingRow 10 7 [0.10%Q] "Article 25: equality of citizens."
        (mkChunkMetadata 4 (Some "Article 25") None) ]
    [] [] [] [] [] 0.

Lemma hits_carry_their_document_witness :
  exists hits w',
    findRelevantContent constituencyServices "What is Article 25?" orphanWorld
      = (Ok hits, w')
    /\ map hit_content hits = ["Article 25: equality of citizens."]
    /\ map documentTitle hits = [None]
    /\ Forall (fun h =>
                 exists e, In e (embeddings orphanWorld)
                           /\ hit_content h = emb_content e
                           /\ hit_pageNumber h = pageNumber (emb_metadata e)
                           /\ hit_section h = section (emb_metadata e)
                           /\ fromDocumentOf orphanWorld e h) hits.
Proof.
  eexists. eexists. split; [vm_compute; reflexivity |].
  split; [reflexivity |]. split; [reflexivity |].
  eapply (hits_carry_their_document constituencyServices
            "What is Article 25?" orphanWorld).
  vm_compute. reflexivity.
Defined.

End RetrievalFacts.

(** ** The log of outside calls *)

Module Logs.

Import EmbeddingSpec.

(** The world after some more calls were issued. *)
Definition loggedAll (calls : list ApiCall) (w : World) : World :=
  mkWorld (documents w) (embeddings w) (bills w) (proceedings w)
          (representatives w) (representativeEmbeddings w)
          (apiCalls w ++ calls) (nextId w).

Lemma loggedAll_nil w : loggedAll [] w = w.
Proof. destruct w. unfold loggedAll. simpl. now rewrite app_nil_r. Qed.

Lemma logged_loggedAll c calls w :
  logged c (loggedAll calls w) = loggedAll (calls ++ [c]) w.
Proof. unfold logged, loggedAll. simpl. now rewrite app_assoc. Qed.

Lemma loggedAll_loggedAll calls more w :
  loggedAll more (loggedAll calls w) = loggedAll (calls ++ more) w.
Proof. unfold loggedAll. simpl. now rewrite app_assoc. Qed.

Lemma logged_one c w : logged c w = loggedAll [c] w.
Proof. reflexivity. Qed.

End Logs.

(** ** The chat route: what a request does to the outside world *)

Module ChatRouteFacts.

Import Embedding EmbeddingSpec RetrievalSpec ChatRoute ChatRouteSpec Logs.

Lemma detectQueryTypes_run svc query w :
  detectQueryTypes svc query w =
  (match generateText svc query with
   | Some analysis => Ok (queryTypesOf svc analysis)
   | None => Throw (ApiCallError "generateText")
   end, logged (GenerateTextCall query) w).
Proof.
  unfold detectQueryTypes, generateTextCall, bind, logCall, modifyWorld, ret,
    logged.
  destruct (generateText svc query); reflexivity.
Qed.

(** The embedding calls of the searches a tag list selects. *)
Definition searchCalls (tags : list JSON) (query : string) : list ApiCall :=
  (if includes tags "representative" then [EmbedCall query] else [])
  ++ (if includes tags "bill" || includes tags "document"
      then [EmbedCall query] else []).

Lemma searches_world svc tags query w :
  snd (promiseAll (searchPromises (findRelevantRepresentatives svc)
                     (findRelevantContent svc) tags query) w)
  = loggedAll (searchCalls tags query) w.
Proof.
  unfold searchPromises, searchCalls.
  destruct (includes tags "representative");
    destruct (includes tags "bill" || includes tags "document");
    simpl; unfold bind;
    rewrite ?findRelevantRepresentatives_run;
    try (destruct (embed svc query);
         try destruct (selectAnswered svc "representative_embeddings");
         simpl; unfold bind);
    rewrite ?findRelevantContent_run;
    try (destruct (embed svc query);
         try destruct (selectAnswered svc "embeddings"); simpl);
    rewrite ?logged_one, ?loggedAll_loggedAll, ?loggedAll_nil;
    reflexivity.
Qed.

Lemma POST_world svc messages m w :
  at_index messages (Z.of_nat (length messages) - 1) = Some m ->
  snd (POST svc messages w) =
  match generateText svc (msg_content m) with
  | Some analysis =>
      loggedAll (GenerateTextCall (msg_content m)
                 :: searchCalls (queryTypesOf svc analysis) (msg_content m)) w
  | None => loggedAll [GenerateTextCall (msg_content m)] w
  end.
Proof.
  intros Hlast. unfold POST, POST_with, bind. rewrite Hlast.
  rewrite detectQueryTypes_run.
  destruct (generateText svc (msg_content m)) as [analysis |];
    [| reflexivity].
  assert (Hw := searches_world svc (queryTypesOf svc analysis)
                  (msg_content m)
                  (logged (GenerateTextCall (msg_content m)) w)).
  destruct (promiseAll _ _) as [[results | e] w2]; simpl in *; subst w2;
    now rewrite logged_one, loggedAll_loggedAll.
Qed.

(** X3. A chat request whose classification call is answered leaves
    every table as it was, whether its searches succeed or not.  It
    issues the classification call and then one embedding call of the
    last message per selected search: one if the tags name
    representatives, and a single one for the chunks whether the tags
    name bills, documents or both. *)
Theorem chat_request_reads_only :
  forall (svc : Services) (messages : list Message) (m : Message)
         (analysis : string) (w : World),
    at_index messages (Z.of_nat (length messages) - 1) = Some m ->
    generateText svc (msg_content m) = Some analysis ->
    let query := msg_content m in
    let tags := queryTypesOf svc analysis in
    let w' := snd (POST svc messages w) in
    documents w' = documents w
    /\ embeddings w' = embeddings w
    /\ bills w' = bills w
    /\ proceedings w' = proceedings w
    /\ representatives w' = representatives w
    /\ representativeEmbeddings w' = representativeEmbeddings w
    /\ apiCalls w' =
         apiCalls w ++ [GenerateTextCall query]
         ++ (if includes tags "representative" then [EmbedCall query] else [])
         ++ (if includes tags "bill" || includes tags "document"
             then [EmbedCall query] else []).
Proof.
  intros svc messages m analysis w Hlast Hgen. cbv zeta.
  rewrite (POST_world svc messages m w Hlast), Hgen.
  repeat split.
Qed.

Lemma chat_request_reads_only_witness :
  let w' := snd (POST halfDownServices question billWorld) in
  documents w' = documents billWorld
  /\ embeddings w' = embeddings billWorld
  /\ apiCalls w' =
       [ GenerateTextCall "Did MNA Y propose any bills?";
         EmbedCall "Did MNA Y propose any bills?";
         EmbedCall "Did MNA Y propose any bills?" ].
Proof.
  destruct (chat_request_reads_only halfDownServices question
              (mkMessage "user" "Did MNA Y propose any bills?") "tags"
              billWorld eq_refl eq_refl)
    as (Hdocs & Hembs & _ & _ & _ & _ & Hcalls).
  cbv zeta. repeat split; assumption.
Defined.




(** X5. The fallback of the classifier covers answers that cannot be
    read, not a call that fails: when the model rejects the call,
    [detectQueryTypes] is rejected with it, and so is the chat request,
    after that one call and before any search. *)
Theorem classifier_rejection_is_not_recovered :
  forall (svc : Services) (messages : list Message) (m : Message) (w : World),
    at_index messages (Z.of_nat (length messages) - 1) = Some m ->
    generateText svc (msg_content m) = None ->
    detectQueryTypes svc (msg_content m) w =
      (Throw (ApiCallError "generateText"),
       logged (GenerateTextCall (msg_content m)) w)
    /\ POST svc messages w =
         (Throw (ApiCallError "generateText"),
          logged (GenerateTextCall (msg_content m)) w).
Proof.
  intros svc messages m w Hlast Hgen.
  assert (Hdetect : detectQueryTypes svc (msg_content m) w =
                    (Throw (ApiCallError "generateText"),
                     logged (GenerateTextCall (msg_content m)) w)).
  { now rewrite detectQueryTypes_run, Hgen. }
  split; [exact Hdetect |].
  unfold POST, POST_with, bind. now rewrite Hlast, Hdetect.
Qed.

(** Services whose chat model is down. *)
Definition silentModelServices : Services :=
  mkServices (fun _ => Some [1%Q]) (fun _ => None) (fun _ => None)
    (fun _ _ => 0%Q) Engines.stableEngine (fun _ => true) (fun _ => None)
    (fun path => path) (fun _ => []) (fun _ => None) (fun _ => None)
    (fun _ => "") (fun _ => "") (fun _ => "").

Lemma classifier_rejection_is_not_recovered_witness :
  fst (POST silentModelServices question mixedWorld)
    = Throw (ApiCallError "generateText")
  /\ apiCalls (snd (POST silentModelServices question mixedWorld))
     = [GenerateTextCall "Did MNA Y propose any bills?"].
Proof.
  destruct (classifier_rejection_is_not_recovered silentModelServices
              question (mkMessage "user" "Did MNA Y propose any bills?")
              mixedWorld eq_refl eq_refl) as [_ Hpost].
  rewrite Hpost. split; reflexivity.
Defined.

(** X6. Retrieval looks at the content of the last message only: two
    conversations that end with the same text get the same context and
    make the same calls (or fail alike), whatever came before and
    whatever the role of the last message; the messages themselves are
    passed on unchanged. *)
Theorem retrieval_uses_the_last_message_only :
  forall (svc : Services) (earlier later : list Message) (m m' : Message)
         (w : World),
    msg_content m = msg_content m' ->
    snd (POST svc (earlier ++ [m]) w) = snd (POST svc (later ++ [m']) w)
    /\ match fst (POST svc (earlier ++ [m]) w),
             fst (POST svc (later ++ [m']) w) with
       | Ok response, Ok response' =>
           contextString response = contextString response'
           /\ resp_messages response = earlier ++ [m]
           /\ resp_messages response' = later ++ [m']
       | Throw e, Throw e' => e = e'
       | _, _ => False
       end.
Proof.
  intros svc earlier later m m' w Hsame.
  unfold POST, POST_with, bind. rewrite !at_index_last, <- Hsame.
  destruct (detectQueryTypes svc (msg_content m) w) as [[tags | e] w1];
    [| split; reflexivity].
  destruct (promiseAll _ w1) as [[results | e] w2]; simpl;
    repeat split; reflexivity.
Qed.

Lemma retrieval_uses_the_last_message_only_witness :
  snd (POST allUpServices
         ([mkMessage "user" "Hello"; mkMessage "assistant" "Hi!"]
          ++ [mkMessage "user" "Did MNA Y propose any bills?"]) mixedWorld)
  = snd (POST allUpServices
           ([] ++ [mkMessage "system" "Did MNA Y propose any bills?"])
           mixedWorld).
Proof.
  exact (proj1 (retrieval_uses_the_last_message_only allUpServices
                  [mkMessage "user" "Hello"; mkMessage "assistant" "Hi!"] []
                  (mkMessage "user" "Did MNA Y propose any bills?")
                  (mkMessage "system" "Did MNA Y propose any bills?")
                  mixedWorld eq_refl)).
Defined.

End ChatRouteFacts.

(** ** Ingestion: the run that succeeds, and the file without text *)

Module BatchIngestFacts.

Import Embedding EmbeddingSpec BatchIngest BatchIngestSpec Logs.

Lemma firstn_more {A} (a b : nat) (l : list A) :
  firstn (a + b) l = firstn a l ++ firstn b (skipn a l).
Proof.
  rewrite firstn_skipn_comm.
  rewrite <- (firstn_skipn a (firstn (a + b) l)) at 1.
  rewrite firstn_firstn. now replace (Nat.min a (a + b)) with a by lia.
Qed.

(** The slices of the first [n] turns of the batch loop, one after the
    other. *)
Lemma batches_front {A} (chunks : list A) n :
  concat (map (fun i => slice chunks i (i + batchSize))
              (map (fun k => k * batchSize) (seq 0 n)))
  = firstn (n * batchSize) chunks.
Proof.
  unfold slice, batchSize. rewrite map_map.
  induction n as [| n IH]; [reflexivity |].
  rewrite seq_S, map_app, concat_app, IH. cbn [map concat Nat.add].
  rewrite app_nil_r.
  replace (n * 5 + 5 - n * 5) with 5 by lia.
  replace (S n * 5) with (n * 5 + 5) by lia.
  now rewrite firstn_more.
Qed.

(** All of them together are the chunks. *)
Lemma batches_partition {A} (chunks : list A) :
  concat (map (fun i => slice chunks i (i + batchSize))
              (batchStarts (length chunks))) = chunks.
Proof.
  unfold batchStarts. rewrite batches_front. apply firstn_all2.
  unfold batchSize. change (5 - 1) with 4.
  assert (H5 := Nat.div_mod_eq (length chunks + 4) 5).
  assert (Hm := Nat.mod_upper_bound (length chunks + 4) 5 ltac:(lia)).
  lia.
Qed.

Lemma In_slice {A} (l : list A) from to x : In x (slice l from to) -> In x l.
Proof.
  unfold slice. intros Hin. apply RetrievalSpec.In_firstn_In in Hin.
  rewrite <- (firstn_skipn from l). apply in_or_app. now right.
Qed.

Section WithServices.

Variable svc : Services.
(** the vector the provider answers with, by chunk text *)
Variable answers : string -> Vector.

Definition embeddedOf (chunk : SplitDocument) : Embedded ChunkMetadata :=
  mkEmbedded (split_pageContent chunk) (answers (split_pageContent chunk))
    (mkChunkMetadata (pageNumberOr1 (split_pageNumber chunk))
       (detectSection svc (split_pageContent chunk))
       (detectTimestamp svc (split_pageContent chunk))).

Definition callOf (chunk : SplitDocument) : ApiCall :=
  EmbedCall (split_pageContent chunk).

Definition answered (chunk : SplitDocument) : Prop :=
  embed svc (split_pageContent chunk)
  = Some (answers (split_pageContent chunk)).

Lemma embedBatch_ok batch w :
  Forall answered batch ->
  promiseAll (map (embedChunk svc) batch) w
  = (Ok (map (fun c => [embeddedOf c]) batch), loggedAll (map callOf batch) w).
Proof.
  intros Hall. revert w.
  induction Hall as [| c batch Hc _ IH]; intros w; simpl.
  - now rewrite loggedAll_nil.
  - rewrite embedChunk_run, Hc, IH.
    now rewrite logged_one, loggedAll_loggedAll.
Qed.

Lemma embedLoop_ok chunks starts acc w :
  Forall answered
         (concat (map (fun i => slice chunks i (i + batchSize)) starts)) ->
  embedLoop svc chunks starts acc w
  = (Ok (acc ++ map (fun c => [embeddedOf c])
                    (concat (map (fun i => slice chunks i (i + batchSize))
                                 starts))),
     loggedAll (map callOf
                  (concat (map (fun i => slice chunks i (i + batchSize))
                               starts))) w).
Proof.
  revert acc w.
  induction starts as [| i rest IH]; intros acc w Hall; simpl.
  - unfold ret. now rewrite app_nil_r, loggedAll_nil.
  - simpl in Hall. apply Forall_app in Hall. destruct Hall as [Hbatch Hrest].
    unfold bind. rewrite embedBatch_ok by exact Hbatch.
    rewrite IH by exact Hrest.
    rewrite loggedAll_loggedAll, !map_app. now rewrite <- app_assoc.
Qed.

Lemma embedLoop_app chunks before after acc w :
  embedLoop svc chunks (before ++ after) acc w
  = match embedLoop svc chunks before acc w with
    | (Ok acc', w') => embedLoop svc chunks after acc' w'
    | (Throw e, w') => (Throw e, w')
    end.
Proof.
  revert acc w. induction before as [| i rest IH]; intros acc w;
    [reflexivity |].
  simpl. unfold bind.
  destruct (promiseAll _ w) as [[batch | e] w1]; [apply IH | reflexivity].
Qed.

(** Every chunk of a batch is sent, whatever the provider answers. *)
Lemma embedBatch_world batch w :
  snd (promiseAll (map (embedChunk svc) batch) w)
  = loggedAll (map callOf batch) w.
Proof.
  revert w. induction batch as [| c batch IH]; intros w; simpl.
  - now rewrite loggedAll_nil.
  - rewrite embedChunk_run. specialize (IH (logged (callOf c) w)).
    fold (callOf c).
    destruct (embed svc (split_pageContent c));
      [destruct (promiseAll _ _) as [[l | e] w2] |];
      simpl in *; rewrite IH;
      now rewrite logged_one, loggedAll_loggedAll.
Qed.

Lemma concat_single_items {A B} (f : A -> B) l :
  concat (map (fun x => [f x]) l) = map f l.
Proof. induction l as [| x l IH]; simpl; congruence. Qed.

Lemma embeddingRows_columns key resource items :
  map emb_content (embeddingRows key resource items) = map content items
  /\ map emb_embedding (embeddingRows key resource items)
     = map embedding items
  /\ map emb_metadata (embeddingRows key resource items)
     = map e_metadata items
  /\ Forall (fun r => resourceId r = resource)
            (embeddingRows key resource items).
Proof.
  revert key. induction items as [| x items IH]; intros key; simpl.
  - repeat split. constructor.
  - destruct (IH (S key)) as (H1 & H2 & H3 & H4).
    repeat split; try congruence. now constructor.
Qed.

(** The rows the type-specific step adds. *)
Definition billRowsOf (options : Options) (text : string) : list BillRow :=
  if String.eqb (type options) "bill"
  then [mkBillRow (title options) (orDefault (status options) "passed")
          (generateBillSummary svc text) text]
  else [].

Definition proceedingRowsOf (options : Options) (text : string)
  : list ProceedingRow :=
  if String.eqb (type options) "bill" then []
  else if String.eqb (type options) "parliamentary_bulletin"
  then [mkProceedingRow (title options)
          (orDefault (date options)
             (extractDateFromFilename svc (basename svc (filePath options))))
          (generateProceedingSummary svc text) text]
  else [].

Lemma ingestFresh_ok options w text :
  extractTextFromPDF svc (filePath options) = Some text ->
  createDocuments svc text <> [] ->
  Forall answered (createDocuments svc text) ->
  let chunks := createDocuments svc text in
  let fileName := basename svc (filePath options) in
  ingestFresh svc options fileName w
  = (Ok (Ingested (nextId w) (length chunks)),
     mkWorld
       (documents w ++
        [mkDocumentRow (nextId w) (title options) (type options) text
           fileName])
       (embeddings w ++
        embeddingRows (S (nextId w)) (nextId w) (map embeddedOf chunks))
       (bills w ++ billRowsOf options text)
       (proceedings w ++ proceedingRowsOf options text)
       (representatives w) (representativeEmbeddings w)
       (apiCalls w ++ map callOf chunks)
       (S (nextId w) + length chunks)).
Proof.
  intros Htext Hne Hall. cbv zeta.
  unfold ingestFresh, bind, readPDF. rewrite Htext. simpl.
  rewrite embedLoop_ok by (now rewrite batches_partition).
  rewrite batches_partition. simpl. rewrite concat_single_items.
  unfold insertEmbeddings.
  destruct (createDocuments svc text) as [| c chunks] eqn:Hchunks;
    [congruence |].
  unfold billRowsOf, proceedingRowsOf.
  cbn [map]. unfold modifyWorld, insertBill, createProceeding, modifyWorld,
    ret, loggedAll.
  destruct (String.eqb (type options) "bill");
    [| destruct (String.eqb (type options) "parliamentary_bulletin")];
    cbn; rewrite ?app_nil_r, ?length_map; reflexivity.
Qed.

End WithServices.

(** X7. When the file is read, yields at least one chunk and the provider
    answers for every chunk, [ingestDocument] returns the id of the new
    document and the number of chunks.  It has added one document row,
    one embedding row per chunk in the order of the chunks, each with
    the chunk's text, the provider's vector and the document's id, and
    the bill or proceeding row of the document type; it has issued one
    embedding call per chunk, in order, and no other. *)
Theorem ingestion_stores_every_chunk :
  forall (svc : Services) (options : Options) (w : World) (text : string)
         (answers : string -> Vector),
    skipExisting options
      && hasDocument (basename svc (filePath options)) w = false ->
    extractTextFromPDF svc (filePath options) = Some text ->
    createDocuments svc text <> [] ->
    (forall chunk, In chunk (createDocuments svc text) ->
                   embed svc (split_pageContent chunk)
                   = Some (answers (split_pageContent chunk))) ->
    let chunks := createDocuments svc text in
    exists w' rows,
      ingestDocument svc options w
        = (Ok (Ingested (nextId w) (length chunks)), w')
      /\ documents w' =
           documents w ++
           [mkDocumentRow (nextId w) (title options) (type options) text
              (basename svc (filePath options))]
      /\ embeddings w' = embeddings w ++ rows
      /\ map emb_content rows = map split_pageContent chunks
      /\ map emb_embedding rows
         = map (fun c => answers (split_pageContent c)) chunks
      /\ Forall (fun r => resourceId r = nextId w) rows
      /\ apiCalls w' =
           apiCalls w ++ map (fun c => EmbedCall (split_pageContent c)) chunks
      /\ bills w' = bills w ++ billRowsOf svc options text
      /\ proceedings w' = proceedings w ++ proceedingRowsOf svc options text.
Proof.
  intros svc options w text answers Hfresh Htext Hne Hall. cbv zeta.
  assert (Hanswered : Forall (answered svc answers) (createDocuments svc text))
    by now apply Forall_forall.
  assert (Hrun := ingestFresh_ok svc answers options w text Htext Hne
                    Hanswered).
  cbv zeta in Hrun.
  destruct (embeddingRows_columns (S (nextId w)) (nextId w)
              (map (embeddedOf svc answers) (createDocuments svc text)))
    as (Hcontent & Hvectors & _ & Hresource).
  rewrite map_map in Hcontent, Hvectors.
  eexists. exists (embeddingRows (S (nextId w)) (nextId w)
                     (map (embeddedOf svc answers) (createDocuments svc text))).
  split.
  - unfold ingestDocument.
    destruct (skipExisting options); [| exact Hrun].
    unfold bind. rewrite checkIfProcessed_run.
    simpl in Hfresh. rewrite Hfresh. exact Hrun.
  - repeat split; assumption.
Qed.

(** A splitter that cuts every file into 35 chunks, and a provider that
    answers every call. *)
Definition steadyServices : Services :=
  Engines.exampleServices Engines.stableEngine (fun _ => Some [1%Q])
    (fun _ => true)
    (fun _ => map (fun k => mkSplitDocument (chunkText k) None) (seq 0 35))
    "tags".

Lemma ingestion_stores_every_chunk_witness :
  exists w' rows,
    ingestDocument steadyServices financeBill emptyWorld
      = (Ok (Ingested 0 35), w')
    /\ embeddings w' = rows
    /\ length rows = 35
    /\ Forall (fun r => resourceId r = 0) rows
    /\ length (apiCalls w') = 35
    /\ map bill_title (bills w') = ["Finance Bill"].
Proof.
  destruct (ingestion_stores_every_chunk steadyServices financeBill
              emptyWorld "finance-bill.pdf" (fun _ => [1%Q]))
    as (w' & rows & Hrun & _ & Hrows & Hcontent & _ & Hresource & Hcalls
        & Hbills & _).
  - reflexivity.
  - reflexivity.
  - vm_compute. discriminate.
  - intros chunk _. reflexivity.
  - exists w', rows. split; [exact Hrun |].
    split; [exact Hrows |].
    split; [rewrite <- (length_map emb_content), Hcontent; reflexivity |].
    split; [exact Hresource |].
    split; [rewrite Hcalls; reflexivity |].
    rewrite Hbills. reflexivity.
Defined.

(** X8. The failures before the embedding phase.  A file that cannot be
    read makes [ingestDocument] fail with the database and the call log
    untouched.  A file that is read but yields no chunk makes it fail at
    the insert of the (empty) list of embeddings, with no call issued and
    no bill stored, and with the document row already inserted. *)
Theorem early_failures_of_ingestion :
  forall (svc : Services) (options : Options) (w : World),
    skipExisting options
      && hasDocument (basename svc (filePath options)) w = false ->
    (extractTextFromPDF svc (filePath options) = None ->
     ingestDocument svc options w = (Throw (FileError (filePath options)), w))
    /\
    (forall text,
        extractTextFromPDF svc (filePath options) = Some text ->
        createDocuments svc text = [] ->
        exists w',
          ingestDocument svc options w =
            (Throw (DatabaseError
                      "values() must be called with at least one value"), w')
          /\ documents w' =
               documents w ++
               [mkDocumentRow (nextId w) (title options) (type options) text
                  (basename svc (filePath options))]
          /\ embeddings w' = embeddings w
          /\ bills w' = bills w
          /\ proceedings w' = proceedings w
          /\ apiCalls w' = apiCalls w).
Proof.
  intros svc options w Hfresh.
  assert (Hrun : ingestDocument svc options w
                 = ingestFresh svc options (basename svc (filePath options)) w).
  { unfold ingestDocument.
    destruct (skipExisting options); [| reflexivity].
    unfold bind. rewrite checkIfProcessed_run.
    simpl in Hfresh. now rewrite Hfresh. }
  rewrite Hrun. split.
  - intros Hnone. unfold ingestFresh, bind, readPDF. now rewrite Hnone.
  - intros text Htext Hempty. eexists. split.
    + unfold ingestFresh, bind, readPDF. rewrite Htext. cbn.
      rewrite Hempty. reflexivity.
    + simpl. repeat split.
Qed.

(** A reader that finds no text in any file. *)
Definition blankPageServices : Services :=
  Engines.exampleServices Engines.stableEngine (fun _ => Some [1%Q])
    (fun _ => true) (fun _ => []) "tags".

Lemma early_failures_of_ingestion_witness :
  exists w',
    ingestDocument blankPageServices financeBill emptyWorld =
      (Throw (DatabaseError
                "values() must be called with at least one value"), w')
    /\ map originalFileName (documents w') = ["finance-bill.pdf"]
    /\ embeddings w' = [] /\ bills w' = [] /\ apiCalls w' = [].
Proof.
  destruct (proj2 (early_failures_of_ingestion blankPageServices financeBill
                     emptyWorld eq_refl) "finance-bill.pdf" eq_refl eq_refl)
    as (w' & Hrun & Hdocs & Hembs & Hbills & _ & Hcalls).
  exists w'. rewrite Hdocs, Hembs, Hbills, Hcalls. repeat split.
  exact Hrun.
Defined.

(** *** Where the embedding phase stops *)

(** The vector the provider answers with, when it answers. *)
Definition vectorOf (svc : Services) (value : string) : Vector :=
  match embed svc value with
  | Some v => v
  | None => []
  end.

Lemma answered_vectorOf svc chunk :
  embed svc (split_pageContent chunk) <> None ->
  answered svc (vectorOf svc) chunk.
Proof.
  unfold answered, vectorOf.
  destruct (embed svc (split_pageContent chunk)); congruence.
Qed.

Lemma starts_around k len :
  k < len ->
  batchStarts len
  = map (fun j => j * batchSize) (seq 0 (k / batchSize))
    ++ (k / batchSize * batchSize)
       :: map (fun j => j * batchSize)
              (seq (S (k / batchSize))
                   ((len + (batchSize - 1)) / batchSize
                    - S (k / batchSize))).
Proof.
  intros Hlt. unfold batchStarts, batchSize. change (5 - 1) with 4.
  assert (Hq : k / 5 < (len + 4) / 5).
  { assert (K5 := Nat.div_mod_eq k 5).
    assert (Km := Nat.mod_upper_bound k 5 ltac:(lia)).
    assert (L5 := Nat.div_mod_eq (len + 4) 5).
    assert (Lm := Nat.mod_upper_bound (len + 4) 5 ltac:(lia)).
    lia. }
  replace ((len + 4) / 5)
    with (k / 5 + S ((len + 4) / 5 - S (k / 5))) at 1 by lia.
  rewrite seq_app, map_app. reflexivity.
Qed.

Lemma failing_batch {A} (chunks : list A) k chunk :
  nth_error chunks k = Some chunk ->
  In chunk (slice chunks (k / batchSize * batchSize)
                  (k / batchSize * batchSize + batchSize)).
Proof.
  intros Hk. unfold slice, batchSize.
  assert (K5 := Nat.div_mod_eq k 5).
  assert (Km := Nat.mod_upper_bound k 5 ltac:(lia)).
  replace (k / 5 * 5 + 5 - k / 5 * 5) with 5 by lia.
  apply (nth_error_In _ (k mod 5)).
  rewrite nth_error_firstn.
  destruct (Nat.ltb_spec (k mod 5) 5) as [_ | Hge]; [| lia].
  rewrite nth_error_skipn.
  now replace (k / 5 * 5 + k mod 5) with k by lia.
Qed.

Lemma embedLoop_stops svc chunks k chunk acc w :
  nth_error chunks k = Some chunk ->
  embed svc (split_pageContent chunk) = None ->
  (forall c, In c (firstn k chunks) ->
             embed svc (split_pageContent c) <> None) ->
  exists e,
    embedLoop svc chunks (batchStarts (length chunks)) acc w
    = (Throw e,
       loggedAll (map callOf
                    (firstn ((k / batchSize + 1) * batchSize) chunks)) w).
Proof.
  intros Hk Hfail Hbefore.
  assert (Hlt : k < length chunks) by (apply nth_error_Some; congruence).
  rewrite (starts_around k (length chunks) Hlt), embedLoop_app.
  rewrite (embedLoop_ok svc (vectorOf svc)).
  - rewrite batches_front. cbn [embedLoop]. unfold bind.
    destruct (embedBatch_rejects svc _ chunk (failing_batch chunks k chunk Hk)
                Hfail
                (loggedAll (map callOf
                              (firstn (k / batchSize * batchSize) chunks)) w))
      as (e & w' & Hthrow).
    assert (Hworld := embedBatch_world svc
                        (slice chunks (k / batchSize * batchSize)
                               (k / batchSize * batchSize + batchSize))
                        (loggedAll (map callOf
                                      (firstn (k / batchSize * batchSize)
                                              chunks)) w)).
    rewrite Hthrow in Hworld. cbn [snd] in Hworld. subst w'.
    rewrite Hthrow. exists e. f_equal.
    rewrite loggedAll_loggedAll, <- map_app. f_equal. f_equal. unfold slice.
    replace (k / batchSize * batchSize + batchSize
             - k / batchSize * batchSize) with batchSize by lia.
    rewrite <- firstn_more. f_equal. lia.
  - rewrite batches_front. apply Forall_forall. intros c Hc.
    apply answered_vectorOf, Hbefore.
    rewrite <- (firstn_skipn (k / batchSize * batchSize) (firstn k chunks)).
    apply in_or_app. left. rewrite firstn_firstn.
    replace (Nat.min (k / batchSize * batchSize) k)
      with (k / batchSize * batchSize); [exact Hc |].
    unfold batchSize. assert (K5 := Nat.div_mod_eq k 5). lia.
Qed.

(** X26. The embedding phase stops with the first batch that holds a
    rejected chunk: when chunk [k] is the first one the provider rejects,
    [ingestDocument] fails after exactly one embedding call for each
    chunk up to the end of that chunk's batch of five (the rest of the
    batch is still sent), and no call for a later batch. *)
Theorem embedding_stops_after_the_failing_batch :
  forall (svc : Services) (options : Options) (w : World) (text : string)
         (k : nat) (chunk : SplitDocument),
    skipExisting options
      && hasDocument (basename svc (filePath options)) w = false ->
    extractTextFromPDF svc (filePath options) = Some text ->
    nth_error (createDocuments svc text) k = Some chunk ->
    embed svc (split_pageContent chunk) = None ->
    (forall c, In c (firstn k (createDocuments svc text)) ->
               embed svc (split_pageContent c) <> None) ->
    exists e w',
      ingestDocument svc options w = (Throw e, w')
      /\ apiCalls w' =
           apiCalls w
           ++ map (fun c => EmbedCall (split_pageContent c))
                  (firstn ((k / 5 + 1) * 5) (createDocuments svc text)).
Proof.
  intros svc options w text k chunk Hfresh Htext Hk Hfail Hbefore.
  set (w1 := mkWorld
               (documents w ++
                [mkDocumentRow (nextId w) (title options) (type options) text
                   (basename svc (filePath options))])
               (embeddings w) (bills w) (proceedings w) (representatives w)
               (representativeEmbeddings w) (apiCalls w) (S (nextId w))).
  destruct (embedLoop_stops svc (createDocuments svc text) k chunk [] w1
              Hk Hfail Hbefore) as (e & Hloop).
  exists e,
    (loggedAll (map callOf
                  (firstn ((k / batchSize + 1) * batchSize)
                          (createDocuments svc text))) w1).
  split.
  - unfold ingestDocument.
    assert (Hrun : ingestFresh svc options (basename svc (filePath options)) w
                   = (Throw e,
                      loggedAll
                        (map callOf
                           (firstn ((k / batchSize + 1) * batchSize)
                                   (createDocuments svc text))) w1)).
    { unfold ingestFresh, bind, readPDF. rewrite Htext.
      cbn [ret insertDocument]. fold w1. now rewrite Hloop. }
    destruct (skipExisting options); [| exact Hrun].
    unfold bind. rewrite checkIfProcessed_run.
    simpl in Hfresh. rewrite Hfresh. exact Hrun.
  - reflexivity.
Qed.

Lemma embedding_stops_after_the_failing_batch_witness :
  exists e w',
    ingestDocument flakyServices financeBill emptyWorld = (Throw e, w')
    /\ apiCalls w' = map (fun k => EmbedCall (chunkText k)) (seq 0 15).
Proof.
  destruct (embedding_stops_after_the_failing_batch flakyServices financeBill
              emptyWorld "finance-bill.pdf" 12
              (mkSplitDocument (chunkText 12) None))
    as (e & w' & Hrun & Hcalls).
  - reflexivity.
  - reflexivity.
  - reflexivity.
  - reflexivity.
  - intros c Hc. vm_compute in Hc.
    repeat (destruct Hc as [<- | Hc]; [discriminate |]). contradiction.
  - exists e, w'. split; [exact Hrun |]. rewrite Hcalls. reflexivity.
Defined.

End BatchIngestFacts.

(** ** JavaScript strings *)

Module JsFacts.

Import Js.

Lemma chars_str t : chars (str t) = t.
Proof. apply list_ascii_of_string_of_list_ascii. Qed.

Lemma str_chars s : str (chars s) = s.
Proof. apply string_of_list_ascii_of_string. Qed.

Lemma length_chars s : length (chars s) = String.length s.
Proof. induction s as [| c s IH]; simpl; congruence. Qed.

Lemma chars_append s1 s2 : chars (s1 ++ s2) = chars s1 ++ chars s2.
Proof. induction s1 as [| c s1 IH]; simpl; congruence. Qed.

(** Case mapping, letter by letter. *)
Lemma toLower_toUpper c : toLower (toUpper c) = toLower c.
Proof. destruct c as [[] [] [] [] [] [] [] []]; reflexivity. Qed.

Lemma toLower_toLower c : toLower (toLower c) = toLower c.
Proof. destruct c as [[] [] [] [] [] [] [] []]; reflexivity. Qed.

Lemma toUpper_not_lower c : isLower (toUpper c) = false.
Proof. destruct c as [[] [] [] [] [] [] [] []]; reflexivity. Qed.

Lemma toLower_not_upper c : isUpper (toLower c) = false.
Proof. destruct c as [[] [] [] [] [] [] [] []]; reflexivity. Qed.

Lemma toLower_space c : toLower c = " "%char -> c = " "%char.
Proof. destruct c as [[] [] [] [] [] [] [] []]; intros H; try reflexivity;
  discriminate H. Qed.

Lemma toUpper_space c : toUpper c = " "%char -> c = " "%char.
Proof. destruct c as [[] [] [] [] [] [] [] []]; intros H; try reflexivity;
  discriminate H. Qed.

Lemma digit_not_hyphen c : isDigit c = true -> Ascii.eqb c "-" = false.
Proof. destruct c as [[] [] [] [] [] [] [] []]; intros H; try reflexivity;
  discriminate H. Qed.

(** *** Splitting and joining *)

Lemma split_nonempty t separator : split t separator <> [].
Proof.
  destruct t as [| c rest]; simpl; [discriminate |].
  destruct (Ascii.eqb c separator); [discriminate |].
  destruct (split rest separator); discriminate.
Qed.

Lemma join_split t separator : join (split t separator) [separator] = t.
Proof.
  induction t as [| c rest IH]; [reflexivity |]. simpl.
  destruct (Ascii.eqb_spec c separator) as [-> | Hneq].
  - assert (Hne := split_nonempty rest separator).
    destruct (split rest separator) as [| part parts]; [congruence |].
    simpl in *. now rewrite IH.
  - assert (Hne := split_nonempty rest separator).
    destruct (split rest separator) as [| part parts]; [congruence |].
    destruct parts as [| next parts]; simpl in *; now rewrite <- IH.
Qed.

Definition without (separator : ascii) (part : text) : Prop :=
  Forall (fun c => c <> separator) part.

Lemma split_parts t separator :
  Forall (without separator) (split t separator).
Proof.
  induction t as [| c rest IH]; simpl.
  - repeat constructor.
  - destruct (Ascii.eqb_spec c separator) as [-> | Hneq].
    + constructor; [constructor | exact IH].
    + destruct (split rest separator) as [| part parts].
      * repeat constructor. exact Hneq.
      * inversion IH as [| ? ? Hpart Hparts]; subst.
        constructor; [now constructor | exact Hparts].
Qed.

Lemma split_without part separator :
  without separator part -> split part separator = [part].
Proof.
  induction 1 as [| c part Hc _ IH]; [reflexivity |]. simpl.
  destruct (Ascii.eqb_spec c separator) as [-> | _]; [congruence |].
  now rewrite IH.
Qed.

Lemma split_app part rest separator :
  without separator part ->
  split (part ++ separator :: rest) separator = part :: split rest separator.
Proof.
  induction 1 as [| c part Hc _ IH]; simpl.
  - now rewrite Ascii.eqb_refl.
  - destruct (Ascii.eqb_spec c separator) as [-> | _]; [congruence |].
    now rewrite IH.
Qed.

Lemma split_join parts separator :
  parts <> [] -> Forall (without separator) parts ->
  split (join parts [separator]) separator = parts.
Proof.
  intros Hne Hall. induction Hall as [| part parts Hpart Hparts IH];
    [congruence |].
  destruct parts as [| next parts].
  - simpl. now apply split_without.
  - change (join (part :: next :: parts) [separator])
      with (part ++ separator :: join (next :: parts) [separator]).
    rewrite split_app by exact Hpart. f_equal. apply IH. discriminate.
Qed.

Lemma map_join (f : ascii -> ascii) parts separator :
  map f (join parts separator)
  = join (map (map f) parts) (map f separator).
Proof.
  induction parts as [| part parts IH]; [reflexivity |].
  destruct parts as [| next parts]; [reflexivity |].
  change (join (part :: next :: parts) separator)
    with (part ++ separator ++ join (next :: parts) separator).
  rewrite !map_app, IH. reflexivity.
Qed.

(** *** Sorting *)

Definition inOrder (a b : string) : Prop := String.leb a b = true.

Lemma insertSorted_perm s l : Permutation (insertSorted s l) (s :: l).
Proof.
  induction l as [| x l IH]; simpl; [constructor; constructor |].
  destruct (String.leb s x); [apply Permutation_refl |].
  apply perm_trans with (x :: s :: l); [now constructor | constructor].
Qed.

Lemma sort_perm l : Permutation (sort l) l.
Proof.
  induction l as [| s l IH]; simpl; [constructor |].
  apply perm_trans with (s :: sort l);
    [apply insertSorted_perm | now constructor].
Qed.

Lemma insertSorted_sorted s l :
  Sorted inOrder l -> Sorted inOrder (insertSorted s l).
Proof.
  induction l as [| x l IH]; simpl; intros Hs.
  - repeat constructor.
  - destruct (String.leb s x) eqn:Hsx.
    + constructor; [exact Hs | constructor; exact Hsx].
    + assert (Hxs : inOrder x s).
      { destruct (String.leb_total s x) as [H | H]; [congruence | exact H]. }
      inversion Hs as [| ? ? Hl Hhd]; subst.
      constructor; [now apply IH |].
      destruct l as [| y l]; simpl.
      * constructor. exact Hxs.
      * destruct (String.leb s y); constructor; [exact Hxs |].
        now inversion Hhd.
Qed.

Lemma sort_sorted l : Sorted inOrder (sort l).
Proof.
  induction l as [| s l IH]; simpl; [constructor |].
  now apply insertSorted_sorted.
Qed.

End JsFacts.

(** ** scripts/batch-ingest.ts: titles, dates and arguments *)

Module BatchScriptSpec.

Import Js JsFacts BatchScript.

(** *** Titles *)

Lemma spaceOut_clean c :
  toLower (spaceOut c) <> "_"%char /\ toLower (spaceOut c) <> "-"%char.
Proof. destruct c as [[] [] [] [] [] [] [] []]; split; discriminate. Qed.

Lemma toLowerCase_capitalize word :
  toLowerCase (capitalize word) = toLowerCase word.
Proof.
  unfold capitalize, toLowerCase, toUpperCase.
  destruct word as [| c rest]; [reflexivity |]. simpl.
  rewrite toLower_toUpper. f_equal.
  rewrite map_map. apply map_ext, toLower_toLower.
Qed.

(** The title before the words are capitalized. *)
Definition spacedName (fileName : string) : text :=
  map spaceOut (removePdfExtension (chars fileName)).

Lemma extractTitle_lower fileName :
  toLowerCase (chars (extractTitle fileName))
  = toLowerCase (spacedName fileName).
Proof.
  unfold extractTitle. fold (spacedName fileName). rewrite chars_str.
  unfold toLowerCase at 1. rewrite map_join, map_map.
  rewrite (map_ext _ toLowerCase) by apply toLowerCase_capitalize.
  rewrite <- (map_map (fun w => w) toLowerCase), map_id.
  change (map toLower (chars " ")) with [" "%char].
  rewrite <- (join_split (spacedName fileName) " ") at 2.
  unfold toLowerCase at 2. now rewrite map_join.
Qed.

(** X9. For a file name of ASCII characters, the title is the name
    without its [.pdf] extension (in any case) and with every underscore
    and hyphen turned into a space, up to the case of its letters: it
    holds no underscore and no hyphen, and it is four characters shorter
    than the name when the extension is there and as long as the name
    otherwise. *)
Theorem title_is_the_file_name_respaced :
  forall fileName : string,
    Forall (fun c => isAscii c = true) (chars fileName) ->
    toLowerCase (chars (extractTitle fileName))
      = toLowerCase (map spaceOut (removePdfExtension (chars fileName)))
    /\ Forall (fun c => c <> "_"%char /\ c <> "-"%char)
              (chars (extractTitle fileName))
    /\ String.length (extractTitle fileName)
       = if endsWith (toLowerCase (chars fileName)) (chars ".pdf")
         then String.length fileName - 4
         else String.length fileName.
Proof.
  intros fileName _.
  assert (Hlower := extractTitle_lower fileName).
  split; [exact Hlower |]. split.
  - assert (Hclean : Forall (fun c => c <> "_"%char /\ c <> "-"%char)
                       (toLowerCase (spacedName fileName))).
    { unfold toLowerCase, spacedName. rewrite map_map.
      apply Forall_map, Forall_forall. intros c _. apply spaceOut_clean. }
    rewrite <- Hlower in Hclean. unfold toLowerCase in Hclean.
    rewrite Forall_map in Hclean.
    eapply Forall_impl; [| exact Hclean].
    intros c [Hu Hh]. split; intros ->; [now apply Hu | now apply Hh].
  - rewrite <- length_chars.
    rewrite <- (length_map toLower (chars (extractTitle fileName))).
    fold (toLowerCase (chars (extractTitle fileName))). rewrite Hlower.
    unfold toLowerCase at 1. unfold spacedName. rewrite !length_map.
    unfold removePdfExtension. rewrite <- length_chars.
    destruct (endsWith (toLowerCase (chars fileName)) (chars ".pdf"));
      [| reflexivity].
    apply firstn_length_le. lia.
Qed.

Lemma title_is_the_file_name_respaced_witness :
  extractTitle "finance_bill-2024.PDF" = "Finance Bill 2024"
  /\ Forall (fun c => c <> "_"%char /\ c <> "-"%char)
            (chars (extractTitle "finance_bill-2024.PDF"))
  /\ String.length (extractTitle "finance_bill-2024.PDF") = 21 - 4.
Proof.
  split; [reflexivity |].
  refine (proj2 (title_is_the_file_name_respaced "finance_bill-2024.PDF" _)).
  repeat constructor.
Defined.

(** A word as [capitalize] leaves it. *)
Definition capitalized (word : text) : Prop :=
  Forall (fun c => isLower c = false) (firstn 1 word)
  /\ Forall (fun c => isUpper c = false) (skipn 1 word).

Lemma capitalize_capitalized word : capitalized (capitalize word).
Proof.
  unfold capitalized, capitalize, toUpperCase, toLowerCase.
  destruct word as [| c rest]; simpl.
  - split; constructor.
  - split.
    + constructor; [apply toUpper_not_lower | constructor].
    + apply Forall_map, Forall_forall. intros x _. apply toLower_not_upper.
Qed.

Lemma capitalize_without word :
  without " " word -> without " " (capitalize word).
Proof.
  unfold without, capitalize, toUpperCase, toLowerCase. intros Hw.
  rewrite <- (firstn_skipn 1 word) in Hw. apply Forall_app in Hw.
  destruct Hw as [Hhead Htail].
  apply Forall_app. split; apply Forall_map.
  - eapply Forall_impl; [| exact Hhead]. intros c Hc Heq.
    now apply toUpper_space in Heq.
  - eapply Forall_impl; [| exact Htail]. intros c Hc Heq.
    now apply toLower_space in Heq.
Qed.

(** X10. For a file name of ASCII characters, every word of the title
    (the stretches between spaces) starts with a character that is not a
    lower-case letter and goes on without upper-case letters; the title
    has as many words as the spaced-out file name. *)
Theorem title_words_are_capitalized :
  forall fileName : string,
    Forall (fun c => isAscii c = true) (chars fileName) ->
    Forall capitalized (split (chars (extractTitle fileName)) " ")
    /\ length (split (chars (extractTitle fileName)) " ")
       = length (split (map spaceOut (removePdfExtension (chars fileName)))
                       " ").
Proof.
  intros fileName _. unfold extractTitle. rewrite chars_str.
  fold (spacedName fileName).
  change (chars " ") with [" "%char].
  rewrite split_join.
  - split; [| apply length_map].
    apply Forall_map, Forall_forall. intros word _.
    apply capitalize_capitalized.
  - assert (Hne := split_nonempty (spacedName fileName) " ").
    destruct (split (spacedName fileName) " "); [congruence | discriminate].
  - apply Forall_map. eapply Forall_impl; [| apply split_parts].
    intros word. apply capitalize_without.
Qed.

Lemma title_words_are_capitalized_witness :
  map str (split (chars (extractTitle "the_ELECTIONS-act.pdf")) " ")
    = ["The"; "Elections"; "Act"]
  /\ Forall capitalized (split (chars (extractTitle "the_ELECTIONS-act.pdf"))
                               " ").
Proof.
  split; [reflexivity |].
  refine (proj1 (title_words_are_capitalized "the_ELECTIONS-act.pdf" _)).
  repeat constructor.
Defined.

(** *** Dates *)

Lemma matchesAt_firstn pattern t :
  matchesAt pattern t = true ->
  matchesAt pattern (firstn (length pattern) t) = true
  /\ length (firstn (length pattern) t) = length pattern.
Proof.
  revert t. induction pattern as [| class classes IH]; intros t Hm.
  - split; reflexivity.
  - destruct t as [| c cs]; [discriminate |]. simpl in *.
    apply andb_prop in Hm. destruct Hm as [Hc Hcs].
    destruct (IH cs Hcs) as [Hm' Hlen]. rewrite Hc, Hm', Hlen. now split.
Qed.

Lemma search_matches pattern t m :
  search pattern t = Some m ->
  matchesAt pattern m = true /\ length m = length pattern.
Proof.
  induction t as [| c rest IH]; simpl.
  - destruct (matchesAt pattern []) eqn:Hm; [| discriminate].
    intros [= <-]. now apply matchesAt_firstn.
  - destruct (matchesAt pattern (c :: rest)) eqn:Hm; [| exact IH].
    intros [= <-]. now apply matchesAt_firstn.
Qed.

Ltac digits H :=
  repeat (apply andb_prop in H;
          let Hd := fresh "Hd" in destruct H as [Hd H]).

Ltac hyphens :=
  repeat match goal with
         | H : dash ?c = true |- _ =>
             apply Ascii.eqb_eq in H; subst c
         end.

Ltac not_hyphens :=
  repeat match goal with
         | H : isDigit ?c = true |- _ =>
             apply digit_not_hyphen in H
         end.

Lemma formatMatch_yearFirst m :
  matchesAt yearFirst m = true -> length m = 10 -> formatMatch m = Return m.
Proof.
  intros Hm Hlen.
  do 10 (destruct m as [| ? m]; [discriminate |]).
  destruct m; [| discriminate].
  simpl in Hm. digits Hm. hyphens. not_hyphens.
  unfold formatMatch. cbn.
  repeat match goal with H : Ascii.eqb _ _ = false |- _ => rewrite H; clear H
         end.
  reflexivity.
Qed.

(** A day-first date, turned around. *)
Definition yearToFront (m : text) : text :=
  substring m 6 10 ++ chars "-" ++ substring m 3 5 ++ chars "-"
  ++ substring m 0 2.

(** Eight digits, with the dashes put in. *)
Definition dashed (m : text) : text :=
  substring m 0 4 ++ chars "-" ++ substring m 4 6 ++ chars "-"
  ++ substring m 6 8.

Lemma formatMatch_dayFirst m :
  matchesAt dayFirst m = true -> length m = 10 ->
  formatMatch m = Return (yearToFront m)
  /\ matchesAt yearFirst (yearToFront m) = true
  /\ length (yearToFront m) = 10.
Proof.
  intros Hm Hlen.
  do 10 (destruct m as [| ? m]; [discriminate |]).
  destruct m; [| discriminate].
  simpl in Hm. digits Hm. hyphens.
  unfold formatMatch, yearToFront. cbn.
  repeat match goal with H : isDigit _ = true |- _ => rewrite H end.
  not_hyphens.
  repeat match goal with H : Ascii.eqb _ _ = false |- _ => rewrite H; clear H
         end.
  repeat split.
Qed.

Lemma formatMatch_eightDigits m :
  matchesAt eightDigits m = true -> length m = 8 ->
  formatMatch m = Return (dashed m)
  /\ matchesAt yearFirst (dashed m) = true
  /\ length (dashed m) = 10.
Proof.
  intros Hm Hlen.
  do 8 (destruct m as [| ? m]; [discriminate |]).
  destruct m; [| discriminate].
  simpl in Hm. digits Hm.
  unfold formatMatch, dashed. cbn.
  repeat match goal with H : isDigit _ = true |- _ => rewrite H end.
  repeat split.
Qed.

(** The date the loop settles on, pattern by pattern. *)
Definition dateIn (fileName : text) : option text :=
  match search yearFirst fileName with
  | Some m => Some m
  | None =>
      match search dayFirst fileName with
      | Some m => Some (yearToFront m)
      | None => option_map dashed (search eightDigits fileName)
      end
  end.

Lemma firstDate_dateIn fileName :
  firstDate patterns fileName
  = match dateIn fileName with
    | Some d => Return d
    | None => Next
    end.
Proof.
  unfold dateIn, patterns, firstDate.
  destruct (search yearFirst fileName) as [m |] eqn:Hy.
  - apply search_matches in Hy. destruct Hy as [Hm Hlen].
    now rewrite (formatMatch_yearFirst m Hm Hlen).
  - destruct (search dayFirst fileName) as [m |] eqn:Hd.
    + apply search_matches in Hd. destruct Hd as [Hm Hlen].
      now rewrite (proj1 (formatMatch_dayFirst m Hm Hlen)).
    + destruct (search eightDigits fileName) as [m |] eqn:He;
        [| reflexivity].
      apply search_matches in He. destruct He as [Hm Hlen].
      now rewrite (proj1 (formatMatch_eightDigits m Hm Hlen)).
Qed.

Lemma dateIn_shape fileName d :
  dateIn fileName = Some d ->
  matchesAt yearFirst d = true /\ length d = 10.
Proof.
  unfold dateIn.
  destruct (search yearFirst fileName) as [m |] eqn:Hy.
  - intros [= <-]. now apply search_matches in Hy.
  - destruct (search dayFirst fileName) as [m |] eqn:Hd.
    + intros [= <-]. apply search_matches in Hd. destruct Hd as [Hm Hlen].
      now apply formatMatch_dayFirst.
    + destruct (search eightDigits fileName) as [m |] eqn:He;
        [| discriminate].
      intros [= <-]. apply search_matches in He. destruct He as [Hm Hlen].
      now apply formatMatch_eightDigits.
Qed.

(** X11. [extractDateFromFilename] never throws.  When one of its three
    patterns occurs in the file name it returns a date of the form
    dddd-dd-dd, ten characters long; otherwise it returns today's
    date. *)
Theorem extracted_date_is_year_first :
  forall today fileName : string,
    exists date,
      extractDateFromFilename today fileName = Ok date
      /\ if existsb (fun pattern =>
                       match search pattern (chars fileName) with
                       | Some _ => true
                       | None => false
                       end) patterns
         then matchesAt yearFirst (chars date) = true
              /\ String.length date = 10
         else date = today.
Proof.
  intros today fileName. unfold extractDateFromFilename.
  rewrite firstDate_dateIn.
  assert (Hshape := dateIn_shape (chars fileName)).
  unfold dateIn in *. unfold patterns, existsb.
  destruct (search yearFirst (chars fileName)) as [m |].
  - eexists. split; [reflexivity |]. simpl.
    rewrite chars_str, <- length_chars, chars_str. now apply Hshape.
  - destruct (search dayFirst (chars fileName)) as [m |].
    + eexists. split; [reflexivity |]. simpl.
      rewrite chars_str, <- length_chars, chars_str. now apply Hshape.
    + destruct (search eightDigits (chars fileName)) as [m |]; simpl.
      * eexists. split; [reflexivity |].
        rewrite chars_str, <- length_chars, chars_str. now apply Hshape.
      * eexists. split; reflexivity.
Qed.

(** X12. The patterns are tried in turn, each on the whole file name: a
    year-first date anywhere in the name is returned as it stands, even
    behind a day-first date; failing that the leftmost day-first date is
    returned with its three parts in reverse order; failing that the
    leftmost run of eight digits is returned with dashes after the
    fourth and the sixth digit; failing that, today's date. *)
Theorem date_patterns_are_tried_in_turn :
  forall today fileName : string,
    extractDateFromFilename today fileName =
    Ok match search yearFirst (chars fileName) with
       | Some m => str m
       | None =>
           match search dayFirst (chars fileName) with
           | Some m =>
               str (substring m 6 10 ++ chars "-" ++ substring m 3 5
                    ++ chars "-" ++ substring m 0 2)
           | None =>
               match search eightDigits (chars fileName) with
               | Some m =>
                   str (substring m 0 4 ++ chars "-" ++ substring m 4 6
                        ++ chars "-" ++ substring m 6 8)
               | None => today
               end
           end
       end.
Proof.
  intros today fileName. unfold extractDateFromFilename.
  rewrite firstDate_dateIn. unfold dateIn.
  destruct (search yearFirst (chars fileName)); [reflexivity |].
  destruct (search dayFirst (chars fileName)); [reflexivity |].
  destruct (search eightDigits (chars fileName)); reflexivity.
Qed.

(** *** Arguments *)

(** [after] differs from [before] only in options whose flag is among
    [args]. *)
Definition setBy (args : list string) (before after : Cli.Options) : Prop :=
  Cli.directory after = Cli.directory before
  /\ (Cli.type after <> Cli.type before -> In "--type" args)
  /\ (Cli.status after <> Cli.status before -> In "--status" args)
  /\ (Cli.date after <> Cli.date before -> In "--date" args)
  /\ (Cli.limit after <> Cli.limit before -> In "--limit" args)
  /\ (Cli.skipExisting after <> Cli.skipExisting before ->
      In "--skip-existing" args)
  /\ (Cli.dryRun after <> Cli.dryRun before -> In "--dry-run" args).

Lemma setBy_refl args o : setBy args o o.
Proof. unfold setBy. repeat split; congruence. Qed.

Lemma setBy_later arg args before middle after :
  setBy [arg] before middle -> setBy args middle after ->
  forall more, incl (arg :: args) more -> setBy more before after.
Proof.
  unfold setBy.
  intros (Hd & Ht & Hs & Hda & Hl & Hsk & Hdr)
         (Kd & Kt & Ks & Kda & Kl & Ksk & Kdr) more Hincl.
  assert (Hhead : forall flag, In flag [arg] -> In flag more).
  { intros flag [<- | []]. apply Hincl. now left. }
  assert (Htail : forall flag, In flag args -> In flag more).
  { intros flag Hin. apply Hincl. now right. }
  assert (Hopt : forall (a b : option string), {a = b} + {a <> b})
    by (repeat decide equality).
  assert (Hnum : forall (a b : option Z), {a = b} + {a <> b})
    by (repeat decide equality).
  split; [congruence |].
  split; [intros Hne; destruct (Hopt (Cli.type middle) (Cli.type before));
          [apply Htail, Kt | apply Hhead, Ht]; congruence |].
  split; [intros Hne;
          destruct (Hopt (Cli.status middle) (Cli.status before));
          [apply Htail, Ks | apply Hhead, Hs]; congruence |].
  split; [intros Hne; destruct (Hopt (Cli.date middle) (Cli.date before));
          [apply Htail, Kda | apply Hhead, Hda]; congruence |].
  split; [intros Hne; destruct (Hnum (Cli.limit middle) (Cli.limit before));
          [apply Htail, Kl | apply Hhead, Hl]; congruence |].
  split; [intros Hne;
          destruct (Bool.bool_dec (Cli.skipExisting middle)
                                  (Cli.skipExisting before));
          [apply Htail, Ksk | apply Hhead, Hsk]; congruence |].
  intros Hne.
  destruct (Bool.bool_dec (Cli.dryRun middle) (Cli.dryRun before));
    [apply Htail, Kdr | apply Hhead, Hdr]; congruence.
Qed.

Lemma parseFlags_setBy parseInt args :
  forall options, setBy args options (Cli.parseFlags parseInt args options).
Proof.
  assert (Hbound : forall n args, length args <= n ->
             forall options,
               setBy args options (Cli.parseFlags parseInt args options)).
  { clear args. induction n as [| n IH]; intros args Hlen options.
    - destruct args; [apply setBy_refl | simpl in Hlen; lia].
    - destruct args as [| arg rest]; [apply setBy_refl |].
      simpl in Hlen.
      assert (Hskip : forall o, setBy [arg] options o ->
                 setBy (arg :: rest) options
                       (Cli.parseFlags parseInt rest o)).
      { intros o Ho.
        apply (setBy_later arg rest options o); [exact Ho | | apply incl_refl].
        apply IH. lia. }
      assert (Hvalue : forall o, setBy [arg] options o ->
                 match rest with
                 | value :: rest' =>
                     setBy (arg :: rest) options
                           (Cli.parseFlags parseInt rest' o)
                 | [] => setBy (arg :: rest) options o
                 end).
      { intros o Ho. destruct rest as [| value rest'].
        - exact (setBy_later arg [] options o o Ho (setBy_refl _ _)
                             [arg] (incl_refl _)).
        - apply (setBy_later arg rest' options o); [exact Ho | |].
          + apply IH. simpl in Hlen. lia.
          + intros flag [<- | Hin]; [now left | right; now right]. }
      simpl.
      destruct (String.eqb_spec arg "--type") as [-> | _].
      { specialize (Hvalue (Cli.withType (hd_error rest) options)).
        destruct rest; apply Hvalue; unfold setBy; simpl;
          repeat split; try congruence; auto. }
      destruct (String.eqb_spec arg "--status") as [-> | _].
      { specialize (Hvalue (Cli.withStatus (hd_error rest) options)).
        destruct rest; apply Hvalue; unfold setBy; simpl;
          repeat split; try congruence; auto. }
      destruct (String.eqb_spec arg "--date") as [-> | _].
      { specialize (Hvalue (Cli.withDate (hd_error rest) options)).
        destruct rest; apply Hvalue; unfold setBy; simpl;
          repeat split; try congruence; auto. }
      destruct (String.eqb_spec arg "--limit") as [-> | _].
      { specialize (Hvalue (Cli.withLimit (parseInt (hd_error rest))
                              options)).
        destruct rest; apply Hvalue; unfold setBy; simpl;
          repeat split; try congruence; auto. }
      destruct (String.eqb_spec arg "--skip-existing") as [-> | _].
      { apply Hskip. unfold setBy. simpl. repeat split; try congruence; auto. }
      destruct (String.eqb_spec arg "--dry-run") as [-> | _].
      { apply Hskip. unfold setBy. simpl. repeat split; try congruence; auto. }
      apply Hskip, setBy_refl. }
  intros options. now apply (Hbound (length args)).
Qed.

Lemma has_In args flag : Cli.has args flag = true <-> In flag args.
Proof.
  unfold Cli.has. rewrite existsb_exists. split.
  - intros (x & Hx & Heq). apply String.eqb_eq in Heq. now subst.
  - intros Hin. exists flag. split; [exact Hin | apply String.eqb_refl].
Qed.

(** X13. When [parseArgs] returns, an option differs from its default
    only if its flag is among the arguments: the type from [bill], the
    status from [passed], the date and the limit from null, the two
    switches from false.  The directory differs from [./docs] only if it
    is the first argument, and neither help flag is among the
    arguments. *)
Theorem options_keep_their_defaults :
  forall (parseInt : option string -> option Z) (args : list string)
         (options : Cli.Options),
    Cli.parseArgs parseInt args = Cli.Parse options ->
    (Cli.type options <> Some "bill" -> In "--type" args)
    /\ (Cli.status options <> Some "passed" -> In "--status" args)
    /\ (Cli.date options <> None -> In "--date" args)
    /\ (Cli.limit options <> None -> In "--limit" args)
    /\ (Cli.skipExisting options = true -> In "--skip-existing" args)
    /\ (Cli.dryRun options = true -> In "--dry-run" args)
    /\ (Cli.directory options <> "./docs" ->
        hd_error args = Some (Cli.directory options))
    /\ ~ In "--help" args /\ ~ In "-h" args.
Proof.
  intros parseInt args options. unfold Cli.parseArgs.
  destruct (Cli.has args "--help") eqn:Hhelp; [discriminate |].
  destruct (Cli.has args "-h") eqn:Hh; [discriminate |]. simpl.
  intros [= <-].
  match goal with
  | |- context [Cli.parseFlags parseInt args ?o] =>
      set (start := o);
      destruct (parseFlags_setBy parseInt args start)
        as (Hd & Ht & Hs & Hda & Hl & Hsk & Hdr)
  end.
  assert (Hstart : Cli.type start = Some "bill"
                   /\ Cli.status start = Some "passed"
                   /\ Cli.date start = None /\ Cli.limit start = None
                   /\ Cli.skipExisting start = false
                   /\ Cli.dryRun start = false
                   /\ (Cli.directory start <> "./docs" ->
                       hd_error args = Some (Cli.directory start))).
  { subst start. destruct args as [| first rest];
      [| destruct (negb (String.eqb first "")
                   && negb (String.prefix "--" first))];
      repeat split; try reflexivity; intros Hdir;
      exfalso; now apply Hdir. }
  destruct Hstart as (St & Ss & Sda & Sl & Ssk & Sdr & Sd).
  rewrite <- St, <- Ss, <- Sda, <- Sl.
  repeat split; try assumption.
  - intros Hon. apply Hsk. congruence.
  - intros Hon. apply Hdr. congruence.
  - rewrite Hd. exact Sd.
  - intros Hin. apply has_In in Hin. congruence.
  - intros Hin. apply has_In in Hin. congruence.
Qed.

(** [parseInt] on the strings of decimal digits that the examples
    use. *)
Definition parseDigits (value : option string) : option Z :=
  match value with
  | Some "2" => Some 2%Z
  | Some "0" => Some 0%Z
  | _ => None
  end.

Lemma options_keep_their_defaults_witness :
  Cli.parseArgs parseDigits ["./bills"; "--type"; "--dry-run"; "--limit"; "2"]
    = Cli.Parse (Cli.mkOptions "./bills" (Some "--dry-run") (Some "passed")
                   None (Some 2%Z) false false)
  /\ ~ In "--help" ["./bills"; "--type"; "--dry-run"; "--limit"; "2"].
Proof.
  split; [reflexivity |].
  exact (proj1 (proj2 (proj2 (proj2 (proj2 (proj2 (proj2 (proj2
           (options_keep_their_defaults parseDigits
              ["./bills"; "--type"; "--dry-run"; "--limit"; "2"] _
              eq_refl))))))))).
Defined.

End BatchScriptSpec.

(** ** scripts/batch-ingest.ts: the run over a directory *)

Module BatchRunSpec.

Import Js JsFacts BatchScript BatchScriptSpec.
Import EmbeddingSpec BatchIngestSpec.

(** *** Listing the directory *)

(** X14. [getPDFFiles] returns, in ascending order of their code units,
    the paths of exactly the entries of the directory whose name ends
    with [.pdf] in any case, each joined to the directory; it returns
    the empty list when the directory cannot be read. *)
Theorem pdf_files_are_listed_in_order :
  forall (readdirSync : string -> option (list string))
         (pathJoin : string -> string -> string) (directory : string),
    Sorted inOrder (getPDFFiles readdirSync pathJoin directory)
    /\ (forall path,
           In path (getPDFFiles readdirSync pathJoin directory) <->
           exists files file,
             readdirSync directory = Some files
             /\ In file files
             /\ endsWith (toLowerCase (chars file)) (chars ".pdf") = true
             /\ path = pathJoin directory file)
    /\ (readdirSync directory = None ->
        getPDFFiles readdirSync pathJoin directory = []).
Proof.
  intros readdirSync pathJoin directory. unfold getPDFFiles.
  destruct (readdirSync directory) as [files |].
  - split; [apply sort_sorted |]. split; [| discriminate].
    intros path. split.
    + intros Hin. apply (Permutation_in _ (sort_perm _)) in Hin.
      apply in_map_iff in Hin. destruct Hin as (file & <- & Hfile).
      apply filter_In in Hfile. destruct Hfile as [Hfile Hpdf].
      now exists files, file.
    + intros (files' & file & [= <-] & Hfile & Hpdf & ->).
      apply (Permutation_in _ (Permutation_sym (sort_perm _))).
      apply in_map, filter_In. now split.
  - split; [constructor |]. split; [| reflexivity].
    intros path. split; [contradiction |].
    intros (files & file & Hsome & _). discriminate.
Qed.

(** *** Counting *)

Definition handled (counts : Counts) : nat :=
  processed counts + skipped counts + failed counts.

Section Loop.

Variable basename : string -> string.
Variable ingestDocument : IngestCall -> M BatchIngest.IngestResult.

Lemma ingestOne_counts options file counts w :
  exists counts' w',
    ingestOne basename ingestDocument options file counts w
      = (Ok counts', w')
    /\ w' = snd (ingestDocument (callFor basename options file) w)
    /\ handled counts' = S (handled counts).
Proof.
  unfold ingestOne, handled.
  destruct (ingestDocument (callFor basename options file) w)
    as [[[| id n] | e] w']; eexists; eexists;
    (split; [reflexivity |]); split; try reflexivity; simpl; lia.
Qed.

Lemma ingestAll_counts options pdfFiles counts w :
  exists counts' w',
    ingestAll basename ingestDocument options pdfFiles counts w
      = (Ok counts', w')
    /\ handled counts' = handled counts + length pdfFiles.
Proof.
  revert counts w. induction pdfFiles as [| file rest IH]; intros counts w.
  - exists counts, w. split; [reflexivity |]. simpl. lia.
  - destruct (ingestOne_counts options file counts w)
      as (counts1 & w1 & Hone & _ & Hhandled).
    destruct (IH counts1 w1) as (counts' & w' & Hrest & Htotal).
    exists counts', w'. split.
    + simpl. unfold bind. now rewrite Hone.
    + simpl. lia.
Qed.

End Loop.

(** X15. A run that is not a dry run and finds PDF files goes through
    every selected file, whatever happens to each: it ends with a
    summary in which processed, skipped and failed files add up to the
    number of selected files, and it exits with status 1 exactly when a
    file failed. *)
Theorem every_file_is_counted_once :
  forall (parseInt : option string -> option Z)
         (readdirSync : string -> option (list string))
         (pathJoin : string -> string -> string)
         (basename : string -> string)
         (checkIfProcessed : string -> M bool)
         (ingestDocument : IngestCall -> M BatchIngest.IngestResult)
         (args : list string) (options : Cli.Options) (w : World),
    Cli.parseArgs parseInt args = Cli.Parse options ->
    Cli.dryRun options = false ->
    getPDFFiles readdirSync pathJoin (Cli.directory options) <> [] ->
    let pdfFiles :=
      applyLimit (Cli.limit options)
        (getPDFFiles readdirSync pathJoin (Cli.directory options)) in
    exists counts w',
      main parseInt readdirSync pathJoin basename checkIfProcessed
           ingestDocument args w
        = (Ok (mkExit (Summary counts (length pdfFiles))
                 (if Nat.eqb (failed counts) 0 then 0 else 1)), w')
      /\ processed counts + skipped counts + failed counts = length pdfFiles.
Proof.
  intros parseInt readdirSync pathJoin basename checkIfProcessed
    ingestDocument args options w Hparse Hdry Hfiles. cbv zeta.
  destruct (ingestAll_counts basename ingestDocument options
              (applyLimit (Cli.limit options)
                 (getPDFFiles readdirSync pathJoin (Cli.directory options)))
              (mkCounts 0 0 0) w) as (counts & w' & Hrun & Htotal).
  exists counts, w'. split; [| exact Htotal].
  unfold main. rewrite Hparse.
  destruct (getPDFFiles readdirSync pathJoin (Cli.directory options))
    eqn:Hlist; [congruence |].
  cbn [length Nat.eqb]. rewrite Hdry. unfold bind. rewrite Hrun.
  unfold ret. destruct (failed counts); reflexivity.
Qed.

(** *** The dry run *)



(** *** Running the same command again *)

Section Rerun.

Variable svc : Services.
Variable untyped : IngestCall -> M BatchIngest.IngestResult.

(** Nothing that follows the insert of the document row touches the
    documents table. *)
Lemma ingestFresh_documents options fileName w :
  let w' := snd (BatchIngest.ingestFresh svc options fileName w) in
  match extractTextFromPDF svc (BatchIngest.filePath options) with
  | Some text =>
      documents w' =
        documents w ++
        [mkDocumentRow (nextId w) (BatchIngest.title options)
           (BatchIngest.type options) text fileName]
  | None => w' = w
  end.
Proof.
  cbv zeta. unfold BatchIngest.ingestFresh, bind, BatchIngest.readPDF.
  destruct (extractTextFromPDF svc (BatchIngest.filePath options))
    as [text |]; [| reflexivity].
  cbn [ret throw BatchIngest.insertDocument].
  match goal with
  | |- context [BatchIngest.embedLoop svc ?chunks ?starts [] ?w1] =>
      assert (Hloop := embedLoop_readsOnly svc chunks starts [] w1);
      destruct (BatchIngest.embedLoop svc chunks starts [] w1)
        as [[embedded | e] w2]
  end;
    simpl in Hloop; destruct Hloop as (Hdocs & _); [| exact Hdocs].
  unfold BatchIngest.insertEmbeddings.
  destruct (concat embedded) as [| item items]; [exact Hdocs |].
  unfold modifyWorld, BatchIngest.insertBill, BatchIngest.createProceeding,
    modifyWorld, ret.
  destruct (String.eqb (BatchIngest.type options) "bill");
    [| destruct (String.eqb (BatchIngest.type options)
                   "parliamentary_bulletin")];
    exact Hdocs.
Qed.

(** A file the next run will not ingest: its document row is there, or
    its text cannot be read. *)
Definition settled (file : string) (w : World) : Prop :=
  hasDocument (basename svc file) w = true
  \/ extractTextFromPDF svc file = None.

Lemma hasDocument_grows fileName w w' extra :
  documents w' = documents w ++ extra ->
  hasDocument fileName w = true -> hasDocument fileName w' = true.
Proof.
  unfold hasDocument. intros -> Hhas. rewrite existsb_app, Hhas.
  reflexivity.
Qed.

Lemma ingestDocument_settles options w :
  let w' := snd (BatchIngest.ingestDocument svc options w) in
  settled (BatchIngest.filePath options) w'
  /\ exists extra, documents w' = documents w ++ extra.
Proof.
  cbv zeta. unfold BatchIngest.ingestDocument, settled.
  set (fileName := basename svc (BatchIngest.filePath options)).
  assert (Hfresh := ingestFresh_documents options fileName w).
  cbv zeta in Hfresh.
  assert (Hdone :
    (hasDocument fileName
       (snd (BatchIngest.ingestFresh svc options fileName w)) = true
     \/ extractTextFromPDF svc (BatchIngest.filePath options) = None)
    /\ exists extra,
         documents (snd (BatchIngest.ingestFresh svc options fileName w))
         = documents w ++ extra).
  { destruct (extractTextFromPDF svc (BatchIngest.filePath options))
      as [text |].
    - split; [left | eexists; exact Hfresh].
      eapply hasDocument_after_insert; [exact Hfresh | reflexivity].
    - rewrite Hfresh. split; [now right |]. exists [].
      now rewrite app_nil_r. }
  destruct (BatchIngest.skipExisting options); [| exact Hdone].
  unfold bind. rewrite checkIfProcessed_run.
  destruct (hasDocument fileName w) eqn:Hhas; [| exact Hdone].
  simpl. split; [now left |]. exists []. now rewrite app_nil_r.
Qed.

Lemma settled_grows file w w' extra :
  documents w' = documents w ++ extra -> settled file w -> settled file w'.
Proof.
  intros Hdocs [Hhas | Hnone]; [left | now right].
  exact (hasDocument_grows _ w w' extra Hdocs Hhas).
Qed.

(** A settled file is skipped or fails, and the database stays as it
    is. *)
Lemma settled_file_is_left_alone options w :
  BatchIngest.skipExisting options = true ->
  settled (BatchIngest.filePath options) w ->
  BatchIngest.ingestDocument svc options w = (Ok BatchIngest.Skipped, w)
  \/ BatchIngest.ingestDocument svc options w
     = (Throw (FileError (BatchIngest.filePath options)), w).
Proof.
  intros Hskip Hsettled. unfold BatchIngest.ingestDocument.
  rewrite Hskip. unfold bind. rewrite checkIfProcessed_run.
  destruct (hasDocument (basename svc (BatchIngest.filePath options)) w)
    eqn:Hhas; [now left |].
  destruct Hsettled as [Hhas' | Hnone]; [unfold settled in *; congruence |].
  right. unfold BatchIngest.ingestFresh, bind, BatchIngest.readPDF.
  now rewrite Hnone.
Qed.

Variable options : Cli.Options.
Variable t : string.
Hypothesis typed : Cli.type options = Some t.

Lemma ingestOne_settles file counts w :
  let w' := snd (ingestOne (basename svc) (ingestDocumentOf svc untyped)
                   options file counts w) in
  settled file w' /\ exists extra, documents w' = documents w ++ extra.
Proof.
  cbv zeta.
  destruct (ingestOne_counts (basename svc) (ingestDocumentOf svc untyped)
              options file counts w) as (counts' & w' & Hone & Hw & _).
  rewrite Hone. simpl. subst w'.
  unfold ingestDocumentOf, callFor. simpl. rewrite typed.
  exact (ingestDocument_settles
           (BatchIngest.mkOptions file
              (extractTitle (basename svc file)) t (Cli.status options)
              (Cli.date options) (Cli.skipExisting options)) w).
Qed.

Lemma ingestAll_settles pdfFiles counts w :
  let w' := snd (ingestAll (basename svc) (ingestDocumentOf svc untyped)
                   options pdfFiles counts w) in
  Forall (fun file => settled file w') pdfFiles
  /\ exists extra, documents w' = documents w ++ extra.
Proof.
  cbv zeta. revert counts w.
  induction pdfFiles as [| file rest IH]; intros counts w.
  - split; [constructor |]. exists []. simpl. now rewrite app_nil_r.
  - destruct (ingestOne_counts (basename svc) (ingestDocumentOf svc untyped)
                options file counts w) as (counts1 & w1 & Hone & _ & _).
    assert (Hfile := ingestOne_settles file counts w). cbv zeta in Hfile.
    rewrite Hone in Hfile. simpl in Hfile.
    destruct Hfile as [Hsettled (extra1 & Hdocs1)].
    simpl. unfold bind. rewrite Hone.
    destruct (IH counts1 w1) as [Hrest (extra & Hdocs)].
    split.
    + constructor; [| exact Hrest].
      exact (settled_grows file w1 _ extra Hdocs Hsettled).
    + exists (extra1 ++ extra). now rewrite Hdocs, Hdocs1, <- app_assoc.
Qed.

Hypothesis skipping : Cli.skipExisting options = true.

Lemma ingestAll_again pdfFiles counts w :
  Forall (fun file => settled file w) pdfFiles ->
  exists counts',
    ingestAll (basename svc) (ingestDocumentOf svc untyped) options pdfFiles
              counts w = (Ok counts', w)
    /\ processed counts' = processed counts
    /\ handled counts' = handled counts + length pdfFiles.
Proof.
  intros Hall. revert counts.
  induction Hall as [| file rest Hfile _ IH]; intros counts.
  - exists counts. repeat split. simpl. lia.
  - assert (Hone : exists counts1,
               ingestOne (basename svc) (ingestDocumentOf svc untyped)
                         options file counts w = (Ok counts1, w)
               /\ processed counts1 = processed counts
               /\ handled counts1 = S (handled counts)).
    { unfold ingestOne, ingestDocumentOf, callFor. simpl. rewrite typed.
      destruct (settled_file_is_left_alone
                  (BatchIngest.mkOptions file
                     (extractTitle (basename svc file)) t
                     (Cli.status options) (Cli.date options)
                     (Cli.skipExisting options)) w skipping Hfile)
        as [Hrun | Hrun]; rewrite Hrun; eexists;
        (split; [reflexivity |]); unfold handled; simpl; split; lia. }
    destruct Hone as (counts1 & Hone & Hprocessed & Hhandled).
    destruct (IH counts1) as (counts' & Hrest & Hp & Hh).
    exists counts'. simpl. unfold bind. rewrite Hone.
    split; [exact Hrest |]. split; [congruence |]. simpl. lia.
Qed.

End Rerun.

(** X17. Running the same batch command again, with
    [--skip-existing] and a document type, ingests nothing: the second
    run ends with the state the first run left, exactly, and counts
    every selected file as skipped or failed.  Files whose ingestion
    failed after their document row was inserted are among the skipped
    ones. *)
Theorem second_run_ingests_nothing :
  forall (svc : Services)
         (untyped : IngestCall -> M BatchIngest.IngestResult)
         (parseInt : option string -> option Z)
         (readdirSync : string -> option (list string))
         (pathJoin : string -> string -> string)
         (args : list string) (options : Cli.Options) (t : string)
         (w : World),
    Cli.parseArgs parseInt args = Cli.Parse options ->
    Cli.type options = Some t ->
    Cli.skipExisting options = true ->
    Cli.dryRun options = false ->
    getPDFFiles readdirSync pathJoin (Cli.directory options) <> [] ->
    let script :=
      main parseInt readdirSync pathJoin (basename svc)
           BatchIngest.checkIfProcessed (ingestDocumentOf svc untyped) args in
    let w1 := snd (script w) in
    exists counts total code,
      script w1 = (Ok (mkExit (Summary counts total) code), w1)
      /\ processed counts = 0
      /\ skipped counts + failed counts = total.
Proof.
  intros svc untyped parseInt readdirSync pathJoin args options t w
    Hparse Htyped Hskip Hdry Hfiles. cbv zeta.
  unfold main. rewrite Hparse.
  destruct (getPDFFiles readdirSync pathJoin (Cli.directory options))
    as [| file files] eqn:Hlist; [congruence |].
  cbn [length Nat.eqb]. rewrite Hdry.
  set (pdfFiles := applyLimit (Cli.limit options) (file :: files)).
  destruct (ingestAll_counts (basename svc) (ingestDocumentOf svc untyped)
              options pdfFiles (mkCounts 0 0 0) w)
    as (counts1 & w1 & Hfirst & _).
  assert (Hsettled := ingestAll_settles svc untyped options t Htyped
                        pdfFiles (mkCounts 0 0 0) w).
  cbv zeta in Hsettled. rewrite Hfirst in Hsettled. simpl in Hsettled.
  destruct Hsettled as [Hsettled _].
  destruct (ingestAll_again svc untyped options t Htyped Hskip pdfFiles
              (mkCounts 0 0 0) w1 Hsettled)
    as (counts & Hsecond & Hprocessed & Hhandled).
  match goal with
  | |- context [snd ?run] =>
      assert (Hw1 : snd run = w1)
        by (unfold bind; rewrite Hfirst; reflexivity);
      rewrite Hw1
  end.
  unfold bind. rewrite Hsecond. unfold ret.
  exists counts, (length pdfFiles),
    (if Nat.ltb 0 (failed counts) then 1 else 0).
  split; [reflexivity |]. split; [exact Hprocessed |].
  unfold handled in Hhandled. simpl in *. lia.
Qed.

(** *** A directory with two bills

    The folder holds two PDF files and a text file.  Every file is read
    as one chunk, and the provider rejects the chunk of [b.pdf]. *)

Definition docsFolder (directory : string) : option (list string) :=
  if String.eqb directory "docs"
  then Some ["notes.txt"; "b.pdf"; "a.PDF"]
  else None.

Definition slashJoin (directory file : string) : string :=
  directory ++ "/" ++ file.

Definition lastPart (path : string) : string :=
  str (last (split (chars path) "/") []).

Definition twoBillServices : Services :=
  mkServices
    (fun value => if String.eqb value "docs/b.pdf" then None else Some [1%Q])
    (fun _ => None) (fun _ => None) (fun _ _ => 0%Q) Engines.stableEngine
    (fun _ => true) (fun path => Some path) lastPart
    (fun text => [mkSplitDocument text None])
    (fun _ => None) (fun _ => None)
    (fun _ => "Summary generation failed.")
    (fun _ => "Summary generation failed.")
    (fun _ => "2024-12-31").

Definition noType (call : IngestCall) : M BatchIngest.IngestResult :=
  throw (DatabaseError "documents").

Definition batchIngest (args : list string) : M Exit :=
  main parseDigits docsFolder slashJoin lastPart BatchIngest.checkIfProcessed
       (ingestDocumentOf twoBillServices noType) args.

Lemma pdf_files_are_listed_in_order_witness :
  getPDFFiles docsFolder slashJoin "docs" = ["docs/a.PDF"; "docs/b.pdf"]
  /\ getPDFFiles docsFolder slashJoin "elsewhere" = []
  /\ Sorted inOrder (getPDFFiles docsFolder slashJoin "docs").
Proof.
  split; [reflexivity |]. split; [reflexivity |].
  exact (proj1 (pdf_files_are_listed_in_order docsFolder slashJoin "docs")).
Defined.

Lemma every_file_is_counted_once_witness :
  exists w',
    batchIngest ["docs"; "--type"; "constitution"] emptyWorld
      = (Ok (mkExit (Summary (mkCounts 1 0 1) 2) 1), w')
    /\ map originalFileName (documents w') = ["a.PDF"; "b.pdf"]
    /\ map emb_content (embeddings w') = ["docs/a.PDF"].
Proof.
  destruct (every_file_is_counted_once parseDigits docsFolder slashJoin
              lastPart BatchIngest.checkIfProcessed
              (ingestDocumentOf twoBillServices noType)
              ["docs"; "--type"; "constitution"] _ emptyWorld eq_refl
              eq_refl) as (counts & w' & Hrun & _).
  - vm_compute. discriminate.
  - exists w'. vm_compute in Hrun.
    injection Hrun as Hcounts _ Hw. subst counts w'. repeat split.
Defined.


Lemma second_run_ingests_nothing_witness :
  let w1 := snd (batchIngest ["docs"; "--skip-existing"] emptyWorld) in
  fst (batchIngest ["docs"; "--skip-existing"] emptyWorld)
    = Ok (mkExit (Summary (mkCounts 1 0 1) 2) 1)
  /\ batchIngest ["docs"; "--skip-existing"] w1
     = (Ok (mkExit (Summary (mkCounts 0 2 0) 2) 0), w1).
Proof.
  cbv zeta. split; [reflexivity |].
  destruct (second_run_ingests_nothing twoBillServices noType parseDigits
              docsFolder slashJoin ["docs"; "--skip-existing"] _ "bill"
              emptyWorld eq_refl eq_refl eq_refl eq_refl)
    as (counts & total & code & Hrun & _).
  - vm_compute. discriminate.
  - cbv zeta in Hrun. assert (Hvalue := Hrun).
    vm_compute in Hvalue. injection Hvalue as <- <- <-. exact Hrun.
Defined.

End BatchRunSpec.

(** ** The summaries *)

Module SummariesSpec.

Import Js JsFacts Summaries.



(** A body that carries [content] at [choices[0].message.content],
    whatever else it carries. *)
Definition completionBody (content : string)
  (top inChoice inMessage : list (string * JSON)) (moreChoices : list JSON)
  : JSON :=
  JObject
    (top ++
     [("choices",
       JArray
         (JObject
            (inChoice ++
             [("message",
               JObject (inMessage ++ [("content", JString content)]))])
          :: moreChoices))]).




Lemma substring_prefix (text more : string) n :
  String.length text = n ->
  str (substring (chars (text ++ more)) 0 n) = text
  /\ str (substring (chars text) 0 n) = text.
Proof.
  intros Hlen. unfold substring. rewrite Nat.sub_0_r. simpl skipn.
  rewrite chars_append, <- Hlen, <- length_chars.
  rewrite firstn_app, Nat.sub_diag, firstn_all. simpl.
  now rewrite app_nil_r, str_chars.
Qed.

(** X19. Only the first 8000 characters of a text reach the summary
    request: whatever follows them does not change the summary. *)
#[warnings="-abstract-large-number"]
Theorem summaries_read_8000_characters :
  forall (apiKey : option string) (fetch : ChatRequest -> Fetched)
         (text more : string),
    String.length text = 8000 ->
    generateBillSummary apiKey fetch (text ++ more)
      = generateBillSummary apiKey fetch text
    /\ generateProceedingSummary apiKey fetch (text ++ more)
       = generateProceedingSummary apiKey fetch text.
Proof.
  intros apiKey fetch text more Hlen.
  destruct (substring_prefix text more _ Hlen) as [Hlong Hshort].
  unfold generateBillSummary, generateProceedingSummary, billRequest,
    proceedingRequest.
  now rewrite Hlong, Hshort.
Qed.

End SummariesSpec.

Module SummariesExamples.

Import Js Summaries SummariesSpec.

(** A provider that answers every request with the same completion. *)
Definition steadyFetch (request : ChatRequest) : Fetched :=
  Responded true 200
    (Some (completionBody "  The bill amends the tax code. "
             [("id", JString "chatcmpl-1")] [("index", JNumber 0)]
             [("role", JString "assistant")] [])).

#[warnings="-abstract-large-number"]
Definition longBill : string := str (repeat "a"%char 8000).

Lemma summaries_read_8000_characters_witness :
  generateBillSummary None steadyFetch (longBill ++ " and the schedules")
  = generateBillSummary None steadyFetch longBill.
Proof.
  refine (proj1 (summaries_read_8000_characters None steadyFetch longBill
                   " and the schedules" _)).
  vm_compute. reflexivity.
Defined.

Example summary_of_a_completion :
  generateBillSummary None steadyFetch "An Act to amend the tax code"
  = "The bill amends the tax code."
  /\ generateBillSummary None (fun _ => Responded false 429 None)
       "An Act to amend the tax code"
     = "Summary generation failed.".
Proof. split; reflexivity. Qed.

End SummariesExamples.

(** ** Moving the capital's constituencies to their province *)

Module FixIctProvincesSpec.

Import FixIctProvinces.



Lemma inICT_setProvince province r : inICT (setProvince province r) = inICT r.
Proof. reflexivity. Qed.






End FixIctProvincesSpec.

(** ** The filter options of the directory *)

Module FiltersRouteSpec.

Import FiltersRoute.

Lemma values_of_rows rows : values (map Some rows) = rows.
Proof.
  unfold values. induction rows as [| v rows IH]; simpl; congruence.
Qed.

Section WithDatabase.

Variable svc : Services.
Variable collation : Collation.

Lemma selected_values column w :
  let result := values (selectDistinct collation column w) in
  NoDup result
  /\ Sorted (precedes collation) result
  /\ forall v, In v result <->
               exists r, In r (representatives w) /\ column r = Some v.
Proof.
  cbv zeta. unfold selectDistinct. rewrite values_of_rows.
  set (distinct := nodup string_dec
                     (flat_map (fun r => notNull (column r))
                               (representatives w))).
  split; [| split].
  - apply (Permutation_NoDup (Permutation_sym (orderBy_perm collation _))).
    apply NoDup_nodup.
  - apply orderBy_sorted.
  - intros v. split.
    + intros Hin.
      apply (Permutation_in _ (orderBy_perm collation distinct)) in Hin.
      apply nodup_In, in_flat_map in Hin. destruct Hin as (r & Hr & Hv).
      exists r. split; [exact Hr |].
      destruct (column r) as [x |]; [| contradiction].
      destruct Hv as [-> | []]. reflexivity.
    + intros (r & Hr & Hv).
      apply (Permutation_in _ (Permutation_sym
                                 (orderBy_perm collation distinct))).
      apply nodup_In, in_flat_map. exists r. split; [exact Hr |].
      rewrite Hv. now left.
Qed.

End WithDatabase.

(** What the route promises about one list of options. *)
Definition distinctValuesOf (column : RepresentativeRow -> option string)
  (collation : Collation) (w : World) (options : list string) : Prop :=
  NoDup options
  /\ Sorted (precedes collation) options
  /\ forall v, In v options <->
               exists r, In r (representatives w) /\ column r = Some v.

(** X22. The filter route never throws and writes nothing.  When the
    database answers, each of its three lists holds exactly the values
    that occur in the column (nulls left out), each once, in the order
    of the collation; when it does not, the response is the error
    message with status 500. *)
Theorem filter_options_are_the_distinct_values :
  forall (svc : Services) (collation : Collation) (w : World),
    exists response,
      GET svc collation w = (Ok response, w)
      /\ match response with
         | FilterOptions provinces parties districts =>
             selectAnswered svc "representatives" = true
             /\ distinctValuesOf rep_province collation w provinces
             /\ distinctValuesOf (fun r => Some (rep_party r)) collation w
                                 parties
             /\ distinctValuesOf rep_district collation w districts
         | FilterError error status =>
             selectAnswered svc "representatives" = false
             /\ error = "Failed to fetch filter options"
             /\ status = 500
         end.
Proof.
  intros svc collation w. unfold GET, bind, getWorld.
  destruct (selectAnswered svc "representatives"); eexists;
    (split; [reflexivity |]).
  - split; [reflexivity |]. repeat split; apply selected_values.
  - repeat split.
Qed.

End FiltersRouteSpec.

(** ** Embedding the profiles of the representatives *)

Module RepresentativeEmbeddingsSpec.

Import EmbeddingSpec Logs BatchIngestFacts.
Import RepresentativeEmbeddingsScript.

Section Script.

Variable svc : Services.
Variable otherColumns :
  RepresentativeRow -> string * option string * option string.

(** The text that is embedded for a representative. *)
Definition contentOf (rep : RepresentativeRow) : string :=
  createProfileEmbeddingContent (profileOf otherColumns rep).

Definition succeeds (rep : RepresentativeRow) : bool :=
  match embed svc (contentOf rep) with
  | Some _ => true
  | None => false
  end.

(** The row a successful task stores, under the key [id]. *)
Definition rowOf (id : nat) (rep : RepresentativeRow)
  : list RepresentativeEmbeddingRow :=
  match embed svc (contentOf rep) with
  | Some v => [mkRepresentativeEmbeddingRow id (rep_id rep) (contentOf rep) v]
  | None => []
  end.

(** The state after one task. *)
Definition afterOne (rep : RepresentativeRow) (w : World) : World :=
  mkWorld (documents w) (embeddings w) (bills w) (proceedings w)
          (representatives w)
          (representativeEmbeddings w ++ rowOf (nextId w) rep)
          (apiCalls w ++ [EmbedCall (contentOf rep)])
          (nextId w + length (rowOf (nextId w) rep)).

Definition tallyOne (rep : RepresentativeRow) (tally : Tally) : Tally :=
  if succeeds rep then mkTally (S (processed tally)) (errors tally)
  else mkTally (processed tally)
         (errors tally ++
          [mkFailure (nameClean rep ++ " (" ++ rep_constituencyCode rep ++ ")")
             "embedding"]).

Lemma processOne_run rep tally w :
  processOne svc otherColumns rep tally w
  = (Ok (tallyOne rep tally), afterOne rep w).
Proof.
  unfold processOne, bind, Embedding.generateEmbedding, tallyOne, afterOne,
    succeeds, rowOf. fold (contentOf rep).
  rewrite embedCall_run.
  destruct (embed svc (contentOf rep)) as [v |]; simpl.
  - unfold logged. simpl. repeat f_equal. lia.
  - unfold logged. repeat f_equal; [now rewrite app_nil_r | lia].
Qed.

Definition afterAll (reps : list RepresentativeRow) (w : World) : World :=
  fold_left (fun w rep => afterOne rep w) reps w.

Definition tallyAll (reps : list RepresentativeRow) (tally : Tally) : Tally :=
  fold_left (fun tally rep => tallyOne rep tally) reps tally.

Lemma allSettled_run batch tally w :
  allSettled svc otherColumns batch tally w
  = (Ok (tallyAll batch tally), afterAll batch w).
Proof.
  revert tally w. induction batch as [| rep rest IH]; intros tally w;
    [reflexivity |].
  simpl. unfold bind. now rewrite processOne_run, IH.
Qed.

Lemma batchLoop_run reps starts tally w :
  batchLoop svc otherColumns reps starts tally w
  = (Ok (tallyAll (concat (map (fun i => BatchIngest.slice reps i
                                            (i + BATCH_SIZE)) starts))
                  tally),
     afterAll (concat (map (fun i => BatchIngest.slice reps i
                                       (i + BATCH_SIZE)) starts)) w).
Proof.
  revert tally w. induction starts as [| i rest IH]; intros tally w;
    [reflexivity |].
  simpl. unfold bind. rewrite allSettled_run, IH.
  unfold tallyAll, afterAll. now rewrite !fold_left_app.
Qed.

Lemma batchLoop_all reps tally w :
  batchLoop svc otherColumns reps (batchStarts (length reps)) tally w
  = (Ok (tallyAll reps tally), afterAll reps w).
Proof.
  rewrite batchLoop_run.
  change (batchStarts (length reps))
    with (BatchIngest.batchStarts (length reps)).
  change BATCH_SIZE with BatchIngest.batchSize.
  now rewrite batches_partition.
Qed.

(** *** What a run adds up to *)

Lemma tallyAll_counts reps tally :
  processed (tallyAll reps tally)
  = processed tally + length (filter succeeds reps)
  /\ length (errors (tallyAll reps tally))
     = length (errors tally)
       + length (filter (fun rep => negb (succeeds rep)) reps).
Proof.
  revert tally. induction reps as [| rep rest IH]; intros tally; simpl.
  - split; lia.
  - destruct (IH (tallyOne rep tally)) as [Hp He].
    unfold tallyAll in *. rewrite Hp, He. unfold tallyOne.
    destruct (succeeds rep); simpl; rewrite ?length_app; simpl; split; lia.
Qed.

Lemma afterAll_tables reps w :
  let w' := afterAll reps w in
  documents w' = documents w
  /\ embeddings w' = embeddings w
  /\ representatives w' = representatives w
  /\ apiCalls w' = apiCalls w ++ map (fun rep => EmbedCall (contentOf rep)) reps
  /\ exists rows,
       representativeEmbeddings w' = representativeEmbeddings w ++ rows
       /\ map representativeId rows = map rep_id (filter succeeds reps)
       /\ map repemb_content rows = map contentOf (filter succeeds reps).
Proof.
  cbv zeta. revert w. induction reps as [| rep rest IH]; intros w.
  - simpl. repeat split; try now rewrite app_nil_r.
    exists []. now rewrite app_nil_r.
  - simpl. destruct (IH (afterOne rep w))
      as (Hd & He & Hr & Hc & rows & Hrows & Hids & Hcontents).
    unfold afterAll in *. rewrite Hd, He, Hr, Hc, Hrows. simpl.
    repeat split; [now rewrite <- app_assoc |].
    exists (rowOf (nextId w) rep ++ rows).
    split; [now rewrite app_assoc |].
    rewrite !map_app, Hids, Hcontents. unfold rowOf, succeeds.
    destruct (embed svc (contentOf rep)); split; reflexivity.
Qed.

End Script.

Lemma generate_run (svc : Services)
  (otherColumns : RepresentativeRow -> string * option string * option string)
  (w : World) :
  selectAnswered svc "representatives" = true ->
  selectAnswered svc "representative_embeddings" = true ->
  let todo :=
    filter (isMissing (map representativeId (representativeEmbeddings w)))
           (representatives w) in
  generateRepresentativeEmbeddings svc otherColumns w
  = match todo with
    | [] => (mkExit UpToDate 0, w)
    | _ :: _ =>
        let tally := tallyAll svc otherColumns todo (mkTally 0 []) in
        (mkExit (Generated tally)
           (if Nat.ltb 0 (length (errors tally)) then 1 else 0),
         afterAll svc otherColumns todo w)
    end.
Proof.
  intros Hreps Hembs. cbv zeta.
  unfold generateRepresentativeEmbeddings, generate, select, bind, getWorld.
  rewrite Hreps, Hembs. cbn [ret].
  destruct (filter _ (representatives w)) as [| rep rest]; [reflexivity |].
  change (Nat.eqb (length (rep :: rest)) 0) with false. cbv iota beta.
  now rewrite batchLoop_all.
Qed.

Lemma stored_and_failed {A} (f : A -> bool) l :
  length (filter f l) + length (filter (fun x => negb (f x)) l) = length l.
Proof.
  induction l as [| x l IH]; [reflexivity |].
  simpl. destruct (f x); simpl; lia.
Qed.

(** X23. When some representative has no embedding yet, the script
    embeds the profile of every such representative once, in table
    order, and of no other.  A profile the provider rejects is recorded
    as an error and does not stop the others: one row is stored per
    accepted profile, successes and errors add up to the number of
    representatives tried, and the exit status is 1 exactly when there
    was an error. *)
Theorem each_missing_profile_is_tried_once :
  forall (svc : Services)
         (otherColumns :
            RepresentativeRow -> string * option string * option string)
         (w : World),
    selectAnswered svc "representatives" = true ->
    selectAnswered svc "representative_embeddings" = true ->
    let todo :=
      filter (isMissing (map representativeId (representativeEmbeddings w)))
             (representatives w) in
    let stored := filter (succeeds svc otherColumns) todo in
    todo <> [] ->
    exists tally w' rows,
      generateRepresentativeEmbeddings svc otherColumns w
        = (mkExit (Generated tally)
             (if Nat.eqb (length stored) (length todo) then 0 else 1), w')
      /\ processed tally = length stored
      /\ processed tally + length (errors tally) = length todo
      /\ apiCalls w' =
           apiCalls w
           ++ map (fun rep => EmbedCall (contentOf otherColumns rep)) todo
      /\ representativeEmbeddings w' = representativeEmbeddings w ++ rows
      /\ map representativeId rows = map rep_id stored
      /\ representatives w' = representatives w.
Proof.
  intros svc otherColumns w Hreps Hembs. cbv zeta.
  assert (Hrun := generate_run svc otherColumns w Hreps Hembs).
  cbv zeta in Hrun.
  set (todo := filter (isMissing (map representativeId
                                      (representativeEmbeddings w)))
                      (representatives w)) in *.
  intros Htodo.
  destruct (tallyAll_counts svc otherColumns todo (mkTally 0 []))
    as [Hprocessed Herrors].
  destruct (afterAll_tables svc otherColumns todo w)
    as (_ & _ & Hr & Hcalls & rows & Hrows & Hids & _).
  assert (Hsplit := stored_and_failed (succeeds svc otherColumns) todo).
  simpl in Hprocessed, Herrors.
  exists (tallyAll svc otherColumns todo (mkTally 0 [])),
    (afterAll svc otherColumns todo w), rows.
  split.
  - rewrite Hrun. destruct todo as [| rep rest] eqn:Htodo'; [congruence |].
    f_equal. f_equal.
    destruct (Nat.eqb_spec
                (length (filter (succeeds svc otherColumns) (rep :: rest)))
                (length (rep :: rest))) as [Heq | Hneq];
      destruct (Nat.ltb_spec 0
                  (length (errors (tallyAll svc otherColumns (rep :: rest)
                                     (mkTally 0 [])))));
      try reflexivity; lia.
  - repeat split; try assumption; lia.
Qed.

(** X24. After a run in which the provider accepts every profile, a
    second run finds nothing to do: it exits with status 0 without a
    call and without a write. *)
Theorem embedded_profiles_are_not_embedded_again :
  forall (svc : Services)
         (otherColumns :
            RepresentativeRow -> string * option string * option string)
         (w : World),
    selectAnswered svc "representatives" = true ->
    selectAnswered svc "representative_embeddings" = true ->
    Forall (fun rep => embed svc (contentOf otherColumns rep) <> None)
           (representatives w) ->
    let w1 := snd (generateRepresentativeEmbeddings svc otherColumns w) in
    generateRepresentativeEmbeddings svc otherColumns w1
    = (mkExit UpToDate 0, w1).
Proof.
  intros svc otherColumns w Hreps Hembs Hall. cbv zeta.
  assert (Hrun := generate_run svc otherColumns w Hreps Hembs).
  cbv zeta in Hrun.
  set (todo := filter (isMissing (map representativeId
                                      (representativeEmbeddings w)))
                      (representatives w)) in *.
  assert (Hstored : filter (succeeds svc otherColumns) todo = todo).
  { apply forallb_filter_id, forallb_forall. intros rep Hrep.
    apply filter_In in Hrep. destruct Hrep as [Hrep _].
    rewrite Forall_forall in Hall. specialize (Hall rep Hrep).
    unfold succeeds.
    destruct (embed svc (contentOf otherColumns rep)); congruence. }
  assert (Hfirst :
    exists w1,
      snd (generateRepresentativeEmbeddings svc otherColumns w) = w1
      /\ representatives w1 = representatives w
      /\ forall rep, In rep (representatives w) ->
           existsb (Nat.eqb (rep_id rep))
                   (map representativeId (representativeEmbeddings w1))
           = true).
  { assert (Hmissing : forall rep, In rep (representatives w) ->
               existsb (Nat.eqb (rep_id rep))
                       (map representativeId (representativeEmbeddings w))
               = false -> In rep todo).
    { intros rep Hrep Hhas. apply filter_In. split; [exact Hrep |].
      unfold isMissing. now rewrite Hhas. }
    rewrite Hrun. destruct todo as [| rep0 rest] eqn:Htodo.
    - exists w. split; [reflexivity |]. split; [reflexivity |].
      intros rep Hrep.
      destruct (existsb (Nat.eqb (rep_id rep))
                  (map representativeId (representativeEmbeddings w)))
        eqn:Hhas; [reflexivity |].
      destruct (Hmissing rep Hrep Hhas).
    - destruct (afterAll_tables svc otherColumns (rep0 :: rest) w)
        as (_ & _ & Hsame & _ & rows & Hrows & Hids & _).
      rewrite Hstored in Hids.
      exists (afterAll svc otherColumns (rep0 :: rest) w).
      split; [reflexivity |]. split; [exact Hsame |].
      intros rep Hrep. rewrite Hrows, map_app, existsb_app.
      destruct (existsb (Nat.eqb (rep_id rep))
                  (map representativeId (representativeEmbeddings w)))
        eqn:Hhas; [reflexivity |].
      simpl. rewrite Hids.
      apply existsb_exists. exists (rep_id rep).
      split; [| apply Nat.eqb_refl].
      apply in_map. now apply Hmissing. }
  destruct Hfirst as (w1 & -> & Hsame & Hcovered).
  rewrite (generate_run svc otherColumns w1 Hreps Hembs). cbv zeta.
  rewrite Hsame.
  assert (Hnone : filter (isMissing (map representativeId
                                         (representativeEmbeddings w1)))
                         (representatives w) = []).
  { apply EmbeddingSpec.filter_none, Forall_forall. intros rep Hrep.
    unfold isMissing. now rewrite (Hcovered rep Hrep). }
  now rewrite Hnone.
Qed.

End RepresentativeEmbeddingsSpec.

Module RepresentativeEmbeddingsExamples.

Import Js RepresentativeEmbeddingsScript RepresentativeEmbeddingsSpec.

(** Three members, the first of them embedded already. *)
Definition assemblyWorld : World :=
  mkWorld [] [] [] []
    [ mkRepresentativeRow 1 "Ayesha Khan" "NA-125 Lahore-IX" "NA-125"
        (Some "Lahore-IX") (Some "Lahore") (Some "Punjab") "IND"
        None None None;
      mkRepresentativeRow 2 "Bilal Shah" "NA-2 Swat-I" "NA-2"
        (Some "Swat-I") (Some "Swat") (Some "Khyber Pukhtunkhwa") "IND"
        (Some "") None None;
      mkRepresentativeRow 3 "Sana Mir" "NA-46 ICT-I" "NA-46"
        (Some "ICT-I") None (Some "Khyber Pukhtunkhwa") "PPP"
        (Some "051-1234567") None None ]
    [ mkRepresentativeEmbeddingRow 10 1 "Representative: Ms. Ayesha Khan"
        [0.18%Q] ]
    [] 11.

Definition titled (rep : RepresentativeRow)
  : string * option string * option string :=
  (("Mr. " ++ nameClean rep)%string, None, Some "2/29/2024").

(** A provider that rejects the profile of one member. *)
Definition pickyServices : Services :=
  Engines.exampleServices Engines.stableEngine
    (fun value => if includes (chars value) (chars "Bilal") then None
                  else Some [1%Q])
    (fun _ => true) (fun _ => []) "tags".

Lemma each_missing_profile_is_tried_once_witness :
  exists w',
    generateRepresentativeEmbeddings pickyServices titled assemblyWorld
      = (mkExit (Generated
                   (mkTally 1 [mkFailure "Bilal Shah (NA-2)" "embedding"])) 1,
         w')
    /\ map representativeId (representativeEmbeddings w') = [1; 3]
    /\ length (apiCalls w') = 2.
Proof.
  destruct (each_missing_profile_is_tried_once pickyServices titled
              assemblyWorld eq_refl eq_refl)
    as (tally & w' & rows & Hrun & _).
  - vm_compute. discriminate.
  - exists w'. assert (Hvalue := Hrun). vm_compute in Hvalue.
    injection Hvalue as <- <-. split; [exact Hrun | split; reflexivity].
Defined.

Lemma embedded_profiles_are_not_embedded_again_witness :
  let w1 :=
    snd (generateRepresentativeEmbeddings
           ChatRouteSpec.allUpServices titled assemblyWorld) in
  map representativeId (representativeEmbeddings w1) = [1; 2; 3]
  /\ generateRepresentativeEmbeddings ChatRouteSpec.allUpServices titled w1
     = (mkExit UpToDate 0, w1).
Proof.
  cbv zeta. split; [reflexivity |].
  apply (embedded_profiles_are_not_embedded_again
           ChatRouteSpec.allUpServices titled assemblyWorld eq_refl eq_refl).
  repeat constructor; discriminate.
Defined.

Example profile_of_a_member :
  contentOf titled
    (mkRepresentativeRow 3 "Sana Mir" "NA-46 ICT-I" "NA-46"
       (Some "ICT-I") None (Some "") "PPP" (Some "051-1234567") None None)
  = ("Representative: Mr. Sana Mir" ++ ChatRoute.newline ++
     "Constituency: NA-46 ICT-I" ++ ChatRoute.newline ++
     "Area: ICT-I" ++ ChatRoute.newline ++
     "Party: PPP" ++ ChatRoute.newline ++
     "Oath Date: 2/29/2024" ++ ChatRoute.newline ++
     "Phone: 051-1234567")%string.
Proof. reflexivity. Qed.

End RepresentativeEmbeddingsExamples.

(** ** scripts/ingest-pdf.ts: the arguments *)

Module IngestPdfSpec.

Import IngestPdf.

Lemma assign_filePath key value o :
  filePath (assign key value o) = filePath o.
Proof.
  unfold assign.
  repeat match goal with
         | |- context [String.eqb key ?k] => destruct (String.eqb key k)
         end; reflexivity.
Qed.

Lemma parsePairs_filePath args :
  forall o, filePath (parsePairs args o) = filePath o.
Proof.
  assert (Hbound : forall n args, length args <= n ->
             forall o, filePath (parsePairs args o) = filePath o).
  { clear args. induction n as [| n IH]; intros args Hlen o.
    - destruct args; [reflexivity | simpl in Hlen; lia].
    - destruct args as [| arg [| value rest]]; simpl.
      + reflexivity.
      + apply assign_filePath.
      + rewrite IH by (simpl in Hlen; lia). apply assign_filePath. }
  intros o. now apply (Hbound (length args)).
Qed.

(** X25. When [parseArgs] of the single-file script returns, the file
    path is the first argument and names an existing file, the title is
    a non-empty string, and the type is one of the four valid types. *)
Theorem parsed_options_are_valid :
  forall (existsSync : string -> bool) (args : list string)
         (options : Options),
    parseArgs existsSync args = Parse options ->
    hd_error args = Some (filePath options)
    /\ existsSync (filePath options) = true
    /\ (exists t, title options = Some t /\ t <> "")
    /\ (exists t, type options = Some t /\ In t validTypes).
Proof.
  intros existsSync args options. unfold parseArgs.
  destruct args as [| path rest]; [discriminate |].
  destruct (String.eqb path "--help" || String.eqb path "-h");
    [discriminate |].
  remember (parsePairs rest
              (mkOptions path None None None None None None None))
    as parsed eqn:Hp.
  assert (Hpath : filePath parsed = path).
  { rewrite Hp. now rewrite parsePairs_filePath. }
  clear Hp.
  destruct (isMissing (title parsed)) eqn:Htitle; [discriminate |].
  destruct (isMissing (type parsed)) eqn:Htype; [discriminate |].
  destruct (existsb _ validTypes) eqn:Hvalid; [| discriminate].
  destruct (existsSync path) eqn:Hexists; [| discriminate].
  simpl. intros [= <-]. rewrite Hpath. repeat split; try assumption.
  - destruct (title parsed) as [t |]; [| discriminate].
    exists t. split; [reflexivity |]. intros ->. discriminate.
  - destruct (type parsed) as [t |]; [| discriminate].
    exists t. split; [reflexivity |].
    apply existsb_exists in Hvalid. destruct Hvalid as (valid & Hin & Heq).
    apply String.eqb_eq in Heq. now subst.
Qed.

Lemma parsed_options_are_valid_witness :
  parseArgs (fun path => String.eqb path "./bill.pdf")
    ["./bill.pdf"; "--title"; "Finance Bill 2024"; "type"; "bill";
     "--status"]
  = Parse (mkOptions "./bill.pdf" (Some "Finance Bill 2024") (Some "bill")
             None None None None None)
  /\ (exists t, Some "bill" = Some t /\ In t validTypes).
Proof.
  split; [reflexivity |].
  exact (proj2 (proj2 (proj2
           (parsed_options_are_valid (fun path => String.eqb path "./bill.pdf")
              ["./bill.pdf"; "--title"; "Finance Bill 2024"; "type"; "bill";
               "--status"] _ eq_refl)))).
Defined.

(** Arguments out of step: the title is read as a key, and the run ends
    with status 1. *)
Example a_flag_without_value_shifts_the_pairs :
  parseArgs (fun _ => true)
    ["./bill.pdf"; "--dry-run"; "--title"; "Finance Bill"; "--type"; "bill"]
  = Exit 1.
Proof. reflexivity. Qed.

End IngestPdfSpec.

Module MoreExamples.

Import Js JsFacts BatchScript FixIctProvinces FiltersRoute.

Example dates_read_off_file_names :
  extractDateFromFilename "2026-01-15" "bulletin-2024-12-31.pdf"
    = Ok "2024-12-31"
  /\ extractDateFromFilename "2026-01-15" "31-12-2024.pdf" = Ok "2024-12-31"
  /\ extractDateFromFilename "2026-01-15" "sitting20241231.pdf"
     = Ok "2024-12-31"
  /\ extractDateFromFilename "2026-01-15" "31-12-2024-rev-2023-01-05.pdf"
     = Ok "2023-01-05"
  /\ extractDateFromFilename "2026-01-15" "finance-bill.pdf"
     = Ok "2026-01-15".
Proof. repeat split. Qed.

(** The collation that orders text by code units. *)
Definition byCodeUnits : Collation :=
  mkCollation inOrder Js.sort sort_perm sort_sorted.

Example options_of_the_assembly :
  fst (GET ChatRouteSpec.allUpServices byCodeUnits
         RepresentativeEmbeddingsExamples.assemblyWorld)
  = Ok (FilterOptions ["Khyber Pukhtunkhwa"; "Punjab"] ["IND"; "PPP"]
          ["Lahore"; "Swat"]).
Proof. reflexivity. Qed.

Example the_capital_after_the_fix :
  map (fun r => (rep_constituencyCode r, rep_province r))
      (representatives
         (snd (fixICTProvinces
                 RepresentativeEmbeddingsExamples.assemblyWorld)))
  = [ ("NA-125", Some "Punjab");
      ("NA-2", Some "Khyber Pukhtunkhwa");
      ("NA-46", Some "Islamabad Capital Territory") ]
  /\ option_map rowCount
       (match fst (fixICTProvinces
                     RepresentativeEmbeddingsExamples.assemblyWorld) with
        | Ok report => Some report
        | Throw _ => None
        end) = Some 1.
Proof. split; reflexivity. Qed.

End MoreExamples.
